(** * go-ollama3: the ingestion-and-retrieval pipeline of [main.go]

    A shallow embedding of the RAG chatbot's core: the word-window chunker,
    the cosine scorer, the vector store with its JSON persistence, the
    ingestion procedures and similarity-ranked retrieval.

    Conventions.
    - A Go [string] is a byte sequence: [String.string], one [ascii] per
      byte; [len(s)] is [String.length s].
    - A Go [int] is a 64-bit two's complement integer: a [Z] normalised by
      [wrap64] after each addition and subtraction.
    - A Go slice is a [list]; a [nil] slice and an empty one are identified.
    - A [float64] is an IEEE-754 binary64 value: [spec_float] with
      precision 53 and maximal exponent 1024.
    - A method is a function of the state of the world (files, the PDF
      reader, the Ollama service and the calls made to it) that returns,
      panics or diverges.  What is printed or logged, the pause between two
      requests and the durations that the menu of [main] measures are not
      represented. *)

From Stdlib Require Import ZArith Lia List Bool Ascii String.
From Stdlib Require Import SpecFloat Permutation Sorted.
From stdpp Require Import gmap strings pretty.

Local Open Scope Z_scope.

(** * Part I: the program *)

(** ** Machine integers *)

Module GoInt.

Definition min_int : Z := - 2 ^ 63.
Definition max_int : Z := 2 ^ 63 - 1.

(** Two's complement normalisation into [min_int .. max_int]. *)
Definition wrap64 (z : Z) : Z := (z + 2 ^ 63) mod 2 ^ 64 - 2 ^ 63.

Definition add (a b : Z) : Z := wrap64 (a + b).
Definition sub (a b : Z) : Z := wrap64 (a - b).

Definition in_range (z : Z) : Prop := min_int <= z <= max_int.

End GoInt.

(** ** Strings: the parts of Go's [strings], [unicode] and [unicode/utf8]
    that the program calls *)

Module GoStrings.

Definition byte (c : ascii) : Z := Z.of_N (N_of_ascii c).

(** [len(s)] as a Go [int]. *)
Definition len (s : string) : Z := Z.of_nat (String.length s).

Definition RuneError : Z := 0xFFFD.

(** The size of the encoding that a leading byte announces and the range
    its second byte must lie in ([first] and [acceptRanges] of
    [unicode/utf8]); [None] for a byte that starts no encoding. *)
Definition lead (b0 : Z) : option (nat * Z * Z) :=
  if (0xC2 <=? b0) && (b0 <=? 0xDF) then Some (2%nat, 0x80, 0xBF)
  else if b0 =? 0xE0 then Some (3%nat, 0xA0, 0xBF)
  else if (0xE1 <=? b0) && (b0 <=? 0xEC) then Some (3%nat, 0x80, 0xBF)
  else if b0 =? 0xED then Some (3%nat, 0x80, 0x9F)
  else if (0xEE <=? b0) && (b0 <=? 0xEF) then Some (3%nat, 0x80, 0xBF)
  else if b0 =? 0xF0 then Some (4%nat, 0x90, 0xBF)
  else if (0xF1 <=? b0) && (b0 <=? 0xF3) then Some (4%nat, 0x80, 0xBF)
  else if b0 =? 0xF4 then Some (4%nat, 0x80, 0x8F)
  else None.

Definition continuation (b : Z) : bool := (0x80 <=? b) && (b <=? 0xBF).

(** [utf8.DecodeRuneInString]: the first rune of [s] and its width in
    bytes; [(RuneError, 1)] for a byte that starts no valid encoding and
    [(RuneError, 0)] for the empty string. *)
Definition DecodeRuneInString (s : string) : Z * nat :=
  match s with
  | EmptyString => (RuneError, 0%nat)
  | String c0 s1 =>
      let b0 := byte c0 in
      if b0 <? 0x80 then (b0, 1%nat)
      else
        match lead b0 with
        | None => (RuneError, 1%nat)
        | Some (sz, lo, hi) =>
            if (String.length s <? sz)%nat then (RuneError, 1%nat)
            else
              match s1 with
              | EmptyString => (RuneError, 1%nat)
              | String c1 s2 =>
                  let b1 := byte c1 in
                  if (b1 <? lo) || (hi <? b1) then (RuneError, 1%nat)
                  else if (sz <=? 2)%nat
                  then (Z.lor (Z.shiftl (Z.land b0 0x1F) 6) (Z.land b1 0x3F), 2%nat)
                  else
                    match s2 with
                    | EmptyString => (RuneError, 1%nat)
                    | String c2 s3 =>
                        let b2 := byte c2 in
                        if negb (continuation b2) then (RuneError, 1%nat)
                        else if (sz <=? 3)%nat
                        then (Z.lor (Z.shiftl (Z.land b0 0x0F) 12)
                                (Z.lor (Z.shiftl (Z.land b1 0x3F) 6)
                                       (Z.land b2 0x3F)), 3%nat)
                        else
                          match s3 with
                          | EmptyString => (RuneError, 1%nat)
                          | String c3 _ =>
                              let b3 := byte c3 in
                              if negb (continuation b3) then (RuneError, 1%nat)
                              else (Z.lor (Z.shiftl (Z.land b0 0x07) 18)
                                      (Z.lor (Z.shiftl (Z.land b1 0x3F) 12)
                                         (Z.lor (Z.shiftl (Z.land b2 0x3F) 6)
                                                (Z.land b3 0x3F))), 4%nat)
                          end
                    end
              end
        end
  end.

(** [for _, r := range s]: the runes of [s] in order, each with the bytes
    it was decoded from.  [skip] counts the bytes of the rune decoded last
    that are still to be passed over. *)
Fixpoint runes_from (s : string) (skip : nat) : list (Z * string) :=
  match s with
  | EmptyString => []
  | String _ rest =>
      match skip with
      | S k => runes_from rest k
      | O =>
          let '(r, width) := DecodeRuneInString s in
          (r, substring 0 width s) :: runes_from rest (width - 1)
      end
  end.

Definition runes (s : string) : list (Z * string) := runes_from s 0.

(** The bytes of a sequence of runes. *)
Definition bytes_of (rs : list (Z * string)) : string :=
  String.concat "" (map snd rs).

(** [unicode.IsSpace]. *)
Definition IsSpace (r : Z) : bool :=
  ((0x09 <=? r) && (r <=? 0x0D)) || (r =? 0x20) || (r =? 0x85) || (r =? 0xA0)
  || (r =? 0x1680) || ((0x2000 <=? r) && (r <=? 0x200A))
  || (r =? 0x2028) || (r =? 0x2029) || (r =? 0x202F) || (r =? 0x205F)
  || (r =? 0x3000).

(** The word being collected, emitted when a separator or the end of the
    input is reached; no word is being collected when it is empty. *)
Definition flush (cur : string) : list string :=
  match cur with
  | EmptyString => []
  | _ => [cur]
  end.

Fixpoint fields_of (rs : list (Z * string)) (cur : string) : list string :=
  match rs with
  | [] => flush cur
  | (r, bs) :: rs' =>
      if IsSpace r then flush cur ++ fields_of rs' EmptyString
      else fields_of rs' (cur +:+ bs)
  end.

(** [strings.Fields]: the maximal runs of runes that are not white space. *)
Definition Fields (s : string) : list string := fields_of (runes s) EmptyString.

(** [strings.Join]. *)
Definition Join (elems : list string) (sep : string) : string :=
  String.concat sep elems.

Fixpoint drop_spaces (rs : list (Z * string)) : list (Z * string) :=
  match rs with
  | (r, _) :: rs' => if IsSpace r then drop_spaces rs' else rs
  | [] => []
  end.

(** [strings.TrimSpace]: the white space runes at both ends removed. *)
Definition TrimSpace (s : string) : string :=
  bytes_of (rev (drop_spaces (rev (drop_spaces (runes s))))).

End GoStrings.

(** ** The chunker *)

(** What a call can do besides returning: a run-time panic (a slice
    expression out of range) or a loop that never ends. *)
Inductive outcome (A : Type) : Type :=
| Returns (a : A)
| Panics
| Diverges.
Arguments Returns {A} a.
Arguments Panics {A}.
Arguments Diverges {A}.

Module Chunker.
Import GoInt GoStrings.

(** The slice expression [s[lo:hi]] on a slice whose capacity is its
    length; [None] is the run-time panic. *)
Definition slice {A : Type} (s : list A) (lo hi : Z) : option (list A) :=
  if (0 <=? lo) && (lo <=? hi) && (hi <=? Z.of_nat (length s))
  then Some (firstn (Z.to_nat (hi - lo)) (skipn (Z.to_nat lo) s))
  else None.

(** The [for] loop of [ChunkText] (main.go, lines 138-149).  One unit of
    [fuel] is spent per evaluation of the loop condition. *)
Fixpoint ChunkText_loop (fuel : nat) (words : list string)
    (chunkSize overlap : Z) (i : Z) (chunks : list string)
  : outcome (list string) :=
  match fuel with
  | O => Diverges
  | S fuel' =>
      if i <? Z.of_nat (length words) then
        let end0 := add i chunkSize in
        let end_ := if end0 >? Z.of_nat (length words)
                    then Z.of_nat (length words) else end0 in
        match slice words i end_ with
        | None => Panics
        | Some window =>
            let chunk := Join window " " in
            let chunks := chunks ++ [chunk] in
            if end_ =? Z.of_nat (length words) then Returns chunks
            else ChunkText_loop fuel' words chunkSize overlap
                   (add i (sub chunkSize overlap)) chunks
        end
      else Returns chunks
  end.

(** [ChunkText] with an explicit bound on the number of loop tests. *)
Definition ChunkText_fuel (fuel : nat) (text : string) (chunkSize overlap : Z)
  : outcome (list string) :=
  let words := Fields text in
  if Z.of_nat (length words) <=? chunkSize then Returns [text]
  else ChunkText_loop fuel words chunkSize overlap 0 [].

(** [(r *RAGChatbot) ChunkText] (main.go, lines 131-152); the receiver is
    not used.  [len(words) + 1] tests of the loop condition decide the call:
    the index advances by at least one word at each turn, or it wraps to a
    negative value and the next slice expression panics, or it does not move
    and the loop never ends ([ChunkText_fuel_decides] below). *)
Definition ChunkText (text : string) (chunkSize overlap : Z)
  : outcome (list string) :=
  ChunkText_fuel (S (length (Fields text))) text chunkSize overlap.

(** *** The sliding windows, as the specification words them *)

Definition ceil_div (a b : Z) : Z := (a + b - 1) / b.

Definition chunk_count (w size overlap : Z) : Z :=
  ceil_div (w - size) (size - overlap) + 1.

Definition window_lo (size overlap j : Z) : Z := j * (size - overlap).

Definition window_hi (w size overlap j : Z) : Z :=
  Z.min (j * (size - overlap) + size) w.

Definition window_words (words : list string) (size overlap j : Z)
  : list string :=
  let w := Z.of_nat (length words) in
  firstn (Z.to_nat (window_hi w size overlap j - window_lo size overlap j))
         (skipn (Z.to_nat (window_lo size overlap j)) words).

Definition sliding_chunks (words : list string) (size overlap : Z)
  : list string :=
  let w := Z.of_nat (length words) in
  map (fun j : nat => Join (window_words words size overlap (Z.of_nat j)) " ")
      (seq 0 (Z.to_nat (chunk_count w size overlap))).

End Chunker.

(** ** Floating point *)

(** [float64]: IEEE-754 binary64 with round-to-nearest-even, as the
    Standard Library specifies it.  Go's [x > y] is [ltb y x], and its
    [x == y] is [eqb x y] (so [+0 == -0], and a NaN equals nothing). *)
Module Float64.

Definition prec : Z := 53.
Definition emax : Z := 1024.

Definition float64 : Type := spec_float.

Definition add : float64 -> float64 -> float64 := SFadd prec emax.
Definition mul : float64 -> float64 -> float64 := SFmul prec emax.
Definition div : float64 -> float64 -> float64 := SFdiv prec emax.
Definition sqrt : float64 -> float64 := SFsqrt prec emax.
Definition eqb : float64 -> float64 -> bool := SFeqb.
Definition ltb : float64 -> float64 -> bool := SFltb.
Definition leb : float64 -> float64 -> bool := SFleb.

(** The constant [0] and the zero value of a [float64] variable. *)
Definition zero : float64 := S754_zero false.

Definition is_nan (x : float64) : bool :=
  match x with S754_nan => true | _ => false end.

(** Neither a NaN nor an infinity. *)
Definition is_finite (x : float64) : bool :=
  match x with S754_nan | S754_infinity _ => false | _ => true end.

(** The [float64] nearest to an integer: the value of an integer literal
    or of a decimal literal without fraction. *)
Definition of_Z (z : Z) : float64 := binary_normalize prec emax z 0 false.

End Float64.

(** ** The similarity scorer *)

Module Scorer.
Import Float64.

(** One turn of the loop of [cosineSimilarity] (main.go, lines 191-195):
    the three running sums after the index [i] is visited.  [None] is the
    run-time panic of an index out of range.  Each product is rounded
    before it is added (no fused multiply-add). *)
Definition cosine_step (a b : list float64)
    (acc : option (float64 * float64 * float64)) (i : nat)
  : option (float64 * float64 * float64) :=
  match acc, nth_error a i, nth_error b i with
  | Some (dotProduct, normA, normB), Some ai, Some bi =>
      Some (add dotProduct (mul ai bi), add normA (mul ai ai), add normB (mul bi bi))
  | _, _, _ => None
  end.

(** [for i := range a]. *)
Definition cosine_loop (a b : list float64)
  : option (float64 * float64 * float64) :=
  fold_left (cosine_step a b) (seq 0 (length a)) (Some (zero, zero, zero)).

(** [cosineSimilarity] (main.go, lines 185-205). *)
Definition cosineSimilarity (a b : list float64) : outcome float64 :=
  if negb (length a =? length b)%nat then Returns zero
  else
    match cosine_loop a b with
    | None => Panics
    | Some (dotProduct, normA, normB) =>
        let normA := sqrt normA in
        let normB := sqrt normB in
        if eqb normA zero || eqb normB zero then Returns zero
        else Returns (div dotProduct (mul normA normB))
    end.

(** *** The quantities the specification names *)

(** [dot(a, b)], summed from the first component on. *)
Definition dot (a b : list float64) : float64 :=
  fold_left (fun s p => add s (mul (fst p) (snd p))) (combine a b) zero.

(** The Euclidean norm, as the square root of the sum of the squares. *)
Definition norm (a : list float64) : float64 :=
  sqrt (fold_left (fun s x => add s (mul x x)) a zero).

End Scorer.

(** ** The data model (main.go, lines 21-69) *)

(** A Go [error], by its message. *)
Definition error : Type := string.

(** A call that returns a value or an error. *)
Inductive result (A : Type) : Type :=
| Ok (a : A)
| Err (e : error).
Arguments Ok {A} a.
Arguments Err {A} e.

Module Model.
Import Float64.

Record Document : Type := {
  ID : string;
  Content : string;
  Page : Z;
  Vector : list float64
}.

Record VectorStore : Type := {
  Documents : list Document;
  ModelName : string
}.

Record OllamaResponse : Type := {
  Response : string;
  Done : bool
}.

Record EmbeddingResponse : Type := {
  Embeddings : list (list float64)
}.

Record RAGChatbot : Type := {
  vectorStore : VectorStore;
  ollamaBaseURL : string;
  embedModel : string;
  chatModel : string;
  dbPath : string
}.

(** The assignment [r.vectorStore.Documents = docs] and the like: the
    chatbot with the store it points to replaced. *)
Definition with_store (r : RAGChatbot) (vs : VectorStore) : RAGChatbot :=
  {| vectorStore := vs;
     ollamaBaseURL := ollamaBaseURL r;
     embedModel := embedModel r;
     chatModel := chatModel r;
     dbPath := dbPath r |}.

Definition with_Documents (r : RAGChatbot) (docs : list Document) : RAGChatbot :=
  with_store r {| Documents := docs; ModelName := ModelName (vectorStore r) |}.

Definition with_ModelName (r : RAGChatbot) (name : string) : RAGChatbot :=
  with_store r {| Documents := Documents (vectorStore r); ModelName := name |}.

(** [NewRAGChatbot] (main.go, lines 72-80). *)
Definition NewRAGChatbot : RAGChatbot :=
  {| vectorStore := {| Documents := []; ModelName := "" |};
     ollamaBaseURL := "http://localhost:11434";
     embedModel := "nomic-embed-text";
     chatModel := "";
     dbPath := "vectorstore.json" |}.

End Model.

Module EmbeddingRequest.
Record t : Type := { Model : string; Input : string }.
End EmbeddingRequest.

Module OllamaRequest3T.
Record t : Type := {
  Model : string;
  Prompt : string;
  Stream : bool;
  Temperature : Float64.float64;
  TopK : Z;
  TopP : Float64.float64
}.
End OllamaRequest3T.

(** The type local to [SearchSimilar] (main.go, lines 297-300). *)
Module ScoredDocument.
Record t : Type := { Document : Model.Document; Score : Float64.float64 }.
End ScoredDocument.

(** ** What the program takes from its libraries and from the machine *)

(** The Unicode categories named by the second pattern of [cleanText];
    the tables are those of Go's [unicode] package. *)
Class UnicodeTables : Type := {
  unicode_L : Z -> bool;
  unicode_N : Z -> bool;
  unicode_P : Z -> bool;
  unicode_Z : Z -> bool
}.

(** [sort.Slice].  It permutes the slice in place, whatever [less] is;
    the result is ordered when [less] is a strict weak ordering of the
    elements, which is what the package asks of it ("Less must describe a
    transitive ordering", both for [less] and for its negation).  Nothing
    is promised about the order of elements that compare equal. *)
Definition strict_weak_on {A : Type} (less : A -> A -> bool) (l : list A) : Prop :=
  (forall x, In x l -> less x x = false)
  /\ (forall x y z, In x l -> In y l -> In z l ->
        less x y = true -> less y z = true -> less x z = true)
  /\ (forall x y z, In x l -> In y l -> In z l ->
        less x y = false -> less y z = false -> less x z = false).

Class SliceSorter : Type := {
  sort_Slice : forall {A : Type}, (A -> A -> bool) -> list A -> list A;
  sort_Slice_permutes :
    forall (A : Type) (less : A -> A -> bool) (l : list A),
      Permutation l (sort_Slice less l);
  sort_Slice_orders :
    forall (A : Type) (less : A -> A -> bool) (l : list A),
      strict_weak_on less l ->
      StronglySorted (fun x y => less y x = false) (sort_Slice less l)
}.

(** *** JSON, as [encoding/json] reads and writes it *)

Module Json.
Import Float64.

(** A number literal, by what [strconv] makes of it: [as_float64] is the
    result of [ParseFloat(lit, 64)] and [as_int] that of
    [ParseInt(lit, 10, 64)], each [None] when the conversion fails (a value
    out of range; for [as_int] also a literal with a fraction or an
    exponent). *)
Record number : Type := {
  as_float64 : option float64;
  as_int : option Z
}.

#[local] Unset Elimination Schemes.
Inductive value : Type :=
| Null
| Bool (b : bool)
| Number (n : number)
| String_ (s : string)
| Array (elems : list value)
| Object (members : list (string * value)).
#[local] Set Elimination Schemes.

(** The content of a file for [encoding/json]: bytes that are no
    well-formed JSON text, or the text of a value.  White space and the
    spelling of numbers and of string escapes are not represented. *)
Inductive text : Type :=
| Malformed
| Text (v : value).

End Json.

(** *** The machine: files, the PDF reader and the Ollama service *)

Module Machine.
Import Model.

(** A page as [github.com/ledongthuc/pdf] gives it. *)
Inductive pdf_page : Type :=
| PageNull
| PageTextError (e : error)
| PageText (content : string).

Inductive request_body : Type :=
| EmbedBody (req : EmbeddingRequest.t)
| GenerateBody (req : OllamaRequest3T.t).

(** A call to the service, as it leaves the program. *)
Inductive http_call : Type :=
| Post (url : string) (body : request_body)
| Get (url : string).

(** What [http.Post] followed by decoding the body gives. *)
Inductive reply (A : Type) : Type :=
| PostError (e : error)
| DecodeError (e : error)
| Decoded (a : A).
Arguments PostError {A} e.
Arguments DecodeError {A} e.
Arguments Decoded {A} a.

(** The service answers a call knowing the calls made before it. *)
Record Service : Type := {
  embed : list http_call -> string -> EmbeddingRequest.t -> reply EmbeddingResponse;
  generate : list http_call -> string -> OllamaRequest3T.t -> reply OllamaResponse;
  tags : list http_call -> string -> result Z
}.

(** The state outside the program.  A file is seen through the library
    that reads it: [json_files] for the store, [text_files] for
    [os.ReadFile] of a source text, [pdf_files] for [pdf.Open]; a path
    missing from a view is a file that does not exist (or, for a PDF,
    cannot be opened).  [WriteFile] fails on the paths of [read_only].
    [calls] lists the calls made to the service, the latest last. *)
Record World : Type := {
  json_files : gmap string Json.text;
  text_files : gmap string string;
  pdf_files : gmap string (list pdf_page);
  read_only : gset string;
  service : Service;
  calls : list http_call
}.

Definition with_json_files (w : World) (fs : gmap string Json.text) : World :=
  {| json_files := fs; text_files := text_files w; pdf_files := pdf_files w;
     read_only := read_only w; service := service w; calls := calls w |}.

Definition with_calls (w : World) (cs : list http_call) : World :=
  {| json_files := json_files w; text_files := text_files w;
     pdf_files := pdf_files w; read_only := read_only w;
     service := service w; calls := cs |}.

(** A method of the program: from a state of the world to what the call
    does and the state it leaves. *)
Definition Go (A : Type) : Type := World -> outcome (A * World).

#[export] Instance Go_ret : MRet Go := fun A a w => Returns (a, w).

#[export] Instance Go_bind : MBind Go := fun A B f m w =>
  match m w with
  | Returns (a, w') => f a w'
  | Panics => Panics
  | Diverges => Diverges
  end.

(** A pure call that may panic or diverge, inside a method. *)
Definition lift {A : Type} (o : outcome A) : Go A := fun w =>
  match o with
  | Returns a => Returns (a, w)
  | Panics => Panics
  | Diverges => Diverges
  end.

(** [for _, x := range xs { acc = body(acc, x) }]. *)
Fixpoint for_range {A S : Type} (xs : list A) (body : S -> A -> Go S) (acc : S)
  : Go S :=
  match xs with
  | [] => mret acc
  | x :: xs' => acc' ← body acc x; for_range xs' body acc'
  end.

(** [http.Post] to the embedding endpoint, and the decoding of its body. *)
Definition post_embed (url : string) (req : EmbeddingRequest.t)
  : Go (reply EmbeddingResponse) := fun w =>
  Returns (embed (service w) (calls w) url req,
           with_calls w (calls w ++ [Post url (EmbedBody req)])).

Definition post_generate (url : string) (req : OllamaRequest3T.t)
  : Go (reply OllamaResponse) := fun w =>
  Returns (generate (service w) (calls w) url req,
           with_calls w (calls w ++ [Post url (GenerateBody req)])).

(** [http.Get] of the tags endpoint: the status code, or the error. *)
Definition get_tags (url : string) : Go (result Z) := fun w =>
  Returns (tags (service w) (calls w) url,
           with_calls w (calls w ++ [Get url])).

(** [pdf.Open] and the pages of the reader. *)
Definition pdf_Open (filename : string) : Go (result (list pdf_page)) := fun w =>
  Returns (match pdf_files w !! filename with
           | Some pages => Ok pages
           | None => Err ("open " +:+ filename)
           end, w).

(** [os.ReadFile] of a source text. *)
Definition os_ReadFile_text (filename : string) : Go (result string) := fun w =>
  Returns (match text_files w !! filename with
           | Some content => Ok content
           | None => Err ("open " +:+ filename +:+ ": no such file or directory")
           end, w).

(** [os.Stat] followed by [os.IsNotExist]. *)
Definition os_Stat_IsNotExist (path : string) : Go bool := fun w =>
  Returns (bool_decide (json_files w !! path = None), w).

(** [os.ReadFile] of the store. *)
Definition os_ReadFile_json (path : string) : Go (result Json.text) := fun w =>
  Returns (match json_files w !! path with
           | Some data => Ok data
           | None => Err ("open " +:+ path +:+ ": no such file or directory")
           end, w).

(** [os.WriteFile].  The only failure represented is that of opening the
    file, which leaves it as it was; a write that fails after the file has
    been opened, and leaves it truncated, is not. *)
Definition os_WriteFile (path : string) (data : Json.text) : Go (option error) :=
  fun w =>
    if bool_decide (path ∈ read_only w)
    then Returns (Some ("open " +:+ path +:+ ": permission denied"), w)
    else Returns (None, with_json_files w (<[path := data]> (json_files w))).

End Machine.

(** ** Retrieval and answering *)

Module Retrieval.
Import Float64 Scorer Model Machine.

(** A line feed. *)
Definition nl : string := String (ascii_of_nat 10) EmptyString.

(** [(r *RAGChatbot) GetEmbedding] (main.go, lines 155-182).
    [json.Marshal] of a request made of two strings does not fail. *)
Definition GetEmbedding (r : RAGChatbot) (text : string)
  : Go (result (list float64)) :=
  let reqBody := {| EmbeddingRequest.Model := embedModel r;
                    EmbeddingRequest.Input := text |} in
  resp ← post_embed (ollamaBaseURL r +:+ "/api/embed") reqBody;
  match resp with
  | PostError err => mret (Err ("errore chiamata Ollama embed: " +:+ err))
  | DecodeError err => mret (Err err)
  | Decoded embedResp =>
      match Embeddings embedResp with
      | [] => mret (Err "nessun embedding ricevuto")
      | first :: _ => mret (Ok first)
      end
  end.

(** The scoring loop of [SearchSimilar] (main.go, lines 304-310). *)
Definition score_documents (queryVector : list float64) (docs : list Document)
  : Go (list ScoredDocument.t) :=
  for_range docs
    (fun scoredDocs doc =>
       similarity ← lift (cosineSimilarity queryVector (Vector doc));
       mret (scoredDocs ++ [{| ScoredDocument.Document := doc;
                               ScoredDocument.Score := similarity |}]))
    [].

(** The comparison handed to [sort.Slice] (main.go, line 314):
    [scoredDocs[i].Score > scoredDocs[j].Score]. *)
Definition by_score_descending (x y : ScoredDocument.t) : bool :=
  ltb (ScoredDocument.Score y) (ScoredDocument.Score x).

(** [(r *RAGChatbot) SearchSimilar] (main.go, lines 291-328).  The last
    loop copies [scoredDocs[0]] to [scoredDocs[topK-1]], and copies nothing
    when [topK] is not positive. *)
Definition SearchSimilar `{SliceSorter} (r : RAGChatbot) (query : string) (topK : Z)
  : Go (result (list Document)) :=
  embedded ← GetEmbedding r query;
  match embedded with
  | Err err => mret (Err err)
  | Ok queryVector =>
      scoredDocs ← score_documents queryVector (Documents (vectorStore r));
      let scoredDocs := sort_Slice by_score_descending scoredDocs in
      let topK := if topK >? Z.of_nat (length scoredDocs)
                  then Z.of_nat (length scoredDocs) else topK in
      let results := map ScoredDocument.Document (firstn (Z.to_nat topK) scoredDocs) in
      mret (Ok results)
  end.

(** The three-place float constants of the request. *)
Definition temperature_0_2 : float64 := div (of_Z 2) (of_Z 10).
Definition top_p_0_9 : float64 := div (of_Z 9) (of_Z 10).

(** The context that [GenerateResponse] builds from the retrieved
    documents (main.go, lines 333-338); [i] is the index of the first. *)
Fixpoint context_sections (i : Z) (context : list Document) : string :=
  match context with
  | [] => ""
  | doc :: rest =>
      "Sezione " +:+ pretty (GoInt.add i 1) +:+ " (Pagina " +:+ pretty (Page doc)
      +:+ "):" +:+ nl +:+ Content doc +:+ nl +:+ nl
      +:+ context_sections (GoInt.add i 1) rest
  end.

Definition contextText (context : list Document) : string :=
  "Contesto dal documento:" +:+ nl +:+ nl +:+ context_sections 0 context.

(** The prompt (main.go, lines 341-354). *)
Definition prompt_of (question : string) (context : list Document) : string :=
  "Sei un assistente che risponde a domande basandoti esclusivamente sul documento fornito."
  +:+ nl +:+ nl +:+ contextText context +:+ nl +:+ nl
  +:+ "Domanda: " +:+ question +:+ nl +:+ nl
  +:+ "Istruzioni:" +:+ nl
  +:+ "- Rispondi SOLO in italiano" +:+ nl
  +:+ "- Usa ESCLUSIVAMENTE le informazioni del contesto fornito" +:+ nl
  +:+ "- Se la risposta non è presente nel documento, dillo chiaramente" +:+ nl
  +:+ "- Sii preciso e dettagliato" +:+ nl
  +:+ "- Cita la pagina quando possibile" +:+ nl +:+ nl
  +:+ "Risposta:".

(** [(r *RAGChatbot) GenerateResponse] (main.go, lines 331-389).
    [json.Marshal] of the request does not fail: its two floats are
    finite constants. *)
Definition GenerateResponse (r : RAGChatbot) (question : string)
    (context : list Document) : Go (result string) :=
  let reqBody := {| OllamaRequest3T.Model := chatModel r;
                    OllamaRequest3T.Prompt := prompt_of question context;
                    OllamaRequest3T.Stream := false;
                    OllamaRequest3T.Temperature := temperature_0_2;
                    OllamaRequest3T.TopK := 40;
                    OllamaRequest3T.TopP := top_p_0_9 |} in
  resp ← post_generate (ollamaBaseURL r +:+ "/api/generate") reqBody;
  match resp with
  | PostError err => mret (Err ("errore chiamata Ollama: " +:+ err))
  | DecodeError err => mret (Err err)
  | Decoded response => mret (Ok (Response response))
  end.

(** [(r *RAGChatbot) Chat] (main.go, lines 392-410): the answer, the
    sources and the error. *)
Definition Chat `{SliceSorter} (r : RAGChatbot) (question : string)
  : Go (string * list Document * option error) :=
  if (Z.of_nat (length (Documents (vectorStore r))) =? 0)
  then mret ("Per favore, carica prima un documento PDF.", [], None)
  else
    found ← SearchSimilar r question 4;
    match found with
    | Err err => mret ("", [], Some err)
    | Ok similarDocs =>
        generated ← GenerateResponse r question similarDocs;
        match generated with
        | Err err => mret ("", [], Some err)
        | Ok answer => mret (answer, similarDocs, None)
        end
    end.

(** [(r *RAGChatbot) CheckOllamaAvailable] (main.go, lines 413-425). *)
Definition CheckOllamaAvailable (r : RAGChatbot) : Go (option error) :=
  resp ← get_tags (ollamaBaseURL r +:+ "/api/tags");
  match resp with
  | Err err =>
      mret (Some ("Ollama non disponibile su " +:+ ollamaBaseURL r +:+ ": " +:+ err))
  | Ok StatusCode =>
      if negb (StatusCode =? 200)
      then mret (Some ("Ollama risponde con status: " +:+ pretty StatusCode))
      else mret None
  end.

End Retrieval.

(** ** Go's sort on short slices *)

(** [insertionSort_func] of package [sort]: what [sort.Slice] runs on a
    short slice (of at most twelve elements since Go 1.19, of at most six
    in the releases before).  The prefix already ordered is kept
    reversed, its last element first: the new element is swapped towards
    the front while it is less than its left neighbour. *)
Module InsertionSort.

Fixpoint sink {A : Type} (less : A -> A -> bool) (x : A) (before : list A)
  : list A :=
  match before with
  | [] => [x]
  | y :: before' =>
      if less x y then y :: sink less x before' else x :: before
  end.

Definition insertionSort_func {A : Type} (less : A -> A -> bool) (data : list A)
  : list A :=
  rev (fold_left (fun before x => sink less x before) data []).

End InsertionSort.

(** ** Text cleanup (main.go, lines 118-128) *)

Module Cleanup.
Import GoStrings.

(** [regexp.ReplaceAllString] with the replacement [" "] for a pattern
    [[class]+]: each maximal run of runes of the class becomes one space.
    The input is read rune by rune, a byte that starts no valid encoding
    as [RuneError]. *)
Fixpoint replace_runs (class : Z -> bool) (rs : list (Z * string)) (in_run : bool)
  : string :=
  match rs with
  | [] => ""
  | (r, bs) :: rs' =>
      if class r
      then (if in_run then "" else " ") +:+ replace_runs class rs' true
      else bs +:+ replace_runs class rs' false
  end.

Definition ReplaceAllString_space (class : Z -> bool) (text : string) : string :=
  replace_runs class (runes text) false.

(** The class [\s] of the first pattern: TAB, LF, FF, CR and SPACE. *)
Definition perl_space (r : Z) : bool :=
  (r =? 0x09) || (r =? 0x0A) || (r =? 0x0C) || (r =? 0x0D) || (r =? 0x20).

(** The class of the second pattern: neither a letter, nor a number, nor
    punctuation, nor a separator. *)
Definition not_printable `{UnicodeTables} (r : Z) : bool :=
  negb (unicode_L r || unicode_N r || unicode_P r || unicode_Z r).

(** [(r *RAGChatbot) cleanText]; the receiver is not used. *)
Definition cleanText `{UnicodeTables} (text : string) : string :=
  let text := ReplaceAllString_space perl_space text in
  let text := ReplaceAllString_space not_printable text in
  TrimSpace text.

End Cleanup.

(** ** The store on disk *)

Module Codec.
Import GoStrings Float64 Model Json.

(** The encoding of U+FFFD. *)
Definition replacement : string :=
  String (ascii_of_nat 239) (String (ascii_of_nat 191) (String (ascii_of_nat 189) "")).

(** A string as the encoder writes it and the decoder reads it back: each
    byte that starts no valid encoding becomes U+FFFD. *)
Definition coerce_utf8 (s : string) : string :=
  bytes_of (map (fun rb : Z * string =>
                   if (fst rb =? RuneError) && (String.length (snd rb) =? 1)%nat
                   then (fst rb, replacement) else rb)
                (runes s)).

(** The integer a number is, when it is one. *)
Definition exact_int (f : float64) : option Z :=
  match f with
  | S754_zero _ => Some 0
  | S754_finite s m e =>
      let magnitude :=
        if 0 <=? e then Some (Z.pos m * 2 ^ e)
        else if Z.pos m mod 2 ^ (- e) =? 0 then Some (Z.pos m / 2 ^ (- e))
        else None in
      option_map (fun z => if s then - z else z) magnitude
  | _ => None
  end.

Definition in_int64 (z : Z) : bool := (GoInt.min_int <=? z) && (z <=? GoInt.max_int).

(** The literal written for a finite [float64]: the shortest decimal that
    reads back as the same number, without fraction or exponent when the
    number is an integer below [1e21]. *)
Definition number_of_float (f : float64) : number :=
  {| as_float64 := Some f;
     as_int := match exact_int f with
               | Some z => if in_int64 z then Some z else None
               | None => None
               end |}.

(** The literal written for an [int]. *)
Definition number_of_int (z : Z) : number :=
  {| as_float64 := Some (of_Z z); as_int := Some z |}.

(** *** [json.MarshalIndent] of the store *)

Definition encode_float (f : float64) : result value :=
  match f with
  | S754_nan => Err "json: unsupported value: NaN"
  | S754_infinity false => Err "json: unsupported value: +Inf"
  | S754_infinity true => Err "json: unsupported value: -Inf"
  | _ => Ok (Number (number_of_float f))
  end.

Fixpoint encode_all {A : Type} (encode : A -> result value) (xs : list A)
  : result (list value) :=
  match xs with
  | [] => Ok []
  | x :: xs' =>
      match encode x with
      | Err e => Err e
      | Ok v =>
          match encode_all encode xs' with
          | Err e => Err e
          | Ok vs => Ok (v :: vs)
          end
      end
  end.

Definition encode_Document (d : Document) : result value :=
  match encode_all encode_float (Vector d) with
  | Err e => Err e
  | Ok vector =>
      Ok (Object [("id", String_ (coerce_utf8 (ID d)));
                  ("content", String_ (coerce_utf8 (Content d)));
                  ("page", Number (number_of_int (Page d)));
                  ("vector", Array vector)])
  end.

Definition MarshalIndent (vs : VectorStore) : result text :=
  match encode_all encode_Document (Documents vs) with
  | Err e => Err e
  | Ok documents =>
      Ok (Text (Object [("documents", Array documents);
                        ("model_name", String_ (coerce_utf8 (ModelName vs)))]))
  end.

(** *** [json.Unmarshal] into the store

    A value that does not fit its target leaves the target as it is; the
    first such mismatch is remembered and returned at the end, and
    decoding goes on with what follows. *)

Definition kind (v : value) : string :=
  match v with
  | Null => "null"
  | Bool _ => "bool"
  | Number _ => "number"
  | String_ _ => "string"
  | Array _ => "array"
  | Object _ => "object"
  end.

(** The error of a value that does not fit its target.  [field] is where
    the decoder stands: the struct it is in and the names of the fields from
    the root to the value, or the empty string outside any struct.  (For a
    number out of the range of its target the library also quotes the
    literal, which is not kept here.) *)
Definition type_error (field : string) (v : value) (go_type : string) : option error :=
  Some ("json: cannot unmarshal " +:+ kind v +:+
        (if String.eqb field ""
         then " into Go value of type "
         else " into Go struct field " +:+ field +:+ " of type ") +:+ go_type).

Definition first_error (e1 e2 : option error) : option error :=
  match e1 with
  | Some _ => e1
  | None => e2
  end.

Definition decode_string (field : string) (target : string) (v : value)
  : string * option error :=
  match v with
  | String_ s => (s, None)
  | Null => (target, None)
  | _ => (target, type_error field v "string")
  end.

Definition decode_int (field : string) (target : Z) (v : value) : Z * option error :=
  match v with
  | Number n =>
      match as_int n with
      | Some z => (z, None)
      | None => (target, type_error field v "int")
      end
  | Null => (target, None)
  | _ => (target, type_error field v "int")
  end.

Definition decode_float64 (field : string) (target : float64) (v : value)
  : float64 * option error :=
  match v with
  | Number n =>
      match as_float64 n with
      | Some f => (f, None)
      | None => (target, type_error field v "float64")
      end
  | Null => (target, None)
  | _ => (target, type_error field v "float64")
  end.

(** The elements of an array, each decoded into the element the slice
    already has at that index, or into a zero value past its length (the
    slice is taken to have no capacity beyond its length). *)
Fixpoint decode_elems {A : Type} (decode : A -> value -> A * option error)
    (zero : A) (target : list A) (elems : list value) : list A * option error :=
  match elems with
  | [] => ([], None)
  | v :: elems' =>
      let '(old, target') := match target with
                             | [] => (zero, [])
                             | t :: ts => (t, ts)
                             end in
      let '(x, e1) := decode old v in
      let '(xs, e2) := decode_elems decode zero target' elems' in
      (x :: xs, first_error e1 e2)
  end.

Definition decode_slice {A : Type} (decode : A -> value -> A * option error)
    (zero : A) (field go_type : string) (target : list A) (v : value)
  : list A * option error :=
  match v with
  | Array elems => decode_elems decode zero target elems
  | Null => ([], None)
  | _ => (target, type_error field v go_type)
  end.

(** A key up to case, as [bytes.EqualFold] compares it with a field name
    in ASCII: the capitals in lower case, and the two letters beyond ASCII
    that fold to one of them, U+017F to [s] and U+212A to [k]. *)
Definition fold_rune (rb : Z * string) : Z * string :=
  let r := fst rb in
  if (0x41 <=? r) && (r <=? 0x5A)
  then (r + 32, String (ascii_of_nat (Z.to_nat (r + 32))) "")
  else if r =? 0x17F then (0x73, "s")
  else if r =? 0x212A then (0x6B, "k")
  else rb.

Definition fold_key (key : string) : string := bytes_of (map fold_rune (runes key)).

Definition key_is (name key : string) : bool := String.eqb (fold_key key) name.

Definition zero_Document : Document :=
  {| ID := ""; Content := ""; Page := 0; Vector := [] |}.

Definition decode_Document_member (acc : Document * option error)
    (member : string * value) : Document * option error :=
  let '(d, e) := acc in
  let '(key, v) := member in
  if key_is "id" key then
    let '(x, e') := decode_string "Document.documents.id" (ID d) v in
    ({| ID := x; Content := Content d; Page := Page d; Vector := Vector d |},
     first_error e e')
  else if key_is "content" key then
    let '(x, e') := decode_string "Document.documents.content" (Content d) v in
    ({| ID := ID d; Content := x; Page := Page d; Vector := Vector d |},
     first_error e e')
  else if key_is "page" key then
    let '(x, e') := decode_int "Document.documents.page" (Page d) v in
    ({| ID := ID d; Content := Content d; Page := x; Vector := Vector d |},
     first_error e e')
  else if key_is "vector" key then
    let '(x, e') := decode_slice (decode_float64 "Document.documents.vector") zero
                      "Document.documents.vector" "[]float64" (Vector d) v in
    ({| ID := ID d; Content := Content d; Page := Page d; Vector := x |},
     first_error e e')
  else acc.

Definition decode_Document (target : Document) (v : value) : Document * option error :=
  match v with
  | Object members => fold_left decode_Document_member members (target, None)
  | Null => (target, None)
  | _ => (target, type_error "VectorStore.documents" v "main.Document")
  end.

Definition decode_VectorStore_member (acc : VectorStore * option error)
    (member : string * value) : VectorStore * option error :=
  let '(vs, e) := acc in
  let '(key, v) := member in
  if key_is "documents" key then
    let '(x, e') := decode_slice decode_Document zero_Document
                      "VectorStore.documents" "[]main.Document" (Documents vs) v in
    ({| Documents := x; ModelName := ModelName vs |}, first_error e e')
  else if key_is "model_name" key then
    let '(x, e') := decode_string "VectorStore.model_name" (ModelName vs) v in
    ({| Documents := Documents vs; ModelName := x |}, first_error e e')
  else acc.

Definition decode_VectorStore (target : VectorStore) (v : value)
  : VectorStore * option error :=
  match v with
  | Object members => fold_left decode_VectorStore_member members (target, None)
  | Null => (target, None)
  | _ => (target, type_error "" v "main.VectorStore")
  end.

(** [json.Unmarshal(data, r.vectorStore)]: the store after the call and
    the error.  Text that is not well-formed is refused before anything is
    stored. *)
Definition Unmarshal (data : text) (target : VectorStore)
  : VectorStore * option error :=
  match data with
  | Malformed => (target, Some "invalid character looking for beginning of value")
  | Text v => decode_VectorStore target v
  end.

End Codec.

(** ** [crypto/md5] *)

(** The MD5 digest of RFC 1321, on 32-bit words kept in [0 .. 2^32). *)
Module MD5.

Definition mask32 (x : Z) : Z := x mod 2 ^ 32.

Definition rotl (x c : Z) : Z :=
  mask32 (Z.lor (Z.shiftl x c) (Z.shiftr x (32 - c))).

Definition not32 (x : Z) : Z := Z.lxor x 0xFFFFFFFF.

Definition shifts : list Z :=
  [7; 12; 17; 22; 7; 12; 17; 22; 7; 12; 17; 22; 7; 12; 17; 22;
   5; 9; 14; 20; 5; 9; 14; 20; 5; 9; 14; 20; 5; 9; 14; 20;
   4; 11; 16; 23; 4; 11; 16; 23; 4; 11; 16; 23; 4; 11; 16; 23;
   6; 10; 15; 21; 6; 10; 15; 21; 6; 10; 15; 21; 6; 10; 15; 21].

Definition sines : list Z :=
  [0xd76aa478; 0xe8c7b756; 0x242070db; 0xc1bdceee;
   0xf57c0faf; 0x4787c62a; 0xa8304613; 0xfd469501;
   0x698098d8; 0x8b44f7af; 0xffff5bb1; 0x895cd7be;
   0x6b901122; 0xfd987193; 0xa679438e; 0x49b40821;
   0xf61e2562; 0xc040b340; 0x265e5a51; 0xe9b6c7aa;
   0xd62f105d; 0x02441453; 0xd8a1e681; 0xe7d3fbc8;
   0x21e1cde6; 0xc33707d6; 0xf4d50d87; 0x455a14ed;
   0xa9e3e905; 0xfcefa3f8; 0x676f02d9; 0x8d2a4c8a;
   0xfffa3942; 0x8771f681; 0x6d9d6122; 0xfde5380c;
   0xa4beea44; 0x4bdecfa9; 0xf6bb4b60; 0xbebfbc70;
   0x289b7ec6; 0xeaa127fa; 0xd4ef3085; 0x04881d05;
   0xd9d4d039; 0xe6db99e5; 0x1fa27cf8; 0xc4ac5665;
   0xf4292244; 0x432aff97; 0xab9423a7; 0xfc93a039;
   0x655b59c3; 0x8f0ccc92; 0xffeff47d; 0x85845dd1;
   0x6fa87e4f; 0xfe2ce6e0; 0xa3014314; 0x4e0811a1;
   0xf7537e82; 0xbd3af235; 0x2ad7d2bb; 0xeb86d391].

(** A number as [n] bytes, the least significant first. *)
Fixpoint little_endian (n : nat) (x : Z) : list Z :=
  match n with
  | O => []
  | S n' => x mod 256 :: little_endian n' (x / 256)
  end.

Fixpoint of_little_endian (bs : list Z) : Z :=
  match bs with
  | [] => 0
  | b :: bs' => b + 256 * of_little_endian bs'
  end.

(** The message followed by the bit [1], zeros up to 56 modulo 64, and
    its length in bits on eight bytes. *)
Definition pad (msg : list Z) : list Z :=
  let n := Z.of_nat (length msg) in
  msg ++ [0x80] ++ repeat 0 (Z.to_nat ((55 - n) mod 64))
      ++ little_endian 8 ((8 * n) mod 2 ^ 64).

(** The blocks of [size] elements of a list. *)
Fixpoint blocks {A : Type} (fuel size : nat) (l : list A) : list (list A) :=
  match fuel, l with
  | O, _ | _, [] => []
  | S fuel', _ => firstn size l :: blocks fuel' size (skipn size l)
  end.

Definition step (M : list Z) (state : Z * Z * Z * Z) (i : nat) : Z * Z * Z * Z :=
  let '(a, b, c, d) := state in
  let iz := Z.of_nat i in
  let '(f, g) :=
    if iz <? 16 then (Z.lor (Z.land b c) (Z.land (not32 b) d), iz)
    else if iz <? 32 then (Z.lor (Z.land d b) (Z.land (not32 d) c), (5 * iz + 1) mod 16)
    else if iz <? 48 then (Z.lxor (Z.lxor b c) d, (3 * iz + 5) mod 16)
    else (Z.lxor c (Z.lor b (not32 d)), (7 * iz) mod 16) in
  let f := mask32 (f + a + nth i sines 0 + nth (Z.to_nat g) M 0) in
  (d, mask32 (b + rotl f (nth i shifts 0)), b, c).

Definition compress (state : Z * Z * Z * Z) (block : list Z) : Z * Z * Z * Z :=
  let M := map of_little_endian (blocks 16 4 block) in
  let '(a0, b0, c0, d0) := state in
  let '(a, b, c, d) := fold_left (step M) (seq 0 64) state in
  (mask32 (a0 + a), mask32 (b0 + b), mask32 (c0 + c), mask32 (d0 + d)).

Definition bytes_of_string (s : string) : list Z :=
  map GoStrings.byte (list_ascii_of_string s).

Definition string_of_bytes (bs : list Z) : string :=
  string_of_list_ascii (map (fun b => ascii_of_nat (Z.to_nat b)) bs).

(** [md5.Sum]: the sixteen bytes of the digest. *)
Definition Sum (data : string) : string :=
  let padded := pad (bytes_of_string data) in
  let '(a, b, c, d) :=
    fold_left compress (blocks (length padded) 64 padded)
      (0x67452301, 0xefcdab89, 0x98badcfe, 0x10325476) in
  string_of_bytes (little_endian 4 a ++ little_endian 4 b
                   ++ little_endian 4 c ++ little_endian 4 d).

End MD5.

(** ** Persistence and ingestion *)

Module Ingestion.
Import GoStrings Chunker Float64 Model Machine Retrieval Cleanup.

(** [(r *RAGChatbot) SaveVectorStore] (main.go, lines 267-274). *)
Definition SaveVectorStore (r : RAGChatbot) : Go (option error) :=
  match Codec.MarshalIndent (vectorStore r) with
  | Err err => mret (Some err)
  | Ok data => os_WriteFile (dbPath r) data
  end.

(** [(r *RAGChatbot) LoadVectorStore] (main.go, lines 277-288): the
    chatbot, whose store [json.Unmarshal] has written into, and the
    error. *)
Definition LoadVectorStore (r : RAGChatbot) : Go (RAGChatbot * option error) :=
  missing ← os_Stat_IsNotExist (dbPath r);
  if (missing : bool) then mret (r, Some "database non esistente")
  else
    read ← os_ReadFile_json (dbPath r);
    match read with
    | Err err => mret (r, Some err)
    | Ok data =>
        let '(vs, err) := Codec.Unmarshal data (vectorStore r) in
        mret (with_store r vs, err)
    end.

(** The loop of [ExtractTextFromPDF] (main.go, lines 95-112), over the
    pages of the reader in order. *)
Fixpoint extract_pages `{UnicodeTables} (reader : list pdf_page) (pages : list string)
  : list string :=
  match reader with
  | [] => pages
  | PageNull :: reader' => extract_pages reader' pages
  | PageTextError _ :: reader' => extract_pages reader' pages
  | PageText content :: reader' =>
      let cleanContent := cleanText content in
      if len cleanContent >? 50
      then extract_pages reader' (pages ++ [cleanContent])
      else extract_pages reader' pages
  end.

(** [(r *RAGChatbot) ExtractTextFromPDF] (main.go, lines 83-115). *)
Definition ExtractTextFromPDF `{UnicodeTables} (r : RAGChatbot) (filename : string)
  : Go (result (list string)) :=
  opened ← pdf_Open filename;
  match opened with
  | Err err => mret (Err ("errore apertura PDF: " +:+ err))
  | Ok reader => mret (Ok (extract_pages reader []))
  end.

(** [for i, x := range xs]: the elements with their indices from [i]. *)
Fixpoint enumerate_from {A : Type} (i : Z) (xs : list A) : list (Z * A) :=
  match xs with
  | [] => []
  | x :: xs' => (i, x) :: enumerate_from (GoInt.add i 1) xs'
  end.

Definition hex_digit (n : Z) : ascii :=
  ascii_of_nat (Z.to_nat (if n <? 10 then 48 + n else 87 + n)).

(** The verb [%x] on a byte slice: two lower-case digits per byte. *)
Fixpoint hex (bs : string) : string :=
  match bs with
  | EmptyString => EmptyString
  | String c bs' =>
      String (hex_digit (byte c / 16)) (String (hex_digit (byte c mod 16)) (hex bs'))
  end.

(** [hasher.Sum(nil)[:4]], in hexadecimal. *)
Definition fingerprint (chunk : string) : string :=
  hex (substring 0 4 (MD5.Sum chunk)).

(** The body of the loop over the chunks, the same in [ProcessPDF]
    (main.go, lines 226-257) and in [ProcessTXT] (lines 458-490) up to the
    identifier and the page: the chatbot after one chunk.  The counter of
    [ProcessPDF], which only feeds the progress messages, the messages and
    the pause between two requests are not represented. *)
Definition ingest_chunk (docID : string) (page : Z) (chunk : string)
    (r : RAGChatbot) : Go RAGChatbot :=
  if len (TrimSpace chunk) <? 20 then mret r
  else
    embedded ← GetEmbedding r chunk;
    match embedded with
    | Err _ => mret r
    | Ok vector =>
        let doc := {| ID := docID; Content := chunk; Page := page; Vector := vector |} in
        mret (with_Documents r (Documents (vectorStore r) ++ [doc]))
    end.

(** The body of the loop over the pages of [ProcessPDF] (main.go, lines
    222-258). *)
Definition ingest_page (r : RAGChatbot) (page : Z * string)
  : Go RAGChatbot :=
  let '(pageNum, pageText) := page in
  chunks ← lift (ChunkText pageText 300 50);
  for_range (enumerate_from 0 chunks)
    (fun r '(chunkIdx, chunk) =>
       let docID := "page_" +:+ pretty (GoInt.add pageNum 1) +:+ "_chunk_"
                    +:+ pretty chunkIdx +:+ "_" +:+ fingerprint chunk in
       ingest_chunk docID (GoInt.add pageNum 1) chunk r)
    r.

(** [(r *RAGChatbot) ProcessPDF] (main.go, lines 208-264): the chatbot
    after the call and the error. *)
Definition ProcessPDF `{UnicodeTables} (r : RAGChatbot) (filename : string)
  : Go (RAGChatbot * option error) :=
  extracted ← ExtractTextFromPDF r filename;
  match extracted with
  | Err err => mret (r, Some err)
  | Ok pages =>
      let r := with_Documents r [] in
      r ← for_range (enumerate_from 0 pages) ingest_page r;
      let r := with_ModelName r (embedModel r) in
      err ← SaveVectorStore r;
      mret (r, err)
  end.

(** [(r *RAGChatbot) ProcessTXT] (main.go, lines 428-496). *)
Definition ProcessTXT `{UnicodeTables} (r : RAGChatbot) (filename : string)
  : Go (RAGChatbot * option error) :=
  read ← os_ReadFile_text filename;
  match read with
  | Err err => mret (r, Some ("errore lettura file TXT: " +:+ err))
  | Ok text =>
      let cleanedText := cleanText text in
      if len (TrimSpace cleanedText) <? 50
      then mret (r, Some "file TXT troppo corto o vuoto")
      else
        let r := with_Documents r [] in
        chunks ← lift (ChunkText cleanedText 300 50);
        r ← for_range (enumerate_from 0 chunks)
              (fun r '(chunkIdx, chunk) =>
                 let docID := "txt_chunk_" +:+ pretty chunkIdx +:+ "_"
                              +:+ fingerprint chunk in
                 ingest_chunk docID 1 chunk r)
              r;
        let r := with_ModelName r (embedModel r) in
        err ← SaveVectorStore r;
        mret (r, err)
  end.

(** The start of [main] (main.go, lines 499-517), up to the menu:
    [None] when [log.Fatal] ends the process, and otherwise the chatbot
    the menu runs with.  What is printed is not represented. *)
Definition main_startup : Go (option RAGChatbot) :=
  let chatbot := NewRAGChatbot in
  unavailable ← CheckOllamaAvailable chatbot;
  match unavailable with
  | Some _ => mret None
  | None =>
      loaded ← LoadVectorStore chatbot;
      mret (Some (fst loaded))
  end.

End Ingestion.

(** ** The menu of [main] (main.go, lines 519-622) *)

Module Menu.
Import GoStrings Float64 Model Machine Retrieval Ingestion.

(** [reader.ReadString('\n')] on what is left of the standard input: the
    bytes up to the first line feed, that one included, or all the bytes
    left when there is none, and what is left after them.  The error that
    comes with a line cut short by the end of the input is dropped by the
    program. *)
Fixpoint ReadString_nl (stdin : string) : string * string :=
  match stdin with
  | EmptyString => (EmptyString, EmptyString)
  | String c rest =>
      if byte c =? 0x0A then (String c EmptyString, rest)
      else let '(line, rest') := ReadString_nl rest in (String c line, rest')
  end.

(** [os.Stat] followed by [os.IsNotExist], on the path that the user
    typed: a file exists when one of the views of the world has it. *)
Definition os_Stat_IsNotExist_typed (path : string) : Go bool := fun w =>
  Returns (bool_decide (json_files w !! path = None
                        /\ text_files w !! path = None
                        /\ pdf_files w !! path = None), w).

(** What option 3 computes on a store with documents (main.go, lines
    603-612): the map from the pages to the number of their chunks and the
    sum of the lengths of the contents, in one loop; it prints the size of
    the map, the sum, and the mean length of a content. *)
Definition count_step (acc : gmap Z Z * Z) (doc : Document) : gmap Z Z * Z :=
  let '(pageCount, totalChars) := acc in
  (<[Page doc := GoInt.add (default 0 (pageCount !! Page doc)) 1]> pageCount,
   GoInt.add totalChars (len (Content doc))).

Record statistics : Type := {
  pages : Z;
  chars : Z;
  mean : float64
}.

Definition database_statistics (docs : list Document) : option statistics :=
  if Z.of_nat (length docs) >? 0 then
    let '(pageCount, totalChars) := fold_left count_step docs (∅, 0) in
    Some {| pages := Z.of_nat (size pageCount);
            chars := totalChars;
            mean := div (of_Z totalChars) (of_Z (Z.of_nat (length docs))) |}
  else None.

(** What a turn of the loop leaves: the chatbot and the input for the
    next turn, or the end of [main]. *)
Inductive turn : Type :=
| Continue (chatbot : RAGChatbot) (stdin : string)
| Return.

(** One turn of the loop (main.go, lines 522-621): a [continue], the end
    of the [switch] and the [return] of option 4. *)
Definition menu_turn `{UnicodeTables} `{SliceSorter} (chatbot : RAGChatbot)
    (stdin : string) : Go turn :=
  let '(choice, stdin) := ReadString_nl stdin in
  let choice := TrimSpace choice in
  if String.eqb choice "1" then
    let '(pdfPath, stdin) := ReadString_nl stdin in
    let pdfPath := TrimSpace pdfPath in
    missing ← os_Stat_IsNotExist_typed pdfPath;
    if (missing : bool) then mret (Continue chatbot stdin)
    else
      processed ← ProcessPDF chatbot pdfPath;
      mret (Continue (fst processed) stdin)
  else if String.eqb choice "2" then
    if Z.of_nat (length (Documents (vectorStore chatbot))) =? 0
    then mret (Continue chatbot stdin)
    else
      let '(question, stdin) := ReadString_nl stdin in
      let question := TrimSpace question in
      if String.eqb question "" then mret (Continue chatbot stdin)
      else
        answered ← Chat chatbot question;
        mret (Continue chatbot stdin)
  else if String.eqb choice "3" then mret (Continue chatbot stdin)
  else if String.eqb choice "4" then mret Return
  else mret (Continue chatbot stdin).

(** The loop, with a bound on the number of its turns. *)
Fixpoint menu `{UnicodeTables} `{SliceSorter} (fuel : nat) (chatbot : RAGChatbot)
    (stdin : string) : Go unit :=
  match fuel with
  | O => fun _ => Diverges
  | S fuel' =>
      next ← menu_turn chatbot stdin;
      match next with
      | Return => mret tt
      | Continue chatbot stdin => menu fuel' chatbot stdin
      end
  end.

(** [main] (main.go, lines 498-623) on a standard input, with the status
    the process ends with: 1 after [log.Fatal], 0 after the [return] of
    option 4. *)
Definition main_fuel `{UnicodeTables} `{SliceSorter} (fuel : nat) (stdin : string)
  : Go Z :=
  started ← main_startup;
  match started with
  | None => mret 1
  | Some chatbot => done ← menu fuel chatbot stdin; mret 0
  end.

(** A turn that does not return takes at least one byte from an input
    that has one, so that one turn more than the input has bytes decide
    the loop ([menu_decided] below). *)
Definition main `{UnicodeTables} `{SliceSorter} (stdin : string) : Go Z :=
  main_fuel (S (String.length stdin)) stdin.

End Menu.

(** * Part II: the words of the specification, and sample data *)

Module Spec.
Import GoInt GoStrings Chunker Float64 Scorer Model Machine Retrieval.
Import Cleanup Ingestion Json Codec.

(** What [cosineSimilarity] computes, in the words of the specification. *)
Definition cosine_value (a b : list float64) : float64 :=
  if negb (length a =? length b)%nat then zero
  else if eqb (norm a) zero || eqb (norm b) zero then zero
  else div (dot a b) (mul (norm a) (norm b)).

(** A position in the order of the numbers that are not NaN: the class
    (infinite, finite or zero, with its sign), then the exponent and the
    mantissa, both reversed for a negative number. *)
Definition rank (x : float64) : Z * Z * Z :=
  match x with
  | S754_zero _ => (0, 0, 0)
  | S754_infinity s => (if s then -2 else 2, 0, 0)
  | S754_nan => (0, 0, 0)
  | S754_finite s m e => if s then (-1, - e, - Z.pos m) else (1, e, Z.pos m)
  end.

Definition lex_lt (a b : Z * Z * Z) : Prop :=
  let '(c1, e1, m1) := a in
  let '(c2, e2, m2) := b in
  c1 < c2 \/ (c1 = c2 /\ (e1 < e2 \/ (e1 = e2 /\ m1 < m2))).

(** The score of a stored document against a query vector. *)
Definition similarity (queryVector : list float64) (doc : Document) : float64 :=
  cosine_value queryVector (Vector doc).

Definition scored (queryVector : list float64) (doc : Document) : ScoredDocument.t :=
  {| ScoredDocument.Document := doc;
     ScoredDocument.Score := similarity queryVector doc |}.

(** A service that answers every embedding request with one vector. *)
Definition constant_service (embedding : list float64) : Service :=
  {| embed := fun _ _ _ => Decoded {| Embeddings := [embedding] |};
     generate := fun _ _ _ => Decoded {| Response := "Risposta."; Done := true |};
     tags := fun _ _ => Ok 200 |}.

Definition world_of (s : Service) : World :=
  {| json_files := ∅; text_files := ∅; pdf_files := ∅; read_only := ∅;
     service := s; calls := [] |}.

Definition document_of (id : string) (v : list float64) : Document :=
  {| ID := id; Content := id; Page := 1; Vector := v |}.

Definition bot_of (docs : list Document) : RAGChatbot :=
  with_Documents NewRAGChatbot docs.

Definition three_documents : list Document :=
  [document_of "north" [of_Z 0; of_Z 1];
   document_of "east" [of_Z 1; of_Z 0];
   document_of "north-east" [of_Z 1; of_Z 1]].

(** Three documents, the second with a component whose square is not a
    finite [float64]. *)
Definition overflowing_documents : list Document :=
  [document_of "opposite" [of_Z (-1)];
   document_of "huge" [of_Z (10 ^ 200)];
   document_of "aligned" [of_Z 1]].

(** The request that [GenerateResponse] sends. *)
Definition generate_request (r : RAGChatbot) (question : string)
    (context : list Document) : http_call :=
  Post (ollamaBaseURL r +:+ "/api/generate")
    (GenerateBody {| OllamaRequest3T.Model := chatModel r;
                     OllamaRequest3T.Prompt := prompt_of question context;
                     OllamaRequest3T.Stream := false;
                     OllamaRequest3T.Temperature := temperature_0_2;
                     OllamaRequest3T.TopK := 40;
                     OllamaRequest3T.TopP := top_p_0_9 |}).

(** The configuration of the chatbot, which no method changes. *)
Definition same_config (r r' : RAGChatbot) : Prop :=
  ollamaBaseURL r' = ollamaBaseURL r /\ embedModel r' = embedModel r
  /\ chatModel r' = chatModel r /\ dbPath r' = dbPath r.

(** Every component of every stored vector is a finite number. *)
Definition finite_vectors (docs : list Document) : Prop :=
  Forall (fun d => Forall (fun x => is_finite x = true) (Vector d)) docs.

(** The service sends finite numbers only: a JSON text spells no other,
    and a number too large for a [float64] fails the decoding. *)
Definition finite_service (s : Service) : Prop :=
  forall cs url req resp,
    embed s cs url req = Decoded resp ->
    Forall (Forall (fun x => is_finite x = true)) (Embeddings resp).

(** What the ingestion keeps true of the chatbot and of the world, from
    the chatbot [r0] and the world [w0] it starts with: only the documents
    and the calls made to the service change. *)
Definition ingesting (r0 : RAGChatbot) (w0 : World) (r : RAGChatbot) (w : World)
  : Prop :=
  same_config r0 r /\ finite_vectors (Documents (vectorStore r))
  /\ exists cs, w = with_calls w0 cs.

(** The JSON value written for a document with finite numbers. *)
Definition Document_value (d : Document) : Json.value :=
  Json.Object
    [("id", Json.String_ (Codec.coerce_utf8 (ID d)));
     ("content", Json.String_ (Codec.coerce_utf8 (Content d)));
     ("page", Json.Number (Codec.number_of_int (Page d)));
     ("vector", Json.Array (map (fun x => Json.Number (Codec.number_of_float x))
                               (Vector d)))].

Definition VectorStore_text (vs : VectorStore) : Json.text :=
  Json.Text
    (Json.Object
       [("documents", Json.Array (map Document_value (Documents vs)));
        ("model_name", Json.String_ (Codec.coerce_utf8 (ModelName vs)))]).

(** The four categories, exact up to U+00FF; beyond, only the separators
    are classified. *)
#[export] Instance latin1_tables : UnicodeTables := {|
  unicode_L := fun r =>
    ((0x41 <=? r) && (r <=? 0x5A)) || ((0x61 <=? r) && (r <=? 0x7A))
    || (r =? 0xAA) || (r =? 0xB5) || (r =? 0xBA)
    || ((0xC0 <=? r) && (r <=? 0xD6)) || ((0xD8 <=? r) && (r <=? 0xF6))
    || ((0xF8 <=? r) && (r <=? 0xFF));
  unicode_N := fun r =>
    ((0x30 <=? r) && (r <=? 0x39)) || (r =? 0xB2) || (r =? 0xB3) || (r =? 0xB9)
    || ((0xBC <=? r) && (r <=? 0xBE));
  unicode_P := fun r =>
    ((0x21 <=? r) && (r <=? 0x23)) || ((0x25 <=? r) && (r <=? 0x2A))
    || ((0x2C <=? r) && (r <=? 0x2F)) || (r =? 0x3A) || (r =? 0x3B)
    || (r =? 0x3F) || (r =? 0x40) || ((0x5B <=? r) && (r <=? 0x5D))
    || (r =? 0x5F) || (r =? 0x7B) || (r =? 0x7D)
    || (r =? 0xA1) || (r =? 0xA7) || (r =? 0xAB) || (r =? 0xB6) || (r =? 0xB7)
    || (r =? 0xBB) || (r =? 0xBF);
  unicode_Z := fun r =>
    (r =? 0x20) || (r =? 0xA0) || (r =? 0x1680)
    || ((0x2000 <=? r) && (r <=? 0x200A)) || (r =? 0x2028) || (r =? 0x2029)
    || (r =? 0x202F) || (r =? 0x205F) || (r =? 0x3000)
|}.

Definition long_page : string :=
  "Il gatto nero dorme sul divano rosso, vicino alla finestra aperta.".

Definition with_pdf (w : World) (filename : string) (reader : list pdf_page) : World :=
  {| json_files := json_files w; text_files := text_files w;
     pdf_files := <[filename := reader]> (pdf_files w);
     read_only := read_only w; service := service w; calls := calls w |}.

Definition with_text (w : World) (filename : string) (content : string) : World :=
  {| json_files := json_files w; text_files := <[filename := content]> (text_files w);
     pdf_files := pdf_files w;
     read_only := read_only w; service := service w; calls := calls w |}.

Definition with_read_only (w : World) (path : string) : World :=
  {| json_files := json_files w; text_files := text_files w;
     pdf_files := pdf_files w;
     read_only := {[path]} ∪ read_only w; service := service w; calls := calls w |}.

Definition library_world : World :=
  with_pdf (world_of (constant_service [of_Z 3; of_Z 4])) "libro.pdf"
    [PageText long_page; PageNull; PageText "ciao"; PageTextError "illeggibile"].

(** A text of 49 characters in 50 bytes. *)
Definition forty_nine_characters : string :=
  "È un testo breve, ma non troppo: quasi cinquanta.".

(** [utf8.ValidString]: no byte of the string fails to decode. *)
Definition utf8_valid (s : string) : bool :=
  forallb (fun rb : Z * string =>
             negb ((fst rb =? RuneError) && (String.length (snd rb) =? 1)%nat))
          (runes s).

Fixpoint string_drop (n : nat) (s : string) : string :=
  match n, s with
  | O, _ => s
  | S n', String _ s' => string_drop n' s'
  | S _, EmptyString => EmptyString
  end.

(** A document as it is read back: its strings coerced. *)
Definition coerced (d : Document) : Document :=
  {| ID := coerce_utf8 (ID d); Content := coerce_utf8 (Content d);
     Page := Page d; Vector := Vector d |}.

(** Every string of the store is valid UTF-8. *)
Definition valid_strings (vs : VectorStore) : Prop :=
  utf8_valid (ModelName vs) = true
  /\ Forall (fun d => utf8_valid (ID d) = true /\ utf8_valid (Content d) = true)
            (Documents vs).

(** A byte that starts no UTF-8 encoding. *)
Definition invalid_byte : string := String (ascii_of_nat 255) "".

(** The text
    [{"documents":[{"id":"vecchio","content":"testo","page":1,"vector":[1]}],"model_name":5}]:
    well-formed, with a number where the model name should be. *)
Definition misshapen_store : Json.text :=
  Text (Object
          [("documents",
            Array [Object [("id", String_ "vecchio");
                           ("content", String_ "testo");
                           ("page", Number (number_of_int 1));
                           ("vector", Array [Number (number_of_float (of_Z 1))])]]);
           ("model_name", Number (number_of_int 5))]).

Definition misshapen_world : World :=
  with_json_files (world_of (constant_service [of_Z 1]))
    {["vectorstore.json"%string := misshapen_store]}.

(** A component that is a zero, of either sign. *)
Definition is_zero (x : float64) : bool :=
  match x with S754_zero _ => true | _ => false end.

(** A string that no encoding begun before it runs into: it is empty, or
    its first byte is no continuation byte. *)
Definition rune_boundary (t : string) : Prop :=
  match t with
  | EmptyString => True
  | String c _ => continuation (byte c) = false
  end.

(** A rune that is no white space, with its bytes. *)
Definition not_space (rb : Z * string) : bool := negb (IsSpace (fst rb)).

(** A word as [strings.Fields] counts them: not empty, and without white
    space. *)
Definition is_word (s : string) : Prop :=
  s <> EmptyString /\ forallb not_space (runes s) = true.

(** A sequence of runes that decoding its own bytes gives back. *)
Definition self_decoding (rs : list (Z * string)) : Prop :=
  runes (bytes_of rs) = rs.

(** What [strings.TrimSpace] keeps of the runes of a string. *)
Definition trim (rs : list (Z * string)) : list (Z * string) :=
  rev (drop_spaces (rev (drop_spaces rs))).

(** A sequence of runes that does not begin with white space. *)
Definition starts_clean (rs : list (Z * string)) : Prop :=
  match rs with
  | [] => True
  | rb :: _ => IsSpace (fst rb) = false
  end.

(** The bytes TAB, LF, FF and CR. *)
Definition line_byte (c : ascii) : bool :=
  (byte c =? 0x09) || (byte c =? 0x0A) || (byte c =? 0x0C) || (byte c =? 0x0D).

(** A text without any of them. *)
Definition one_line (s : string) : bool :=
  forallb (fun c => negb (line_byte c)) (list_ascii_of_string s).

(** The cleaned texts of the pages that can be read, in order, and those
    of them that [ExtractTextFromPDF] keeps. *)
Definition readable_texts `{UnicodeTables} (reader : list pdf_page) : list string :=
  flat_map (fun page => match page with
                        | PageText content => [cleanText content]
                        | _ => []
                        end)
           reader.

Definition kept_pages `{UnicodeTables} (reader : list pdf_page) : list string :=
  List.filter (fun page => len page >? 50) (readable_texts reader).

(** The request that [GetEmbedding] sends. *)
Definition embed_call (r : RAGChatbot) (text : string) : http_call :=
  Post (ollamaBaseURL r +:+ "/api/embed")
    (EmbedBody {| EmbeddingRequest.Model := embedModel r;
                  EmbeddingRequest.Input := text |}).

(** The vector of a document is the first embedding that the service sent
    for its content. *)
Definition embedded_by (r : RAGChatbot) (w : World) (d : Document) : Prop :=
  exists cs resp rest,
    embed (service w) cs (ollamaBaseURL r +:+ "/api/embed")
      {| EmbeddingRequest.Model := embedModel r;
         EmbeddingRequest.Input := Content d |}
    = Decoded resp
    /\ Embeddings resp = Vector d :: rest.

(** A document made by [ProcessPDF] from the chunk of index [c] of the
    page of index [p]. *)
Definition pdf_document (pages : list string) (d : Document) : Prop :=
  exists (p c : nat) (pageText : string) (chunks : list string),
    nth_error pages p = Some pageText
    /\ ChunkText pageText 300 50 = Returns chunks
    /\ nth_error chunks c = Some (Content d)
    /\ Page d = Z.of_nat p + 1
    /\ ID d = "page_" +:+ pretty (Z.of_nat p + 1) +:+ "_chunk_"
              +:+ pretty (Z.of_nat c) +:+ "_" +:+ fingerprint (Content d)
    /\ 20 <= len (Content d).

(** A document made by [ProcessTXT] from the chunk of index [c] of the
    cleaned text. *)
Definition txt_document (cleanedText : string) (d : Document) : Prop :=
  exists (c : nat) (chunks : list string),
    ChunkText cleanedText 300 50 = Returns chunks
    /\ nth_error chunks c = Some (Content d)
    /\ Page d = 1
    /\ ID d = "txt_chunk_" +:+ pretty (Z.of_nat c) +:+ "_"
              +:+ fingerprint (Content d)
    /\ 20 <= len (Content d).

(** What the loops of the ingestion keep true, from the chatbot [r0] and
    the world [w0] they start with: the configuration and the files stay,
    every document stored is a [good] one, and the service was asked for
    embeddings only, at least once per document stored. *)
Definition ingested (good : Document -> Prop) (r0 : RAGChatbot) (w0 : World)
    (r : RAGChatbot) (w : World) : Prop :=
  same_config r0 r
  /\ Forall good (Documents (vectorStore r))
  /\ exists texts,
       w = with_calls w0 (calls w0 ++ map (embed_call r0) texts)
       /\ (length (Documents (vectorStore r)) <= length texts)%nat.

(** The outcome of a call that returns a chatbot, with the model name of
    its store replaced. *)
Definition renamed (name : string) (o : outcome (RAGChatbot * World))
  : outcome (RAGChatbot * World) :=
  match o with
  | Returns (r, w) => Returns (with_ModelName r name, w)
  | Panics => Panics
  | Diverges => Diverges
  end.

(** A text that holds another as a contiguous part. *)
Definition quotes (whole part : string) : Prop :=
  exists before after, whole = before +:+ part +:+ after.

(** The heading and the body of a document in the prompt. *)
Definition section_of (rank : Z) (doc : Document) : string :=
  "Sezione " +:+ pretty rank +:+ " (Pagina " +:+ pretty (Page doc) +:+ "):"
  +:+ nl +:+ Content doc +:+ nl +:+ nl.

(** The number of bytes of the contents of the documents. *)
Definition total_bytes (docs : list Document) : Z :=
  fold_right Z.add 0 (map (fun doc => len (Content doc)) docs).

(** The pages that the documents are on. *)
Definition pages_of (docs : list Document) : gset Z :=
  list_to_set (map Page docs).

(** A digit of the lower-case hexadecimal notation. *)
Definition lower_hex (c : ascii) : bool :=
  ((0x30 <=? byte c) && (byte c <=? 0x39)) || ((0x61 <=? byte c) && (byte c <=? 0x66)).

(** A rune with bytes that decode to it whatever follows them. *)
Definition complete (rb : Z * string) : Prop :=
  snd rb <> EmptyString
  /\ forall t, DecodeRuneInString (snd rb +:+ t) = (fst rb, String.length (snd rb)).

(** What [coerce_utf8] does to a rune. *)
Definition coerce_rune (rb : Z * string) : Z * string :=
  if (fst rb =? RuneError) && (String.length (snd rb) =? 1)%nat
  then (fst rb, replacement) else rb.

(** What the loops of [ProcessPDF] keep true while the pages up to the
    page [p] are ingested: the documents stored are on those pages, in the
    order of the pages. *)
Definition in_reading_order (p : Z) (r0 : RAGChatbot) (w0 : World)
    (r : RAGChatbot) (w : World) : Prop :=
  same_config r0 r
  /\ Forall (fun d => 1 <= Page d <= p) (Documents (vectorStore r))
  /\ StronglySorted (fun d1 d2 => Page d1 <= Page d2) (Documents (vectorStore r))
  /\ exists cs, w = with_calls w0 cs.

(** A service that cannot be reached. *)
Definition unreachable_service : Service :=
  {| embed := fun _ _ _ => PostError "connection refused";
     generate := fun _ _ _ => PostError "connection refused";
     tags := fun _ _ => Err "connection refused" |}.

End Spec.

(** * Part III: properties *)

Import Spec.

Import GoInt GoStrings Chunker.

(** ** Machine integers *)

Lemma wrap64_id z : in_range z -> wrap64 z = z.
Proof.
  unfold in_range, min_int, max_int, wrap64. intros H.
  rewrite Z.mod_small; lia.
Qed.

Lemma wrap64_range z : in_range (wrap64 z).
Proof.
  unfold in_range, min_int, max_int, wrap64.
  pose proof (Z.mod_pos_bound (z + 2 ^ 63) (2 ^ 64)). lia.
Qed.


(** ** The chunker *)

Lemma ceil_div_spec a b :
  0 < b -> b * (ceil_div a b - 1) < a <= b * ceil_div a b.
Proof.
  intros Hb. unfold ceil_div.
  pose proof (Z.div_mod (a + b - 1) b ltac:(lia)) as E.
  pose proof (Z.mod_pos_bound (a + b - 1) b Hb) as B.
  set (q := (a + b - 1) / b) in *. set (r := (a + b - 1) mod b) in *.
  clearbody q r. nia.
Qed.

(** Words are separated by at least one rune, and a rune takes at least
    one byte. *)
Lemma flush_length cur : (length (flush cur) <= 1)%nat.
Proof. destruct cur; simpl; lia. Qed.

Lemma runes_from_length s : forall skip,
  (length (runes_from s skip) <= String.length s)%nat.
Proof.
  induction s as [|c rest IH]; intros skip; [simpl; lia|].
  cbn [runes_from]. destruct skip as [|k].
  - destruct (DecodeRuneInString (String c rest)) as [r width].
    specialize (IH (width - 1)%nat). cbn [length String.length]. lia.
  - specialize (IH k). cbn [String.length]. lia.
Qed.

Lemma fields_of_length rs : forall cur,
  (2 * length (fields_of rs cur) <= length rs + 1 + length (flush cur))%nat.
Proof.
  induction rs as [|[r bs] rs IH]; intros cur; cbn [fields_of].
  - pose proof (flush_length cur). simpl. lia.
  - destruct (IsSpace r).
    + specialize (IH EmptyString). pose proof (flush_length cur).
      rewrite length_app. cbn [flush length] in *. lia.
    + specialize (IH (cur +:+ bs)). pose proof (flush_length (cur +:+ bs)).
      cbn [length]. lia.
Qed.

Lemma Fields_length s : (2 * length (Fields s) <= String.length s + 1)%nat.
Proof.
  unfold Fields, runes.
  pose proof (fields_of_length (runes_from s 0) EmptyString) as H.
  pose proof (runes_from_length s 0). cbn [flush length] in H. lia.
Qed.

Section Windows.

Variables (words : list string) (size overlap : Z).
Let w := Z.of_nat (length words).
Let last := ceil_div (w - size) (size - overlap).

Hypothesis Hoverlap : 0 <= overlap < size.
Hypothesis Hlong : size < w.
Hypothesis Hfit : 2 * w <= max_int + 2.

Lemma last_nonneg : 0 <= last.
Proof using Hoverlap Hlong.
  clear Hfit.
  pose proof (ceil_div_spec (w - size) (size - overlap) ltac:(lia)).
  fold last in H. nia.
Qed.

Lemma before_last j : 0 <= j < last -> j * (size - overlap) + size < w.
Proof using Hoverlap Hlong.
  clear Hfit.
  pose proof (ceil_div_spec (w - size) (size - overlap) ltac:(lia)).
  fold last in H. nia.
Qed.

Lemma at_last : w <= last * (size - overlap) + size /\ last * (size - overlap) < w.
Proof using Hoverlap Hlong.
  clear Hfit.
  pose proof (ceil_div_spec (w - size) (size - overlap) ltac:(lia)).
  fold last in H. nia.
Qed.

Lemma ChunkText_loop_spec (k : nat) : forall (j : Z) (fuel : nat) acc,
  0 <= j -> j + Z.of_nat k = last -> (k < fuel)%nat ->
  ChunkText_loop fuel words size overlap (j * (size - overlap)) acc
  = Returns (acc ++ map (fun d : nat =>
                           Join (window_words words size overlap (j + Z.of_nat d)) " ")
                        (seq 0 (S k))).
Proof using Hoverlap Hlong Hfit.
  induction k as [|k IH]; intros j fuel acc Hj Hk Hfuel;
    (destruct fuel as [|fuel]; [lia|]); cbn [ChunkText_loop].
  - assert (j = last) as -> by lia. destruct at_last as [Hend Hbeg].
    fold w. rewrite (proj2 (Z.ltb_lt _ _) Hbeg).
    unfold add. rewrite wrap64_id by (unfold in_range, min_int, max_int in *; nia).
    assert ((if last * (size - overlap) + size >? w then w
             else last * (size - overlap) + size) = w) as ->.
    { destruct (Z.gtb_spec (last * (size - overlap) + size) w); lia. }
    unfold slice. fold w.
    pose proof last_nonneg.
    replace ((0 <=? last * (size - overlap)) && (last * (size - overlap) <=? w)
             && (w <=? w)) with true
      by (symmetry; rewrite !andb_true_iff, !Z.leb_le; nia).
    rewrite Z.eqb_refl. cbn [seq map]. do 3 f_equal.
    unfold window_words, window_hi, window_lo. fold w.
    rewrite Z.add_0_r, Z.min_r by lia. reflexivity.
  - pose proof (before_last j ltac:(lia)) as Hin.
    assert (j * (size - overlap) < w) as Hjw by nia.
    fold w. rewrite (proj2 (Z.ltb_lt _ _) Hjw).
    unfold add, sub.
    rewrite (wrap64_id (size - overlap))
      by (unfold in_range, min_int, max_int in *; lia).
    rewrite !wrap64_id by (unfold in_range, min_int, max_int in *; nia).
    assert ((if j * (size - overlap) + size >? w then w
             else j * (size - overlap) + size) = j * (size - overlap) + size) as ->.
    { destruct (Z.gtb_spec (j * (size - overlap) + size) w); lia. }
    unfold slice. fold w.
    replace ((0 <=? j * (size - overlap))
             && (j * (size - overlap) <=? j * (size - overlap) + size)
             && (j * (size - overlap) + size <=? w)) with true
      by (symmetry; rewrite !andb_true_iff, !Z.leb_le; nia).
    rewrite (proj2 (Z.eqb_neq _ _)) by lia.
    replace (j * (size - overlap) + (size - overlap))
      with ((j + 1) * (size - overlap)) by ring.
    rewrite (IH (j + 1) fuel) by lia.
    rewrite <- app_assoc. do 2 f_equal. cbn [app].
    change (seq 0 (S (S k))) with (0%nat :: seq 1 (S k)).
    rewrite <- (seq_shift (S k) 0). cbn [map]. rewrite map_map.
    apply (f_equal2 cons).
    + unfold window_words, window_hi, window_lo. fold w.
      rewrite Z.add_0_r, Z.min_l by lia. reflexivity.
    + apply map_ext. intros d. do 2 f_equal. lia.
Qed.

Lemma ChunkText_loop_sliding fuel :
  (Z.to_nat last < fuel)%nat ->
  ChunkText_loop fuel words size overlap 0 [] = Returns (sliding_chunks words size overlap).
Proof using Hoverlap Hlong Hfit.
  intros Hfuel. pose proof last_nonneg.
  pose proof (ChunkText_loop_spec (Z.to_nat last) 0 fuel [] ltac:(lia) ltac:(lia) Hfuel) as E.
  rewrite Z.mul_0_l in E. rewrite E. cbn [app].
  unfold sliding_chunks, chunk_count. fold w last.
  replace (Z.to_nat (last + 1)) with (S (Z.to_nat last)) by lia.
  apply f_equal, map_ext. intros d. reflexivity.
Qed.

Lemma last_lt_w : last < w.
Proof using Hoverlap Hlong.
  clear Hfit. destruct at_last. nia. Qed.

Lemma windows_cover p :
  0 <= p < w ->
  exists j, 0 <= j < chunk_count w size overlap
            /\ window_lo size overlap j <= p < window_hi w size overlap j.
Proof using Hoverlap Hlong.
  clear Hfit.
  intros Hp. unfold chunk_count, window_lo, window_hi. fold last.
  pose proof last_nonneg. destruct at_last as [Hend Hbeg].
  destruct (Z_lt_le_dec p (last * (size - overlap))) as [Hlt|Hge].
  - exists (p / (size - overlap)).
    pose proof (Z.div_mod p (size - overlap) ltac:(lia)).
    pose proof (Z.mod_pos_bound p (size - overlap) ltac:(lia)).
    assert (0 <= p / (size - overlap)) by (apply Z.div_pos; lia).
    assert (p / (size - overlap) < last) by nia.
    pose proof (before_last (p / (size - overlap)) ltac:(lia)).
    split; [lia|]. split; [nia|]. apply Z.min_glb_lt; nia.
  - exists last. split; [lia|]. split; [lia|]. apply Z.min_glb_lt; lia.
Qed.

Lemma windows_overlap j :
  0 <= j -> j + 1 < chunk_count w size overlap ->
  window_hi w size overlap j - window_lo size overlap (j + 1) = overlap
  /\ window_hi w size overlap j <= window_hi w size overlap (j + 1).
Proof using Hoverlap Hlong.
  clear Hfit.
  unfold chunk_count, window_lo, window_hi. fold last. intros Hj Hnext.
  pose proof (before_last j ltac:(lia)). lia.
Qed.

Lemma last_window_clipped :
  window_hi w size overlap (chunk_count w size overlap - 1) = w.
Proof using Hoverlap Hlong.
  clear Hfit.
  unfold chunk_count, window_hi. fold last. destruct at_last.
  replace (last + 1 - 1) with last by lia. lia.
Qed.

End Windows.


(** A text with at most [chunkSize] words is returned whole, as the only
    chunk, whatever it holds. *)
Lemma ChunkText_short (text : string) (size overlap : Z) :
  Z.of_nat (length (Fields text)) <= size ->
  ChunkText text size overlap = Returns [text].
Proof.
  intros Hw. unfold ChunkText, ChunkText_fuel.
  rewrite (proj2 (Z.leb_le _ _) Hw). reflexivity.
Qed.

(** More tests than the loop needs change nothing. *)
Lemma ChunkText_loop_more_fuel (words : list string) (chunkSize overlap : Z)
    (fuel : nat) : forall (extra : nat) (i : Z) (chunks : list string),
  ChunkText_loop fuel words chunkSize overlap i chunks <> Diverges ->
  ChunkText_loop (fuel + extra) words chunkSize overlap i chunks
  = ChunkText_loop fuel words chunkSize overlap i chunks.
Proof.
  induction fuel as [|fuel IH]; intros extra i chunks Hends; [contradiction|].
  cbn [ChunkText_loop Nat.add] in *.
  destruct (i <? Z.of_nat (length words)); [|reflexivity].
  destruct (slice words i _) as [window|]; [|reflexivity].
  destruct (_ =? Z.of_nat (length words)); [reflexivity|].
  apply IH. exact Hends.
Qed.

(** The tests that [ChunkText] allows decide the call: a loop that has not
    ended by then never ends. *)
Section FuelDecides.

Variables (words : list string) (chunkSize overlap : Z).
Let n := Z.of_nat (length words).
Let step := sub chunkSize overlap.

Lemma ChunkText_loop_negative (fuel : nat) (i : Z) (chunks : list string) :
  (1 <= fuel)%nat -> i < 0 ->
  ChunkText_loop fuel words chunkSize overlap i chunks = Panics.
Proof.
  intros Hfuel Hi. destruct fuel as [|fuel]; [lia|]. cbn [ChunkText_loop]. fold n.
  rewrite (proj2 (Z.ltb_lt i n)) by lia.
  unfold slice. rewrite (proj2 (Z.leb_gt 0 i)) by lia. reflexivity.
Qed.

Lemma ChunkText_loop_advancing (fuel : nat) : forall (i : Z) (chunks : list string),
  1 <= step -> (1 <= fuel)%nat -> i <= max_int ->
  i < 0 \/ (Z.to_nat (n - i) < fuel)%nat ->
  ChunkText_loop fuel words chunkSize overlap i chunks <> Diverges.
Proof.
  induction fuel as [|fuel IH]; intros i chunks Hstep Hfuel Hmax Hi; [lia|].
  destruct (Z_lt_le_dec i 0) as [Hneg|Hpos].
  { rewrite ChunkText_loop_negative by assumption. discriminate. }
  destruct Hi as [Hi|Hi]; [lia|].
  cbn [ChunkText_loop]. fold n step.
  destruct (Z.ltb_spec i n) as [Hin|Hout]; [|discriminate].
  destruct (slice words i _) as [window|]; [|discriminate].
  destruct (_ =? n); [discriminate|].
  pose proof (wrap64_range (i + step)) as Hr.
  apply IH; [exact Hstep|lia|exact (proj2 Hr)|].
  unfold add. unfold in_range, min_int in Hr.
  destruct (Z_le_gt_dec (i + step) max_int) as [Hfits|Hwraps].
  - rewrite wrap64_id by (unfold in_range, min_int; lia). right. lia.
  - left. unfold wrap64. unfold max_int in Hwraps, Hmax.
    pose proof (wrap64_range (chunkSize - overlap)) as Hs.
    fold (sub chunkSize overlap) in Hs.
    fold step in Hs. unfold in_range, min_int, max_int in Hs.
    replace ((i + step + 2 ^ 63) mod 2 ^ 64) with (i + step + 2 ^ 63 - 2 ^ 64).
    + lia.
    + apply Z.mod_unique with (q := 1); [left|]; lia.
Qed.

Lemma ChunkText_loop_standing (fuel : nat) (chunks : list string) :
  step = 0 ->
  ChunkText_loop (S fuel) words chunkSize overlap 0 chunks = Diverges ->
  forall (fuel' : nat) (chunks' : list string),
    ChunkText_loop fuel' words chunkSize overlap 0 chunks' = Diverges.
Proof.
  intros Hstep Hdiv fuel'. induction fuel' as [|fuel' IH]; intros chunks';
    [reflexivity|].
  cbn [ChunkText_loop] in Hdiv |- *. fold n step in Hdiv |- *.
  destruct (0 <? n); [|discriminate].
  destruct (slice words 0 _) as [window|]; [|discriminate].
  destruct (_ =? n); [discriminate|].
  rewrite Hstep. change (add 0 0) with 0. apply IH.
Qed.

Lemma ChunkText_loop_decided (fuel : nat) :
  ChunkText_loop (S (length words)) words chunkSize overlap 0 [] = Diverges ->
  ChunkText_loop fuel words chunkSize overlap 0 [] = Diverges.
Proof.
  intros Hdiv. destruct (Z.lt_trichotomy step 0) as [Hneg|[Hzero|Hpos]].
  - exfalso. revert Hdiv. cbn [ChunkText_loop]. fold n step.
    destruct (0 <? n) eqn:Hn; [|discriminate].
    destruct (slice words 0 _) as [window|]; [|discriminate].
    destruct (_ =? n); [discriminate|].
    unfold add. rewrite Z.add_0_l.
    pose proof (wrap64_range (chunkSize - overlap)) as Hs.
    fold (sub chunkSize overlap) in Hs.
    fold step in Hs. rewrite (wrap64_id step Hs).
    apply Z.ltb_lt in Hn.
    rewrite ChunkText_loop_negative by (unfold n in Hn; lia). discriminate.
  - exact (ChunkText_loop_standing _ _ Hzero Hdiv fuel []).
  - exfalso. revert Hdiv.
    apply ChunkText_loop_advancing; [lia|lia|unfold max_int; lia|].
    right. fold n. lia.
Qed.

End FuelDecides.

Lemma ChunkText_fuel_decides (text : string) (chunkSize overlap : Z) (fuel : nat) :
  (ChunkText text chunkSize overlap = Diverges ->
   ChunkText_fuel fuel text chunkSize overlap = Diverges)
  /\ (ChunkText text chunkSize overlap <> Diverges ->
      (length (Fields text) < fuel)%nat ->
      ChunkText_fuel fuel text chunkSize overlap = ChunkText text chunkSize overlap).
Proof.
  unfold ChunkText, ChunkText_fuel.
  destruct (Z.of_nat (length (Fields text)) <=? chunkSize); [split; [discriminate|reflexivity]|].
  split.
  - apply ChunkText_loop_decided.
  - intros Hends Hfuel.
    replace fuel with (S (length (Fields text)) + (fuel - S (length (Fields text))))%nat
      by lia.
    apply ChunkText_loop_more_fuel. exact Hends.
Qed.

(** A text with more words than [size] is cut into the sliding windows. *)
Lemma ChunkText_long (text : string) (size overlap : Z) :
  len text <= max_int ->
  0 <= overlap < size ->
  size < Z.of_nat (length (Fields text)) ->
  ChunkText text size overlap = Returns (sliding_chunks (Fields text) size overlap).
Proof.
  intros Hlen Hov Hlong.
  assert (2 * Z.of_nat (length (Fields text)) <= max_int + 2) as Hfit.
  { pose proof (Fields_length text). unfold len in Hlen. lia. }
  pose proof (last_lt_w (Fields text) size overlap Hov Hlong) as Hlastw.
  pose proof (last_nonneg (Fields text) size overlap Hov Hlong) as Hlast.
  cbv zeta in Hlast, Hlastw.
  unfold ChunkText, ChunkText_fuel.
  rewrite (proj2 (Z.leb_gt _ _) Hlong).
  apply ChunkText_loop_sliding; try assumption. lia.
Qed.

(** C1. For a text of [w] words with [w > size] and [size > overlap >= 0],
    [ChunkText] returns [ceil((w - size) / (size - overlap)) + 1] chunks, the
    [j]-th being the words [j * (size - overlap)] up to
    [min (j * (size - overlap) + size) w] joined by single spaces; the windows
    cover every word position, consecutive windows share exactly [overlap]
    positions and the last window ends at [w].  A non-empty text with
    [w <= size] comes back as the one-element list holding the text.  The
    length bound is the one every Go string meets. *)
Theorem ChunkText_sliding_windows (text : string) (size overlap : Z) :
  len text <= max_int ->
  0 <= overlap < size ->
  let words := Fields text in
  let w := Z.of_nat (length words) in
  (size < w ->
     ChunkText text size overlap = Returns (sliding_chunks words size overlap)
     /\ Z.of_nat (length (sliding_chunks words size overlap))
        = ceil_div (w - size) (size - overlap) + 1
     /\ (forall j : nat,
           (j < length (sliding_chunks words size overlap))%nat ->
           nth_error (sliding_chunks words size overlap) j
           = option_map (fun ws => Join ws " ")
               (slice words (Z.of_nat j * (size - overlap))
                  (Z.min (Z.of_nat j * (size - overlap) + size) w)))
     /\ (forall p, 0 <= p < w ->
           exists j, 0 <= j < chunk_count w size overlap
                     /\ window_lo size overlap j <= p < window_hi w size overlap j)
     /\ (forall j, 0 <= j -> j + 1 < chunk_count w size overlap ->
           window_hi w size overlap j - window_lo size overlap (j + 1) = overlap
           /\ window_hi w size overlap j <= window_hi w size overlap (j + 1))
     /\ window_hi w size overlap (chunk_count w size overlap - 1) = w)
  /\ (w <= size -> text <> EmptyString ->
      ChunkText text size overlap = Returns [text]).
Proof.
  intros Hlen Hov words w. split.
  - intros Hlong.
    assert (2 * w <= max_int + 2) as Hfit.
    { pose proof (Fields_length text). unfold len in Hlen.
      subst w words. lia. }
    pose proof (last_nonneg words size overlap Hov Hlong) as Hlast.
    pose proof (last_lt_w words size overlap Hov Hlong) as Hlastw.
    cbv zeta in Hlast, Hlastw. fold w in Hlast, Hlastw.
    assert (Z.of_nat (length (sliding_chunks words size overlap))
            = ceil_div (w - size) (size - overlap) + 1) as Hcount.
    { unfold sliding_chunks, chunk_count. fold w.
      rewrite length_map, length_seq. lia. }
    split; [|split; [exact Hcount|split; [|split; [|split]]]].
    + apply ChunkText_long; assumption.
    + intros j Hj. unfold sliding_chunks at 1. fold w.
      rewrite nth_error_map, nth_error_seq.
      assert ((j <? Z.to_nat (chunk_count w size overlap))%nat = true) as ->.
      { apply Nat.ltb_lt. unfold chunk_count. lia. }
      cbn [option_map Nat.add]. unfold slice. fold w.
      assert (Z.of_nat j < chunk_count w size overlap) as Hjc
        by (unfold chunk_count; lia).
      assert (Z.of_nat j * (size - overlap) < w) as Hlo.
      { unfold chunk_count in Hjc.
        pose proof (at_last words size overlap Hov Hlong) as Hal.
        cbv zeta in Hal. fold w in Hal. destruct Hal as [_ Hb]. nia. }
      replace ((0 <=? Z.of_nat j * (size - overlap))
               && (Z.of_nat j * (size - overlap)
                   <=? Z.min (Z.of_nat j * (size - overlap) + size) w)
               && (Z.min (Z.of_nat j * (size - overlap) + size) w <=? w))
        with true by (symmetry; rewrite !andb_true_iff, !Z.leb_le; nia).
      reflexivity.
    + apply windows_cover; assumption.
    + apply windows_overlap; assumption.
    + apply last_window_clipped; assumption.
  - intros Hshort _. apply ChunkText_short. exact Hshort.
Qed.

Lemma ChunkText_sliding_windows_witness :
  ChunkText "a b c d e f g" 3 1 = Returns ["a b c"; "c d e"; "e f g"]%string
  /\ ChunkText "ciao mondo" 3 1 = Returns ["ciao mondo"]%string.
Proof.
  split.
  - exact (proj1 (proj1 (ChunkText_sliding_windows "a b c d e f g" 3 1
                           ltac:(vm_compute; discriminate) ltac:(lia))
                    ltac:(vm_compute; reflexivity))).
  - exact (proj2 (ChunkText_sliding_windows "ciao mondo" 3 1
                    ltac:(vm_compute; discriminate) ltac:(lia))
             ltac:(vm_compute; discriminate) ltac:(discriminate)).
Defined.

(** The scenario of the specification: 700 words, 300 per chunk, 50 shared,
    give the three windows 0-300, 250-550 and 500-700. *)
Example chunk_count_700 :
  chunk_count 700 300 50 = 3
  /\ map (fun j => (window_lo 300 50 j, window_hi 700 300 50 j)) [0; 1; 2]
     = [(0, 300); (250, 550); (500, 700)].
Proof. split; reflexivity. Qed.

(** C9, as the code has it: on the empty string [ChunkText] returns one
    chunk, the empty string, for every non-negative size, and no chunk only
    for a negative one. *)
Theorem ChunkText_empty (size overlap : Z) :
  ChunkText EmptyString size overlap
  = Returns (if 0 <=? size then [EmptyString] else []).
Proof.
  unfold ChunkText, ChunkText_fuel.
  change (Z.of_nat (length (Fields EmptyString))) with 0.
  destruct (0 <=? size); reflexivity.
Qed.

(** C9 as stated fails: with the sizes the ingestion uses, the empty string
    gives a sequence of one (empty) chunk, not the empty sequence. *)
Lemma ChunkText_empty_not_nil :
  ChunkText EmptyString 300 50 = Returns [EmptyString]
  /\ ChunkText EmptyString 300 50 <> Returns [].
Proof. split; [reflexivity | discriminate]. Qed.

(** ** The similarity scorer *)

Import Float64 Scorer.

Section CosineLoop.

Let sums (acc : float64 * float64 * float64) (p : float64 * float64) :=
  let '(d, na, nb) := acc in
  (add d (mul (fst p) (snd p)), add na (mul (fst p) (fst p)),
   add nb (mul (snd p) (snd p))).

(** Visiting the indices left of two equally long lists never leaves
    them, and adds up the pairs in order. *)
Lemma cosine_loop_from (sa sb : list float64) :
  forall (pa pb : list float64) (acc : float64 * float64 * float64),
    length pa = length pb -> length sa = length sb ->
    fold_left (cosine_step (pa ++ sa) (pb ++ sb))
              (seq (length pa) (length sa)) (Some acc)
    = Some (fold_left sums (combine sa sb) acc).
Proof.
  revert sb. induction sa as [|x sa IH]; intros [|y sb] pa pb acc Hp Hs;
    try discriminate; [reflexivity|].
  cbn [length seq fold_left combine]. unfold cosine_step at 2.
  destruct acc as [[d na] nb].
  rewrite nth_error_app2, Nat.sub_diag by lia.
  rewrite nth_error_app2, Hp, Nat.sub_diag by lia. cbn [nth_error].
  specialize (IH sb (pa ++ [x]) (pb ++ [y])).
  rewrite <- !app_assoc, !length_app in IH. cbn [app length] in IH.
  rewrite Nat.add_1_r in IH. rewrite <- Hp. rewrite IH; [reflexivity| lia | ].
  injection Hs as Hs. exact Hs.
Qed.

Lemma sums_split (a b : list float64) :
  forall d na nb, length a = length b ->
    fold_left sums (combine a b) (d, na, nb)
    = (fold_left (fun s p => add s (mul (fst p) (snd p))) (combine a b) d,
       fold_left (fun s x => add s (mul x x)) a na,
       fold_left (fun s x => add s (mul x x)) b nb).
Proof.
  revert b. induction a as [|x a IH]; intros [|y b] d na nb Hl;
    try discriminate; [reflexivity|].
  cbn [combine fold_left]. unfold sums at 2. cbn [fst snd].
  apply IH. injection Hl as Hl. exact Hl.
Qed.

Lemma cosine_loop_sums (a b : list float64) :
  length a = length b ->
  cosine_loop a b
  = Some (dot a b,
          fold_left (fun s x => add s (mul x x)) a zero,
          fold_left (fun s x => add s (mul x x)) b zero).
Proof.
  intros Hl. unfold cosine_loop.
  pose proof (cosine_loop_from a b [] [] (zero, zero, zero) eq_refl Hl) as E.
  cbn [app length] in E. rewrite E, sums_split by exact Hl. reflexivity.
Qed.

End CosineLoop.

Lemma cosineSimilarity_returns (a b : list float64) :
  cosineSimilarity a b = Returns (cosine_value a b).
Proof.
  unfold cosineSimilarity, cosine_value.
  destruct (Nat.eqb_spec (length a) (length b)) as [Hl|Hl]; cbn [negb];
    [|reflexivity].
  rewrite (cosine_loop_sums a b Hl). fold (norm a) (norm b).
  destruct (eqb (norm a) zero || eqb (norm b) zero); reflexivity.
Qed.

(** C3. [cosineSimilarity] always returns: [0] when the lengths differ or
    when the norm of either vector is [0], and [dot(a,b) / (|a| * |b|)]
    otherwise. *)
Theorem cosineSimilarity_spec (a b : list float64) :
  (exists s, cosineSimilarity a b = Returns s)
  /\ (length a <> length b \/ eqb (norm a) zero = true \/ eqb (norm b) zero = true ->
      cosineSimilarity a b = Returns zero)
  /\ (~ (length a <> length b \/ eqb (norm a) zero = true \/ eqb (norm b) zero = true) ->
      cosineSimilarity a b = Returns (div (dot a b) (mul (norm a) (norm b)))).
Proof.
  rewrite cosineSimilarity_returns. unfold cosine_value.
  destruct (Nat.eqb_spec (length a) (length b)) as [Hl|Hl]; cbn [negb].
  - destruct (eqb (norm a) zero) eqn:Ea, (eqb (norm b) zero) eqn:Eb;
      cbn [orb]; (split; [eauto|split]); intros H; try reflexivity;
      try (exfalso; apply H; auto; fail).
    destruct H as [H|[H|H]]; [contradiction|discriminate|discriminate].
  - split; [eauto|split]; intros H; [reflexivity|].
    exfalso. apply H. left. exact Hl.
Qed.

(** ** Insertion sort meets the contract of [sort.Slice] *)

Import InsertionSort.

Section InsertionSortFacts.

Context {A : Type} (less : A -> A -> bool).

Lemma sink_permutes (x : A) (before : list A) :
  Permutation (x :: before) (sink less x before).
Proof.
  induction before as [|y before IH]; cbn [sink]; [reflexivity|].
  destruct (less x y); [|reflexivity].
  rewrite perm_swap. apply perm_skip. exact IH.
Qed.

Lemma insertion_fold_permutes (data : list A) : forall before,
  Permutation (before ++ data)
              (fold_left (fun before x => sink less x before) data before).
Proof.
  induction data as [|x data IH]; intros before; cbn [fold_left].
  - rewrite app_nil_r. reflexivity.
  - rewrite <- IH, <- sink_permutes.
    symmetry. apply Permutation_middle.
Qed.

Lemma insertionSort_func_permutes (data : list A) :
  Permutation data (insertionSort_func less data).
Proof.
  unfold insertionSort_func. rewrite <- Permutation_rev.
  apply (insertion_fold_permutes data []).
Qed.

(** The order on the elements of [dom]. *)
Variable dom : A -> Prop.
Hypothesis less_irreflexive : forall x, dom x -> less x x = false.
Hypothesis less_transitive : forall x y z, dom x -> dom y -> dom z ->
  less x y = true -> less y z = true -> less x z = true.
Hypothesis unless_transitive : forall x y z, dom x -> dom y -> dom z ->
  less x y = false -> less y z = false -> less x z = false.

Lemma less_asymmetric x y : dom x -> dom y -> less x y = true -> less y x = false.
Proof using less_irreflexive less_transitive.
  intros Hx Hy Hxy. destruct (less y x) eqn:Hyx; [|reflexivity].
  rewrite <- (less_irreflexive x Hx). symmetry.
  exact (less_transitive x y x Hx Hy Hx Hxy Hyx).
Qed.

Lemma sink_orders (x : A) (before : list A) :
  dom x -> Forall dom before ->
  StronglySorted (fun u v => less u v = false) before ->
  StronglySorted (fun u v => less u v = false) (sink less x before).
Proof using less_irreflexive less_transitive unless_transitive.
  intros Hx. induction before as [|y before IH]; intros Hdom Hsorted; cbn [sink].
  - repeat constructor.
  - apply Forall_cons_iff in Hdom as [Hy Hdom].
    apply StronglySorted_inv in Hsorted as [Hsorted Hy_before].
    destruct (less x y) eqn:Hxy.
    + constructor; [exact (IH Hdom Hsorted)|].
      rewrite <- (sink_permutes x before). constructor; [|exact Hy_before].
      exact (less_asymmetric x y Hx Hy Hxy).
    + constructor; [constructor; assumption|].
      constructor; [exact Hxy|].
      rewrite Forall_forall in *. intros z Hz.
      exact (unless_transitive x y z Hx Hy (Hdom z Hz) Hxy (Hy_before z Hz)).
Qed.

Lemma insertion_fold_orders (data : list A) : forall before,
  Forall dom data -> Forall dom before ->
  StronglySorted (fun u v => less u v = false) before ->
  StronglySorted (fun u v => less u v = false)
                 (fold_left (fun before x => sink less x before) data before).
Proof using less_irreflexive less_transitive unless_transitive.
  induction data as [|x data IH]; intros before Hdata Hbefore Hsorted;
    cbn [fold_left]; [exact Hsorted|].
  apply Forall_cons_iff in Hdata as [Hx Hdata].
  apply IH; [exact Hdata| |apply sink_orders; assumption].
  rewrite <- (sink_permutes x before). constructor; assumption.
Qed.

End InsertionSortFacts.

Lemma StronglySorted_snoc {A : Type} (R : A -> A -> Prop) (l : list A) (x : A) :
  StronglySorted R l -> Forall (fun y => R y x) l -> StronglySorted R (l ++ [x]).
Proof.
  induction l as [|y l IH]; intros Hs Hx; cbn [app].
  - repeat constructor.
  - apply StronglySorted_inv in Hs as [Hs Hy].
    apply Forall_cons_iff in Hx as [Hyx Hx].
    constructor; [exact (IH Hs Hx)|].
    apply Forall_app. split; [exact Hy|]. constructor; [exact Hyx|constructor].
Qed.

Lemma StronglySorted_rev {A : Type} (R : A -> A -> Prop) (l : list A) :
  StronglySorted R l -> StronglySorted (fun x y => R y x) (rev l).
Proof.
  induction 1 as [|x l Hs IH Hx]; cbn [rev]; [constructor|].
  apply StronglySorted_snoc; [exact IH|].
  rewrite List.Forall_forall in *. intros y Hy. apply Hx.
  apply in_rev. exact Hy.
Qed.

Lemma insertionSort_func_orders {A : Type} (less : A -> A -> bool) (data : list A) :
  strict_weak_on less data ->
  StronglySorted (fun x y => less y x = false) (insertionSort_func less data).
Proof.
  intros (Hirr & Htrans & Hneg). unfold insertionSort_func.
  apply (StronglySorted_rev (fun u v => less u v = false)).
  apply (insertion_fold_orders less (fun x => In x data)); auto.
  - rewrite List.Forall_forall. auto.
  - constructor.
Qed.

(** [sort.Slice] on short slices. *)
#[export] Instance short_slices : SliceSorter := {|
  sort_Slice := @insertionSort_func;
  sort_Slice_permutes := fun A less l => insertionSort_func_permutes less l;
  sort_Slice_orders := @insertionSort_func_orders
|}.

(** ** The order of [float64] *)

Ltac float_cases x y :=
  destruct x as [[|]|[|]| |[|] ?m ?e], y as [[|]|[|]| |[|] ?m ?e];
  try discriminate;
  unfold ltb, leb, eqb, SFltb, SFleb, SFeqb, SFcompare, rank, lex_lt;
  cbn [is_nan negb];
  repeat match goal with
    | |- context [Z.compare ?a ?b] => destruct (Z.compare_spec a b)
    | |- context [Pos.compare_cont Eq ?a ?b] =>
        change (Pos.compare_cont Eq a b) with (Pos.compare a b);
        destruct (Pos.compare_spec a b)
    end;
  cbn [CompOpp].

Lemma ltb_lex (x y : float64) :
  is_nan x = false -> is_nan y = false ->
  (ltb x y = true <-> lex_lt (rank x) (rank y)).
Proof.
  intros Hx Hy. float_cases x y; split; intros Hgoal; try reflexivity;
    try discriminate; lia.
Qed.

Lemma leb_ltb (x y : float64) :
  is_nan x = false -> is_nan y = false -> leb x y = negb (ltb y x).
Proof.
  intros Hx Hy. float_cases x y; try reflexivity; lia.
Qed.

Lemma ltb_irreflexive (x : float64) : ltb x x = false.
Proof.
  destruct (is_nan x) eqn:Hx; [destruct x; try discriminate; reflexivity|].
  destruct (ltb x x) eqn:H; [|reflexivity].
  apply (ltb_lex x x Hx Hx) in H.
  destruct (rank x) as [[c e] m]. unfold lex_lt in H. lia.
Qed.

Lemma ltb_transitive (x y z : float64) :
  is_nan x = false -> is_nan y = false -> is_nan z = false ->
  ltb x y = true -> ltb y z = true -> ltb x z = true.
Proof.
  intros Hx Hy Hz Hxy Hyz.
  apply (ltb_lex x y Hx Hy) in Hxy. apply (ltb_lex y z Hy Hz) in Hyz.
  apply (ltb_lex x z Hx Hz).
  destruct (rank x) as [[c1 e1] m1], (rank y) as [[c2 e2] m2],
           (rank z) as [[c3 e3] m3].
  unfold lex_lt in *. lia.
Qed.

Lemma not_ltb_transitive (x y z : float64) :
  is_nan x = false -> is_nan y = false -> is_nan z = false ->
  ltb x y = false -> ltb y z = false -> ltb x z = false.
Proof.
  intros Hx Hy Hz Hxy Hyz.
  destruct (ltb x z) eqn:Hxz; [|reflexivity].
  apply (ltb_lex x z Hx Hz) in Hxz.
  assert (~ lex_lt (rank x) (rank y)) as Nxy
    by (rewrite <- (ltb_lex x y Hx Hy), Hxy; discriminate).
  assert (~ lex_lt (rank y) (rank z)) as Nyz
    by (rewrite <- (ltb_lex y z Hy Hz), Hyz; discriminate).
  destruct (rank x) as [[c1 e1] m1], (rank y) as [[c2 e2] m2],
           (rank z) as [[c3 e3] m3].
  unfold lex_lt in *. lia.
Qed.

Lemma by_score_strict_weak (l : list ScoredDocument.t) :
  (forall x, In x l -> is_nan (ScoredDocument.Score x) = false) ->
  strict_weak_on Retrieval.by_score_descending l.
Proof.
  intros Hnan. unfold strict_weak_on, Retrieval.by_score_descending.
  split; [|split].
  - intros x _. apply ltb_irreflexive.
  - intros x y z Hx Hy Hz Hxy Hyz.
    exact (ltb_transitive _ _ _ (Hnan z Hz) (Hnan y Hy) (Hnan x Hx) Hyz Hxy).
  - intros x y z Hx Hy Hz Hxy Hyz.
    exact (not_ltb_transitive _ _ _ (Hnan z Hz) (Hnan y Hy) (Hnan x Hx) Hyz Hxy).
Qed.

(** ** Retrieval *)

Import Model Machine Retrieval.

Lemma bind_returns {A B : Type} (m : Go A) (f : A -> Go B) (w w' : World) (a : A) :
  m w = Returns (a, w') -> (x ← m; f x) w = f a w'.
Proof. intros E. unfold mbind, Go_bind. rewrite E. reflexivity. Qed.

Lemma score_documents_from (queryVector : list float64) (docs : list Document) :
  forall (acc : list ScoredDocument.t) (w : World),
    for_range docs
      (fun scoredDocs doc =>
         s ← lift (cosineSimilarity queryVector (Vector doc));
         mret (scoredDocs ++ [{| ScoredDocument.Document := doc;
                                 ScoredDocument.Score := s |}]))
      acc w
    = Returns (acc ++ map (scored queryVector) docs, w).
Proof.
  induction docs as [|doc docs IH]; intros acc w; cbn [for_range map].
  - rewrite app_nil_r. reflexivity.
  - unfold mbind at 1, Go_bind at 1. unfold mbind at 1, Go_bind at 1.
    unfold lift. rewrite cosineSimilarity_returns.
    unfold mret, Go_ret. rewrite IH, <- app_assoc. reflexivity.
Qed.

Lemma score_documents_returns (queryVector : list float64) (docs : list Document)
    (w : World) :
  score_documents queryVector docs w = Returns (map (scored queryVector) docs, w).
Proof. unfold score_documents. rewrite score_documents_from. reflexivity. Qed.

Lemma in_firstn {A : Type} (n : nat) (l : list A) (x : A) :
  In x (firstn n l) -> In x l.
Proof.
  intros Hx. rewrite <- (firstn_skipn n l). apply in_or_app. left. exact Hx.
Qed.

Lemma StronglySorted_firstn {A : Type} (R : A -> A -> Prop) (n : nat) (l : list A) :
  StronglySorted R l -> StronglySorted R (firstn n l).
Proof.
  intros Hs. revert n. induction Hs as [|x l Hs IH Hx]; intros [|n];
    cbn [firstn]; try constructor.
  - apply IH.
  - rewrite List.Forall_forall in *. intros y Hy. apply Hx.
    exact (in_firstn _ _ _ Hy).
Qed.

Lemma StronglySorted_map {A B : Type} (f : A -> B) (R : A -> A -> Prop)
    (Q : B -> B -> Prop) (l : list A) :
  (forall x y, In x l -> In y l -> R x y -> Q (f x) (f y)) ->
  StronglySorted R l -> StronglySorted Q (map f l).
Proof.
  intros HRQ Hs. induction Hs as [|x l Hs IH Hx]; cbn [map]; constructor.
  - apply IH. intros u v Hu Hv. apply HRQ; right; assumption.
  - rewrite List.Forall_forall in *. intros y Hy.
    apply in_map_iff in Hy as (u & <- & Hu).
    apply HRQ; [left; reflexivity|right; exact Hu|exact (Hx u Hu)].
Qed.

Section Ranking.

Context `{SliceSorter}.
Variables (r : RAGChatbot) (queryVector : list float64).

Let docs := Documents (vectorStore r).
Let ranked := sort_Slice by_score_descending (map (scored queryVector) docs).

Lemma ranked_scored x : In x ranked -> exists d, In d docs /\ x = scored queryVector d.
Proof.
  intros Hx. unfold ranked in Hx.
  apply (Permutation_in _ (Permutation_sym (sort_Slice_permutes _ _ _))) in Hx.
  apply in_map_iff in Hx as (d & <- & Hd). eauto.
Qed.

Lemma ranked_length : length ranked = length docs.
Proof.
  unfold ranked. rewrite <- (Permutation_length (sort_Slice_permutes _ _ _)).
  apply length_map.
Qed.

Lemma ranked_documents : Permutation docs (map ScoredDocument.Document ranked).
Proof.
  unfold ranked. rewrite <- (sort_Slice_permutes _ by_score_descending).
  rewrite map_map. cbn [scored ScoredDocument.Document]. rewrite map_id.
  reflexivity.
Qed.

Hypothesis no_nan : forall d, In d docs -> is_nan (similarity queryVector d) = false.

Lemma ranked_ordered :
  StronglySorted
    (fun x y => leb (ScoredDocument.Score y) (ScoredDocument.Score x) = true) ranked.
Proof using no_nan.
  assert (forall x, In x (map (scored queryVector) docs) ->
                    is_nan (ScoredDocument.Score x) = false) as Hnan.
  { intros x Hx. apply in_map_iff in Hx as (d & <- & Hd). exact (no_nan d Hd). }
  pose proof (sort_Slice_orders _ _ _ (by_score_strict_weak _ Hnan)) as Hs.
  fold ranked in Hs.
  assert (forall x, In x ranked -> is_nan (ScoredDocument.Score x) = false) as Hr.
  { intros x Hx. apply ranked_scored in Hx as (d & Hd & ->). exact (no_nan d Hd). }
  clear Hnan. induction Hs as [|x l Hs IH Hx]; constructor.
  - apply IH. intros y Hy. apply Hr. right. exact Hy.
  - rewrite List.Forall_forall in *. intros y Hy.
    rewrite leb_ltb by (apply Hr; first [left; reflexivity|right; exact Hy]).
    specialize (Hx y Hy). unfold by_score_descending in Hx.
    rewrite Hx. reflexivity.
Qed.

End Ranking.

Lemma SearchSimilar_embedding_error `{SliceSorter} (r : RAGChatbot) (query : string)
    (topK : Z) (err : error) (w w' : World) :
  GetEmbedding r query w = Returns (Err err, w') ->
  SearchSimilar r query topK w = Returns (Err err, w').
Proof. intros E. unfold SearchSimilar. rewrite (bind_returns _ _ _ _ _ E). reflexivity. Qed.

(** What [SearchSimilar] returns once the query is embedded. *)
Lemma SearchSimilar_returns `{SliceSorter} (r : RAGChatbot) (query : string)
    (topK : Z) (queryVector : list float64) (w w' : World) :
  GetEmbedding r query w = Returns (Ok queryVector, w') ->
  SearchSimilar r query topK w
  = Returns
      (Ok (map ScoredDocument.Document
             (firstn (Z.to_nat (Z.min topK (Z.of_nat (length (Documents (vectorStore r))))))
                (sort_Slice by_score_descending
                   (map (scored queryVector) (Documents (vectorStore r)))))),
       w').
Proof.
  intros E. unfold SearchSimilar. rewrite (bind_returns _ _ _ _ _ E).
  rewrite (bind_returns _ _ _ _ _ (score_documents_returns _ _ _)).
  unfold mret, Go_ret. do 4 f_equal. rewrite (ranked_length r queryVector). f_equal.
  destruct (Z.gtb_spec topK (Z.of_nat (length (Documents (vectorStore r))))); lia.
Qed.

(** C2, as the code has it.  Once the query is embedded, and provided no
    stored document scores NaN against it, [SearchSimilar] returns documents
    in order of non-increasing score: at most [topK] of them for a
    non-negative [topK], and all the stored ones when [topK] is at least
    their number. *)
Theorem SearchSimilar_ranked `{SliceSorter} (r : RAGChatbot) (query : string)
    (topK : Z) (queryVector : list float64) (w w' : World) :
  GetEmbedding r query w = Returns (Ok queryVector, w') ->
  (forall d, In d (Documents (vectorStore r)) ->
             is_nan (similarity queryVector d) = false) ->
  exists results,
    SearchSimilar r query topK w = Returns (Ok results, w')
    /\ (0 <= topK -> Z.of_nat (length results) <= topK)
    /\ StronglySorted
         (fun d1 d2 => leb (similarity queryVector d2) (similarity queryVector d1) = true)
         results
    /\ (Z.of_nat (length (Documents (vectorStore r))) <= topK ->
        Permutation (Documents (vectorStore r)) results).
Proof.
  intros E Hnan. eexists. split; [exact (SearchSimilar_returns r query topK _ w w' E)|].
  split; [|split].
  - intros Hk. rewrite length_map, length_firstn, (ranked_length r queryVector). lia.
  - apply (StronglySorted_map ScoredDocument.Document
             (fun x y => leb (ScoredDocument.Score y) (ScoredDocument.Score x) = true)).
    + intros x y Hx Hy Hxy.
      apply in_firstn, ranked_scored in Hx as (dx & _ & ->).
      apply in_firstn, ranked_scored in Hy as (dy & _ & ->). exact Hxy.
    + apply StronglySorted_firstn, ranked_ordered. exact Hnan.
  - intros Hall. rewrite Z.min_r, Nat2Z.id by exact Hall.
    rewrite <- (ranked_length r queryVector), firstn_all.
    apply ranked_documents.
Qed.

Lemma SearchSimilar_ranked_witness :
  exists results,
    SearchSimilar (bot_of three_documents) "est?" 2
      (world_of (constant_service [of_Z 1; of_Z 0]))
    = Returns (Ok results,
               with_calls (world_of (constant_service [of_Z 1; of_Z 0]))
                 [Post "http://localhost:11434/api/embed"
                    (EmbedBody {| EmbeddingRequest.Model := "nomic-embed-text";
                                  EmbeddingRequest.Input := "est?" |})])
    /\ (0 <= 2 -> Z.of_nat (length results) <= 2)
    /\ StronglySorted
         (fun d1 d2 => leb (similarity [of_Z 1; of_Z 0] d2)
                           (similarity [of_Z 1; of_Z 0] d1) = true)
         results
    /\ (Z.of_nat (length (Documents (vectorStore (bot_of three_documents)))) <= 2 ->
        Permutation (Documents (vectorStore (bot_of three_documents))) results).
Proof.
  apply (SearchSimilar_ranked (bot_of three_documents) "est?" 2 [of_Z 1; of_Z 0]).
  - reflexivity.
  - intros d [<-|[<-|[<-|[]]]]; vm_compute; reflexivity.
Defined.

(** C2 as stated fails twice.  A query and a stored vector with large
    finite components overflow to a NaN score, which [sort.Slice] cannot
    order: the document scoring -1 is returned first and the one scoring 1
    last.  And a negative [topK] returns no document, which is more than
    [topK]. *)
Lemma SearchSimilar_not_ranked :
  (exists w',
     SearchSimilar (bot_of overflowing_documents) "q" 3
       (world_of (constant_service [of_Z (10 ^ 150)]))
     = Returns (Ok overflowing_documents, w')
     /\ is_nan (similarity [of_Z (10 ^ 150)] (document_of "huge" [of_Z (10 ^ 200)])) = true
     /\ similarity [of_Z (10 ^ 150)] (document_of "opposite" [of_Z (-1)]) = of_Z (-1)
     /\ similarity [of_Z (10 ^ 150)] (document_of "aligned" [of_Z 1]) = of_Z 1
     /\ leb (of_Z 1) (of_Z (-1)) = false)
  /\ (exists w',
        SearchSimilar (bot_of three_documents) "q" (-1)
          (world_of (constant_service [of_Z 1; of_Z 0]))
        = Returns (Ok [], w')
        /\ ~ (Z.of_nat (length (@nil Document)) <= -1)).
Proof.
  split; eexists; (split; [vm_compute; reflexivity|]).
  - repeat split; vm_compute; reflexivity.
  - cbn [length Z.of_nat]. lia.
Qed.

(** ** Answering *)

Lemma GetEmbedding_total (r : RAGChatbot) (text : string) (w : World) :
  exists res,
    GetEmbedding r text w
    = Returns (res,
               with_calls w
                 (calls w ++ [Post (ollamaBaseURL r +:+ "/api/embed")
                                (EmbedBody {| EmbeddingRequest.Model := embedModel r;
                                              EmbeddingRequest.Input := text |})])).
Proof.
  unfold GetEmbedding, mbind, Go_bind, post_embed.
  destruct (embed _ _ _ _) as [e|e|[[|first rest]]]; eexists; reflexivity.
Qed.

Lemma SearchSimilar_total `{SliceSorter} (r : RAGChatbot) (query : string) (topK : Z)
    (w : World) :
  exists found w1,
    SearchSimilar r query topK w = Returns (found, w1)
    /\ match found with
       | Ok docs =>
           length docs
           = Z.to_nat (Z.min topK (Z.of_nat (length (Documents (vectorStore r)))))
       | Err _ => True
       end.
Proof.
  destruct (GetEmbedding_total r query w) as [[queryVector|err] E].
  - rewrite (SearchSimilar_returns r query topK queryVector _ _ E).
    eexists _, _. split; [reflexivity|]. cbv beta iota.
    rewrite length_map, length_firstn, (ranked_length r queryVector). lia.
  - rewrite (SearchSimilar_embedding_error r query topK err _ _ E).
    eexists _, _. split; [reflexivity|exact I].
Qed.

Lemma GenerateResponse_total (r : RAGChatbot) (question : string)
    (context : list Document) (w : World) :
  exists generated,
    GenerateResponse r question context w
    = Returns (generated,
               with_calls w (calls w ++ [generate_request r question context])).
Proof.
  unfold GenerateResponse, mbind, Go_bind, post_generate.
  destruct (generate _ _ _ _) as [e|e|response]; eexists; reflexivity.
Qed.

(** C8. On an index without documents [Chat] returns the fixed message,
    no source and no error, and leaves the world as it was: in particular
    it calls the service for no embedding and no generation. *)
Theorem Chat_empty_index `{SliceSorter} (r : RAGChatbot) (question : string)
    (w : World) :
  Documents (vectorStore r) = [] ->
  Chat r question w
  = Returns (("Per favore, carica prima un documento PDF.", [], None), w).
Proof. intros Hempty. unfold Chat. rewrite Hempty. reflexivity. Qed.

Lemma Chat_empty_index_witness :
  Chat NewRAGChatbot "Di cosa parla il documento?"
    (world_of (constant_service [of_Z 1]))
  = Returns (("Per favore, carica prima un documento PDF.", [], None),
             world_of (constant_service [of_Z 1])).
Proof.
  exact (Chat_empty_index NewRAGChatbot "Di cosa parla il documento?"
           (world_of (constant_service [of_Z 1])) eq_refl).
Defined.

(** C10. On an index with documents [Chat] always retrieves with [topK]
    equal to 4: it returns the error of the retrieval, or it has at most
    four documents, asks the service for one generation whose prompt is
    built from exactly those, and returns the answer with them (or the
    error of the generation). *)
Theorem Chat_retrieves_four `{SliceSorter} (r : RAGChatbot) (question : string)
    (w : World) :
  Documents (vectorStore r) <> [] ->
  exists found w1,
    SearchSimilar r question 4 w = Returns (found, w1)
    /\ match found with
       | Err err => Chat r question w = Returns (("", [], Some err), w1)
       | Ok similarDocs =>
           (length similarDocs <= 4)%nat
           /\ length similarDocs = Nat.min 4 (length (Documents (vectorStore r)))
           /\ exists generated,
                GenerateResponse r question similarDocs w1
                = Returns (generated,
                           with_calls w1
                             (calls w1 ++ [generate_request r question similarDocs]))
                /\ Chat r question w
                   = Returns (match generated with
                              | Err err => ("", [], Some err)
                              | Ok answer => (answer, similarDocs, None)
                              end,
                              with_calls w1
                                (calls w1 ++ [generate_request r question similarDocs]))
       end.
Proof.
  intros Hdocs.
  destruct (SearchSimilar_total r question 4 w) as (found & w1 & E & Hlen).
  exists found, w1. split; [exact E|].
  unfold Chat.
  destruct (Z.eqb_spec (Z.of_nat (length (Documents (vectorStore r)))) 0) as [Hz|_].
  { destruct (Documents (vectorStore r)); [contradiction|discriminate]. }
  rewrite (bind_returns _ _ _ _ _ E).
  destruct found as [similarDocs|err]; [|reflexivity].
  split; [lia|]. split; [lia|].
  destruct (GenerateResponse_total r question similarDocs w1) as [generated G].
  exists generated. split; [exact G|].
  rewrite (bind_returns _ _ _ _ _ G). destruct generated; reflexivity.
Qed.

Lemma Chat_retrieves_four_witness :
  exists found w1,
    SearchSimilar (bot_of three_documents) "est?" 4
      (world_of (constant_service [of_Z 1; of_Z 0])) = Returns (found, w1)
    /\ match found with
       | Err err =>
           Chat (bot_of three_documents) "est?"
             (world_of (constant_service [of_Z 1; of_Z 0]))
           = Returns (("", [], Some err), w1)
       | Ok similarDocs =>
           (length similarDocs <= 4)%nat
           /\ length similarDocs
              = Nat.min 4 (length (Documents (vectorStore (bot_of three_documents))))
           /\ exists generated,
                GenerateResponse (bot_of three_documents) "est?" similarDocs w1
                = Returns (generated,
                           with_calls w1
                             (calls w1 ++ [generate_request (bot_of three_documents)
                                             "est?" similarDocs]))
                /\ Chat (bot_of three_documents) "est?"
                     (world_of (constant_service [of_Z 1; of_Z 0]))
                   = Returns (match generated with
                              | Err err => ("", [], Some err)
                              | Ok answer => (answer, similarDocs, None)
                              end,
                              with_calls w1
                                (calls w1 ++ [generate_request (bot_of three_documents)
                                                "est?" similarDocs]))
       end.
Proof.
  apply (Chat_retrieves_four (bot_of three_documents) "est?"
           (world_of (constant_service [of_Z 1; of_Z 0]))).
  discriminate.
Defined.

(** With five documents stored, four come back. *)
Example Chat_five_documents :
  exists answer sources w',
    Chat (bot_of (document_of "south" [of_Z 0; of_Z (-1)]
                  :: document_of "west" [of_Z (-1); of_Z 0] :: three_documents))
      "est?" (world_of (constant_service [of_Z 1; of_Z 0]))
    = Returns ((answer, sources, None), w')
    /\ map ID sources = ["east"; "north-east"; "south"; "north"]
    /\ length (calls w') = 2%nat.
Proof. eexists _, _, _. vm_compute. repeat split. Qed.

(** ** Ingestion *)

Import Cleanup Ingestion.

Lemma for_range_invariant {A S : Type} (P : S -> World -> Prop) (xs : list A)
    (body : S -> A -> Go S) :
  (forall s w x, In x xs -> P s w ->
                 exists s' w', body s x w = Returns (s', w') /\ P s' w') ->
  forall s w, P s w ->
              exists s' w', for_range xs body s w = Returns (s', w') /\ P s' w'.
Proof.
  induction xs as [|x xs IH]; intros Hbody s w HP; cbn [for_range].
  - exists s, w. split; [reflexivity|exact HP].
  - destruct (Hbody s w x (or_introl eq_refl) HP) as (s1 & w1 & E & HP1).
    rewrite (bind_returns _ _ _ _ _ E).
    apply IH; [|exact HP1].
    intros s2 w2 y Hy. apply Hbody. right. exact Hy.
Qed.

Lemma GetEmbedding_finite (r : RAGChatbot) (text : string) (w : World) :
  finite_service (service w) ->
  exists res cs,
    GetEmbedding r text w = Returns (res, with_calls w cs)
    /\ match res with
       | Ok vector => Forall (fun x => is_finite x = true) vector
       | Err _ => True
       end.
Proof.
  intros Hfin. unfold GetEmbedding, mbind, Go_bind, post_embed.
  destruct (embed _ _ _ _) as [e|e|[[|first rest]]] eqn:E;
    eexists _, _; (split; [reflexivity|]); try exact I.
  specialize (Hfin _ _ _ _ E). cbn [Embeddings] in Hfin.
  apply Forall_cons_iff in Hfin as [Hfirst _]. exact Hfirst.
Qed.

Lemma ingest_chunk_keeps (r0 : RAGChatbot) (w0 : World) (docID : string)
    (page : Z) (chunk : string) (r : RAGChatbot) (w : World) :
  finite_service (service w0) ->
  ingesting r0 w0 r w ->
  exists r' w', ingest_chunk docID page chunk r w = Returns (r', w')
                /\ ingesting r0 w0 r' w'.
Proof.
  intros Hfin (Hcfg & Hvec & cs & ->). unfold ingest_chunk.
  destruct (len (TrimSpace chunk) <? 20).
  { eexists _, _. split; [reflexivity|]. split; [exact Hcfg|]. split; eauto. }
  destruct (GetEmbedding_finite r chunk (with_calls w0 cs) Hfin)
    as ([vector|err] & cs' & E & Hres); rewrite (bind_returns _ _ _ _ _ E).
  - eexists _, _. split; [reflexivity|]. split; [exact Hcfg|]. split.
    + cbn [with_Documents with_store vectorStore Documents].
      apply Forall_app. split; [exact Hvec|]. constructor; [exact Hres|constructor].
    + exists cs'. reflexivity.
  - eexists _, _. split; [reflexivity|]. split; [exact Hcfg|]. split; [exact Hvec|].
    exists cs'. reflexivity.
Qed.

(** With the sizes of the ingestion [ChunkText] returns on every Go
    string. *)
Lemma ChunkText_300_50_returns (text : string) :
  len text <= max_int -> exists chunks, ChunkText text 300 50 = Returns chunks.
Proof.
  intros Hlen. destruct (Z_le_gt_dec (Z.of_nat (length (Fields text))) 300) as [Hw|Hw].
  - eexists. apply ChunkText_short. exact Hw.
  - eexists. apply ChunkText_long; [exact Hlen|lia|lia].
Qed.

Lemma ingest_page_keeps (r0 : RAGChatbot) (w0 : World) (pageNum : Z)
    (pageText : string) (r : RAGChatbot) (w : World) :
  finite_service (service w0) ->
  len pageText <= max_int ->
  ingesting r0 w0 r w ->
  exists r' w', ingest_page r (pageNum, pageText) w = Returns (r', w')
                /\ ingesting r0 w0 r' w'.
Proof.
  intros Hfin Hlen Hinv. unfold ingest_page.
  destruct (ChunkText_300_50_returns pageText Hlen) as [chunks E].
  unfold mbind at 1, Go_bind at 1, lift. rewrite E.
  apply (for_range_invariant (ingesting r0 w0)); [|exact Hinv].
  intros r1 w1 [chunkIdx chunk] _ Hinv1.
  apply (ingest_chunk_keeps r0 w0); assumption.
Qed.

Lemma extract_pages_cleaned `{UnicodeTables} (reader : list pdf_page) :
  forall pages page,
    In page (extract_pages reader pages) ->
    In page pages \/ exists content, In (PageText content) reader
                                     /\ page = cleanText content.
Proof.
  induction reader as [|[|e|content] reader IH]; intros pages page Hin;
    cbn [extract_pages] in Hin.
  - left. exact Hin.
  - destruct (IH _ _ Hin) as [Hp|(c & Hc & ->)]; [left; exact Hp|].
    right. exists c. split; [right; exact Hc|reflexivity].
  - destruct (IH _ _ Hin) as [Hp|(c & Hc & ->)]; [left; exact Hp|].
    right. exists c. split; [right; exact Hc|reflexivity].
  - destruct (len (cleanText content) >? 50).
    + destruct (IH _ _ Hin) as [Hp|(c & Hc & ->)].
      * apply in_app_or in Hp as [Hp|[<-|[]]]; [left; exact Hp|].
        right. exists content. split; [left; reflexivity|reflexivity].
      * right. exists c. split; [right; exact Hc|reflexivity].
    + destruct (IH _ _ Hin) as [Hp|(c & Hc & ->)]; [left; exact Hp|].
      right. exists c. split; [right; exact Hc|reflexivity].
Qed.

Lemma enumerate_from_snd {A : Type} (xs : list A) :
  forall (i : Z) (p : Z * A), In p (enumerate_from i xs) -> In (snd p) xs.
Proof.
  induction xs as [|x xs IH]; intros i p Hp; cbn [enumerate_from] in Hp; [exact Hp|].
  destruct Hp as [<-|Hp]; [left; reflexivity|right; exact (IH _ _ Hp)].
Qed.

Lemma encode_all_floats (v : list float64) :
  Forall (fun x => is_finite x = true) v ->
  Codec.encode_all Codec.encode_float v
  = Ok (map (fun x => Json.Number (Codec.number_of_float x)) v).
Proof.
  induction 1 as [|x v Hx _ IH]; cbn [Codec.encode_all map]; [reflexivity|].
  rewrite IH. destruct x as [s|s| |s m e]; try discriminate; reflexivity.
Qed.

Lemma encode_all_Documents (docs : list Document) :
  finite_vectors docs ->
  Codec.encode_all Codec.encode_Document docs = Ok (map Document_value docs).
Proof.
  induction 1 as [|d docs Hd _ IH]; cbn [Codec.encode_all map]; [reflexivity|].
  unfold Codec.encode_Document at 1. rewrite (encode_all_floats _ Hd), IH.
  reflexivity.
Qed.

Lemma MarshalIndent_finite (vs : VectorStore) :
  finite_vectors (Documents vs) ->
  Codec.MarshalIndent vs = Ok (VectorStore_text vs).
Proof.
  intros Hfin. unfold Codec.MarshalIndent.
  rewrite (encode_all_Documents _ Hfin). reflexivity.
Qed.

(** Saving a store of finite numbers fails exactly on a path that cannot
    be written. *)
Lemma SaveVectorStore_finite (r : RAGChatbot) (w : World) :
  finite_vectors (Documents (vectorStore r)) ->
  SaveVectorStore r w
  = if bool_decide (dbPath r ∈ read_only w)
    then Returns (Some ("open " +:+ dbPath r +:+ ": permission denied"), w)
    else Returns (None, with_json_files w
                          (<[dbPath r := VectorStore_text (vectorStore r)]>
                             (json_files w))).
Proof.
  intros Hfin. unfold SaveVectorStore.
  rewrite (MarshalIndent_finite _ Hfin). reflexivity.
Qed.

Lemma ingesting_start (r : RAGChatbot) (w : World) :
  ingesting r w (with_Documents r []) w.
Proof.
  split; [repeat split|]. split; [constructor|].
  exists (calls w). destruct w; reflexivity.
Qed.

Lemma ExtractTextFromPDF_opened `{UnicodeTables} (r : RAGChatbot) (filename : string)
    (reader : list pdf_page) (w : World) :
  pdf_files w !! filename = Some reader ->
  ExtractTextFromPDF r filename w = Returns (Ok (extract_pages reader []), w).
Proof.
  intros Hopen. unfold ExtractTextFromPDF, mbind, Go_bind, pdf_Open.
  rewrite Hopen. reflexivity.
Qed.

(** [ProcessPDF] on a file that opens: the pages are ingested, whatever
    the service answers, and the error is that of saving. *)
Lemma ProcessPDF_opened `{UnicodeTables} (r : RAGChatbot) (filename : string)
    (reader : list pdf_page) (w : World) :
  finite_service (service w) ->
  pdf_files w !! filename = Some reader ->
  (forall content, In (PageText content) reader -> len (cleanText content) <= max_int) ->
  exists r1 cs,
    same_config r r1
    /\ finite_vectors (Documents (vectorStore r1))
    /\ ModelName (vectorStore r1) = embedModel r
    /\ ProcessPDF r filename w
       = (err ← SaveVectorStore r1; mret (r1, err)) (with_calls w cs).
Proof.
  intros Hfin Hopen Hlen. unfold ProcessPDF.
  rewrite (bind_returns _ _ _ _ _ (ExtractTextFromPDF_opened r filename reader w Hopen)).
  destruct (for_range_invariant (ingesting r w)
              (enumerate_from 0 (extract_pages reader [])) ingest_page) with
    (s := with_Documents r []) (w := w) as (r1 & w1 & E & Hcfg & Hvec & cs & ->).
  - intros r2 w2 [pageNum pageText] Hin Hinv.
    apply (ingest_page_keeps r w); [exact Hfin| |exact Hinv].
    apply enumerate_from_snd in Hin. cbn [snd] in Hin.
    apply extract_pages_cleaned in Hin as [[]|(content & Hc & ->)].
    exact (Hlen content Hc).
  - apply ingesting_start.
  - exists (with_ModelName r1 (embedModel r1)), cs.
    rewrite (bind_returns _ _ _ _ _ E).
    destruct Hcfg as (Hurl & Hembed & Hchat & Hdb).
    split; [repeat split; assumption|]. split; [exact Hvec|].
    split; [exact Hembed|reflexivity].
Qed.

Lemma ProcessTXT_read `{UnicodeTables} (r : RAGChatbot) (filename : string)
    (text : string) (w : World) :
  finite_service (service w) ->
  text_files w !! filename = Some text ->
  len (cleanText text) <= max_int ->
  50 <= len (TrimSpace (cleanText text)) ->
  exists r1 cs,
    same_config r r1
    /\ finite_vectors (Documents (vectorStore r1))
    /\ ModelName (vectorStore r1) = embedModel r
    /\ ProcessTXT r filename w
       = (err ← SaveVectorStore r1; mret (r1, err)) (with_calls w cs).
Proof.
  intros Hfin Hread Hlen Hlong. unfold ProcessTXT.
  unfold mbind at 1, Go_bind at 1, os_ReadFile_text. rewrite Hread.
  rewrite (proj2 (Z.ltb_ge _ _) Hlong).
  destruct (ChunkText_300_50_returns _ Hlen) as [chunks Echunks].
  unfold mbind at 1, Go_bind at 1, lift. rewrite Echunks.
  destruct (for_range_invariant (ingesting r w) (enumerate_from 0 chunks)
              (fun r '(chunkIdx, chunk) =>
                 ingest_chunk ("txt_chunk_" +:+ pretty chunkIdx +:+ "_"
                               +:+ fingerprint chunk) 1 chunk r))
    with (s := with_Documents r []) (w := w)
    as (r1 & w1 & E & Hcfg & Hvec & cs & ->).
  - intros r2 w2 [chunkIdx chunk] _ Hinv.
    apply (ingest_chunk_keeps r w); assumption.
  - apply ingesting_start.
  - exists (with_ModelName r1 (embedModel r1)), cs.
    rewrite (bind_returns _ _ _ _ _ E).
    destruct Hcfg as (Hurl & Hembed & Hchat & Hdb).
    split; [repeat split; assumption|]. split; [exact Hvec|].
    split; [exact Hembed|reflexivity].
Qed.

Lemma ExtractTextFromPDF_not_opened `{UnicodeTables} (r : RAGChatbot)
    (filename : string) (w : World) :
  pdf_files w !! filename = None ->
  ExtractTextFromPDF r filename w
  = Returns (Err ("errore apertura PDF: " +:+ "open " +:+ filename), w).
Proof.
  intros Hopen. unfold ExtractTextFromPDF, mbind, Go_bind, pdf_Open.
  rewrite Hopen. reflexivity.
Qed.

Lemma ProcessPDF_not_opened `{UnicodeTables} (r : RAGChatbot) (filename : string)
    (w : World) :
  pdf_files w !! filename = None ->
  ProcessPDF r filename w
  = Returns ((r, Some ("errore apertura PDF: " +:+ "open " +:+ filename)), w).
Proof.
  intros Hopen. unfold ProcessPDF.
  rewrite (bind_returns _ _ _ _ _ (ExtractTextFromPDF_not_opened r filename w Hopen)).
  reflexivity.
Qed.

(** C6. When the PDF cannot be opened, extraction fails and [ProcessPDF]
    returns that failure; the chatbot, with the documents and the model name
    of its store, and the world, with its files and the calls made to the
    service, are as they were before the call. *)
Theorem ProcessPDF_extraction_failure `{UnicodeTables} (r : RAGChatbot)
    (filename : string) (w : World) :
  pdf_files w !! filename = None ->
  exists err,
    ExtractTextFromPDF r filename w = Returns (Err err, w)
    /\ ProcessPDF r filename w = Returns ((r, Some err), w).
Proof.
  intros Hopen. eexists. split.
  - exact (ExtractTextFromPDF_not_opened r filename w Hopen).
  - exact (ProcessPDF_not_opened r filename w Hopen).
Qed.

(** C5, as the code has it.  With a service that sends finite numbers and
    texts that are Go strings, [ProcessPDF] returns an error exactly when
    the PDF cannot be opened or the store cannot be written, and
    [ProcessTXT] exactly when the file cannot be read, or its cleaned text
    is shorter than 50 bytes, or the store cannot be written; whatever the
    service answers to the embedding requests, they return. *)
Theorem ingestion_failures `{UnicodeTables} (r : RAGChatbot)
    (filename : string) (w : World) :
  finite_service (service w) ->
  (forall reader content,
     pdf_files w !! filename = Some reader -> In (PageText content) reader ->
     len (cleanText content) <= max_int) ->
  (forall text, text_files w !! filename = Some text ->
                len (cleanText text) <= max_int) ->
  (exists r' err w',
     ProcessPDF r filename w = Returns ((r', err), w')
     /\ (err <> None <->
         pdf_files w !! filename = None \/ dbPath r ∈ read_only w))
  /\ (exists r' err w',
        ProcessTXT r filename w = Returns ((r', err), w')
        /\ (err <> None <->
            text_files w !! filename = None
            \/ (exists text, text_files w !! filename = Some text
                             /\ len (TrimSpace (cleanText text)) < 50)
            \/ dbPath r ∈ read_only w)).
Proof.
  intros Hfin Hpdf Htxt. split.
  - destruct (pdf_files w !! filename) as [reader|] eqn:Hopen.
    + destruct (ProcessPDF_opened r filename reader w Hfin Hopen
                  (fun content => Hpdf reader content eq_refl))
        as (r1 & cs & (_ & _ & _ & Hdb) & Hvec & _ & ->).
      unfold mbind, Go_bind. rewrite (SaveVectorStore_finite _ _ Hvec), Hdb.
      cbn [read_only with_calls].
      destruct (bool_decide_reflect (dbPath r ∈ read_only w)) as [Hro|Hro];
        eexists _, _, _; (split; [reflexivity|]).
      * split; [intros _; right; exact Hro|discriminate].
      * split; [congruence|intros [?|?]; [discriminate|contradiction]].
    + rewrite (ProcessPDF_not_opened r filename w Hopen).
      eexists _, _, _. split; [reflexivity|].
      split; [intros _; left; reflexivity|discriminate].
  - destruct (text_files w !! filename) as [text|] eqn:Hread.
    + destruct (Z_lt_le_dec (len (TrimSpace (cleanText text))) 50) as [Hshort|Hlong].
      * unfold ProcessTXT, mbind, Go_bind, os_ReadFile_text. rewrite Hread.
        rewrite (proj2 (Z.ltb_lt _ _) Hshort).
        eexists _, _, _. split; [reflexivity|].
        split; [intros _; right; left; eauto|discriminate].
      * destruct (ProcessTXT_read r filename text w Hfin Hread (Htxt text eq_refl) Hlong)
          as (r1 & cs & (_ & _ & _ & Hdb) & Hvec & _ & ->).
        unfold mbind, Go_bind. rewrite (SaveVectorStore_finite _ _ Hvec), Hdb.
        cbn [read_only with_calls].
        destruct (bool_decide_reflect (dbPath r ∈ read_only w)) as [Hro|Hro];
          eexists _, _, _; (split; [reflexivity|]).
        -- split; [intros _; right; right; exact Hro|discriminate].
        -- split; [congruence|].
           intros [?|[(t & Ht & Hlt)|?]]; [discriminate| |contradiction].
           injection Ht as <-. lia.
    + unfold ProcessTXT, mbind, Go_bind, os_ReadFile_text. rewrite Hread.
      eexists _, _, _. split; [reflexivity|].
      split; [intros _; left; reflexivity|discriminate].
Qed.

(** *** Examples of ingestion *)

(** The digests of RFC 1321. *)
Example MD5_test_suite :
  hex (MD5.Sum "") = "d41d8cd98f00b204e9800998ecf8427e"%string
  /\ hex (MD5.Sum "a") = "0cc175b9c0f1b6a831c399e269772661"%string
  /\ hex (MD5.Sum "abc") = "900150983cd24fb0d6963f7d28e17f72"%string
  /\ hex (MD5.Sum "message digest") = "f96b697d7cb7938d525a2f31aaf161d0"%string.
Proof. repeat split; vm_compute; reflexivity. Qed.

Lemma constant_service_finite (v : list float64) :
  Forall (fun x => is_finite x = true) v -> finite_service (constant_service v).
Proof.
  intros Hv cs url req resp E. injection E as <-.
  constructor; [exact Hv|constructor].
Qed.

(** A PDF with one page long enough: one document, saved. *)
Example ProcessPDF_library :
  exists r' w',
    ProcessPDF NewRAGChatbot "libro.pdf" library_world = Returns ((r', None), w')
    /\ Documents (vectorStore r')
       = [{| ID := "page_1_chunk_0_c7a59ac3"; Content := long_page; Page := 1;
             Vector := [of_Z 3; of_Z 4] |}]
    /\ ModelName (vectorStore r') = "nomic-embed-text"%string
    /\ json_files w' !! "vectorstore.json"%string
       = Some (VectorStore_text (vectorStore r')).
Proof.
  eexists _, _. split; [vm_compute; reflexivity|].
  repeat split; vm_compute; reflexivity.
Qed.

(** The scenario of the specification: two pages of ten words each give
    two documents, one per page, on pages 1 and 2. *)
Example ProcessPDF_two_pages :
  exists r' w',
    ProcessPDF NewRAGChatbot "due.pdf"
      (with_pdf (world_of (constant_service [of_Z 3; of_Z 4])) "due.pdf"
         [PageText "primo secondo terzo quarto quinto sesto settimo ottavo nono decimo";
          PageText "dieci nove otto sette sei cinque quattro tre due uno, e poi basta"])
    = Returns ((r', None), w')
    /\ map (fun d => (Page d, length (Fields (Content d)))) (Documents (vectorStore r'))
       = [(1, 10%nat); (2, 13%nat)]
    /\ length (calls w') = 2%nat.
Proof.
  eexists _, _. split; [vm_compute; reflexivity|].
  split; vm_compute; reflexivity.
Qed.

Lemma ProcessPDF_extraction_failure_witness :
  exists err,
    ExtractTextFromPDF (bot_of three_documents) "assente.pdf" library_world
    = Returns (Err err, library_world)
    /\ ProcessPDF (bot_of three_documents) "assente.pdf" library_world
       = Returns ((bot_of three_documents, Some err), library_world).
Proof.
  apply (ProcessPDF_extraction_failure (bot_of three_documents) "assente.pdf"
           library_world).
  vm_compute. reflexivity.
Defined.

Lemma ingestion_failures_witness :
  (exists r' err w',
     ProcessPDF NewRAGChatbot "libro.pdf" library_world = Returns ((r', err), w')
     /\ (err <> None <->
         pdf_files library_world !! "libro.pdf"%string = None
         \/ dbPath NewRAGChatbot ∈ read_only library_world))
  /\ (exists r' err w',
        ProcessTXT NewRAGChatbot "libro.pdf" library_world = Returns ((r', err), w')
        /\ (err <> None <->
            text_files library_world !! "libro.pdf"%string = None
            \/ (exists text, text_files library_world !! "libro.pdf"%string = Some text
                             /\ len (TrimSpace (cleanText text)) < 50)
            \/ dbPath NewRAGChatbot ∈ read_only library_world)).
Proof.
  apply (ingestion_failures NewRAGChatbot "libro.pdf" library_world).
  - apply constant_service_finite. repeat constructor.
  - intros reader content Hreader Hin. vm_compute in Hreader.
    injection Hreader as <-.
    destruct Hin as [Hin|[Hin|[Hin|[Hin|[]]]]]; try discriminate;
      injection Hin as <-; vm_compute; discriminate.
  - intros text Htext. vm_compute in Htext. discriminate.
Defined.

(** C5 as stated fails in both directions.  A PDF whose only page cleans
    to fewer than 50 bytes is ingested without error, into an empty store;
    a PDF that is read and long enough gives an error when the store
    cannot be written; and the length that [ProcessTXT] tests counts bytes:
    a text of 49 characters that takes 50 bytes is ingested. *)
Lemma ingestion_failures_not_as_stated :
  (exists r' w',
     ProcessPDF NewRAGChatbot "breve.pdf"
       (with_pdf (world_of (constant_service [of_Z 3; of_Z 4])) "breve.pdf"
          [PageText "ciao"])
     = Returns ((r', None), w')
     /\ len (cleanText "ciao") = 4
     /\ Documents (vectorStore r') = [])
  /\ (exists r' err w',
        ProcessPDF NewRAGChatbot "libro.pdf"
          (with_read_only library_world "vectorstore.json")
        = Returns ((r', Some err), w')
        /\ ExtractTextFromPDF NewRAGChatbot "libro.pdf"
             (with_read_only library_world "vectorstore.json")
           = Returns (Ok [long_page], with_read_only library_world "vectorstore.json")
        /\ len (cleanText long_page) = 66)
  /\ (exists r' w',
        ProcessTXT NewRAGChatbot "nota.txt"
          (with_text (world_of (constant_service [of_Z 3; of_Z 4])) "nota.txt"
             forty_nine_characters)
        = Returns ((r', None), w')
        /\ length (runes (cleanText forty_nine_characters)) = 49%nat
        /\ len (TrimSpace (cleanText forty_nine_characters)) = 50).
Proof.
  split; [|split].
  - eexists _, _. split; [vm_compute; reflexivity|]. split; reflexivity.
  - eexists _, _, _. split; [vm_compute; reflexivity|].
    split; vm_compute; reflexivity.
  - eexists _, _. split; [vm_compute; reflexivity|].
    split; vm_compute; reflexivity.
Qed.

(** ** The store on disk *)

Import Json Codec.

Lemma append_cons (c : ascii) (a b : string) : String c a +:+ b = String c (a +:+ b).
Proof. reflexivity. Qed.

Lemma substring_drop (n : nat) : forall s, substring 0 n s +:+ string_drop n s = s.
Proof.
  induction n as [|n IH]; intros [|c s]; try reflexivity.
  cbn [substring string_drop]. rewrite append_cons, IH. reflexivity.
Qed.

Lemma append_empty_r (s : string) : s +:+ "" = s.
Proof.
  induction s as [|c s IH]; [reflexivity|]. rewrite append_cons, IH. reflexivity.
Qed.

Lemma bytes_of_cons (rb : Z * string) (rs : list (Z * string)) :
  bytes_of (rb :: rs) = snd rb +:+ bytes_of rs.
Proof.
  unfold bytes_of. destruct rs as [|rb' rs]; cbn [map String.concat].
  - rewrite append_empty_r. reflexivity.
  - reflexivity.
Qed.

Lemma DecodeRuneInString_width (c : ascii) (s : string) :
  (1 <= snd (DecodeRuneInString (String c s)))%nat.
Proof.
  unfold DecodeRuneInString. repeat case_match; cbn [snd]; lia.
Qed.

Lemma runes_from_bytes (s : string) : forall skip,
  bytes_of (runes_from s skip) = string_drop skip s.
Proof.
  induction s as [|c s IH]; intros [|skip]; cbn [runes_from string_drop];
    try reflexivity.
  - pose proof (DecodeRuneInString_width c s) as Hw.
    destruct (DecodeRuneInString (String c s)) as [r width]. cbn [snd] in Hw.
    rewrite bytes_of_cons, IH. cbn [snd].
    destruct width as [|width]; [lia|].
    cbn [substring].
    replace (S width - 1)%nat with width by lia.
    rewrite append_cons, substring_drop. reflexivity.
  - apply IH.
Qed.

Lemma bytes_of_runes (s : string) : bytes_of (runes s) = s.
Proof. exact (runes_from_bytes s 0). Qed.

(** A valid string is written and read back as it is. *)
Lemma coerce_utf8_valid (s : string) : utf8_valid s = true -> coerce_utf8 s = s.
Proof.
  unfold utf8_valid, coerce_utf8. intros Hvalid.
  rewrite <- (bytes_of_runes s) at 2. f_equal.
  induction (runes s) as [|rb rs IH]; [reflexivity|].
  cbn [forallb map] in *. apply andb_true_iff in Hvalid as [Hrb Hrs].
  apply negb_true_iff in Hrb. rewrite Hrb, (IH Hrs). reflexivity.
Qed.

Ltac eval_keys :=
  repeat match goal with
    | |- context [key_is ?name ?key] =>
        let b := eval vm_compute in (key_is name key) in
        change (key_is name key) with b
    end.

Lemma decode_floats (field : string) (v : list float64) : forall target,
  decode_elems (decode_float64 field) zero target
    (map (fun x => Number (number_of_float x)) v)
  = (v, None).
Proof.
  induction v as [|x v IH]; intros target; cbn [map decode_elems]; [reflexivity|].
  destruct target as [|t target]; cbn [decode_float64 number_of_float as_float64];
    rewrite IH; reflexivity.
Qed.

Lemma decode_Document_value (d target : Document) :
  decode_Document target (Document_value d) = (coerced d, None).
Proof.
  unfold decode_Document, Document_value. cbn [fold_left].
  unfold decode_Document_member. eval_keys.
  cbn [decode_string decode_int decode_slice number_of_int as_int
       ID Content Page Vector first_error].
  rewrite decode_floats. reflexivity.
Qed.

Lemma decode_Documents (docs : list Document) : forall target,
  decode_elems decode_Document zero_Document target (map Document_value docs)
  = (map coerced docs, None).
Proof.
  induction docs as [|d docs IH]; intros target; cbn [map decode_elems];
    [reflexivity|].
  destruct target as [|t target]; rewrite decode_Document_value, IH; reflexivity.
Qed.

(** Reading back what [MarshalIndent] wrote overwrites every field of the
    store read into. *)
Lemma Unmarshal_VectorStore_text (vs target : VectorStore) :
  Unmarshal (VectorStore_text vs) target
  = ({| Documents := map coerced (Documents vs);
        ModelName := coerce_utf8 (ModelName vs) |}, None).
Proof.
  unfold Unmarshal, VectorStore_text, decode_VectorStore. cbn [fold_left].
  unfold decode_VectorStore_member. eval_keys.
  cbn [decode_slice decode_string Documents ModelName first_error].
  rewrite decode_Documents. reflexivity.
Qed.

Lemma coerced_valid (docs : list Document) :
  Forall (fun d => utf8_valid (ID d) = true /\ utf8_valid (Content d) = true) docs ->
  map coerced docs = docs.
Proof.
  induction 1 as [|d docs [Hid Hcontent] _ IH]; cbn [map]; [reflexivity|].
  rewrite IH. unfold coerced.
  rewrite (coerce_utf8_valid _ Hid), (coerce_utf8_valid _ Hcontent).
  destruct d; reflexivity.
Qed.

Lemma LoadVectorStore_present (r : RAGChatbot) (w : World) (data : Json.text) :
  json_files w !! dbPath r = Some data ->
  LoadVectorStore r w
  = Returns ((with_store r (fst (Unmarshal data (vectorStore r))),
              snd (Unmarshal data (vectorStore r))), w).
Proof.
  intros Hfile. unfold LoadVectorStore, mbind, Go_bind, os_Stat_IsNotExist,
    os_ReadFile_json.
  rewrite bool_decide_eq_false_2 by (rewrite Hfile; discriminate).
  cbv beta iota. rewrite Hfile.
  destruct (Unmarshal data (vectorStore r)); reflexivity.
Qed.

Lemma LoadVectorStore_missing (r : RAGChatbot) (w : World) :
  json_files w !! dbPath r = None ->
  LoadVectorStore r w = Returns ((r, Some "database non esistente"), w).
Proof.
  intros Hfile. unfold LoadVectorStore, mbind, Go_bind, os_Stat_IsNotExist.
  rewrite bool_decide_eq_true_2 by exact Hfile. reflexivity.
Qed.

(** C4, as the code has it.  A store whose numbers are finite and whose
    strings are valid UTF-8 is saved on a path that can be written, and
    loading that path, into whatever store the chatbot then has, gives the
    store that was saved, field for field. *)
Theorem save_then_load (r : RAGChatbot) (w : World) :
  finite_vectors (Documents (vectorStore r)) ->
  valid_strings (vectorStore r) ->
  dbPath r ∉ read_only w ->
  exists w1,
    SaveVectorStore r w = Returns (None, w1)
    /\ forall r0, dbPath r0 = dbPath r ->
                  LoadVectorStore r0 w1
                  = Returns ((with_store r0 (vectorStore r), None), w1).
Proof.
  intros Hfin [Hname Hdocs] Hrw.
  rewrite (SaveVectorStore_finite r w Hfin), bool_decide_eq_false_2 by exact Hrw.
  eexists. split; [reflexivity|]. intros r0 Hpath.
  rewrite (LoadVectorStore_present r0 _ (VectorStore_text (vectorStore r))).
  - rewrite Unmarshal_VectorStore_text. cbn [fst snd].
    rewrite (coerced_valid _ Hdocs), (coerce_utf8_valid _ Hname).
    destruct (vectorStore r); reflexivity.
  - rewrite Hpath. cbn [json_files with_json_files]. apply lookup_insert_eq.
Qed.

Lemma save_then_load_witness :
  exists w1,
    SaveVectorStore (bot_of three_documents) (world_of (constant_service [of_Z 1]))
    = Returns (None, w1)
    /\ forall r0, dbPath r0 = dbPath (bot_of three_documents) ->
                  LoadVectorStore r0 w1
                  = Returns ((with_store r0 (vectorStore (bot_of three_documents)), None),
                             w1).
Proof.
  apply (save_then_load (bot_of three_documents) (world_of (constant_service [of_Z 1]))).
  - repeat constructor.
  - split; [reflexivity|]. repeat constructor.
  - cbn [read_only world_of]. apply not_elem_of_empty.
Defined.

(** C4 as stated fails for two kinds of store.  A store with a NaN in a
    vector is not written at all, so that loading finds no file; and a
    string that is not valid UTF-8 is read back changed. *)
Lemma save_then_load_not_for_every_store :
  (SaveVectorStore (bot_of [document_of "nan" [S754_nan]])
     (world_of (constant_service [of_Z 1]))
   = Returns (Some "json: unsupported value: NaN"%string,
              world_of (constant_service [of_Z 1]))
   /\ LoadVectorStore NewRAGChatbot (world_of (constant_service [of_Z 1]))
      = Returns ((NewRAGChatbot, Some "database non esistente"%string),
                 world_of (constant_service [of_Z 1])))
  /\ (exists w1 r',
        SaveVectorStore (bot_of [document_of invalid_byte [of_Z 1]])
          (world_of (constant_service [of_Z 1]))
        = Returns (None, w1)
        /\ LoadVectorStore NewRAGChatbot w1 = Returns ((r', None), w1)
        /\ map Content (Documents (vectorStore r')) = [replacement]
        /\ replacement <> invalid_byte).
Proof.
  split; [split; vm_compute; reflexivity|].
  eexists _, _. split; [vm_compute; reflexivity|].
  split; [vm_compute; reflexivity|]. split; [reflexivity|discriminate].
Qed.

(** ** The start of the program *)

Lemma LoadVectorStore_returns (r : RAGChatbot) (w : World) :
  exists loaded, LoadVectorStore r w = Returns (loaded, w).
Proof.
  destruct (json_files w !! dbPath r) as [data|] eqn:Hfile.
  - rewrite (LoadVectorStore_present _ _ _ Hfile). eauto.
  - rewrite (LoadVectorStore_missing _ _ Hfile). eauto.
Qed.

(** An error of [LoadVectorStore] does not end the program: [main] goes
    on whenever the service is available. *)
Lemma main_startup_returns (w : World) :
  exists started w',
    main_startup w = Returns (started, w')
    /\ (tags (service w) (calls w) (ollamaBaseURL NewRAGChatbot +:+ "/api/tags")
        = Ok 200 -> started <> None).
Proof.
  unfold main_startup, CheckOllamaAvailable, get_tags, mbind, Go_bind.
  destruct (tags _ _ _) as [StatusCode|err];
    [|eexists _, _; split; [reflexivity|discriminate]].
  destruct (Z.eqb_spec StatusCode 200) as [->|Hstatus]; cbn [negb].
  - cbv beta iota. unfold mret at 1, Go_ret at 1.
    match goal with
    | |- context [LoadVectorStore ?r ?w1] =>
        destruct (LoadVectorStore_returns r w1) as [loaded E]; rewrite E
    end.
    eexists _, _. split; [reflexivity|discriminate].
  - eexists _, _. split; [reflexivity|]. intros E. congruence.
Qed.

(** A load that fails on a missing file or on text that is not JSON
    leaves the store as it was. *)
Lemma LoadVectorStore_unreadable (r : RAGChatbot) (w : World) :
  json_files w !! dbPath r = None \/ json_files w !! dbPath r = Some Malformed ->
  exists err, LoadVectorStore r w = Returns ((r, Some err), w).
Proof.
  intros [Hfile|Hfile].
  - rewrite (LoadVectorStore_missing _ _ Hfile). eauto.
  - rewrite (LoadVectorStore_present _ _ _ Hfile). cbn [Unmarshal fst snd].
    destruct r as [[docs name] url embedModel chatModel path]. eauto.
Qed.

(** The error of that file names the field whose value does not fit. *)
Lemma Unmarshal_misshapen_store :
  snd (Unmarshal misshapen_store (vectorStore NewRAGChatbot))
  = Some ("json: cannot unmarshal number into Go struct field "
          +:+ "VectorStore.model_name of type string").
Proof. vm_compute. reflexivity. Qed.

(** C7 fails on that file: loading returns an error, the program goes
    on, and the store it goes on with holds the document read before the
    mismatch. *)
Theorem startup_with_misshapen_store :
  exists r' err w',
    LoadVectorStore NewRAGChatbot misshapen_world
    = Returns ((r', Some err), misshapen_world)
    /\ main_startup misshapen_world = Returns (Some r', w')
    /\ Documents (vectorStore r')
       = [{| ID := "vecchio"; Content := "testo"; Page := 1; Vector := [of_Z 1] |}].
Proof.
  eexists _, _, _. split; [vm_compute; reflexivity|].
  split; [vm_compute; reflexivity|reflexivity].
Qed.

(** * Part IV: further properties of the code *)

(** ** The scorer *)

Lemma mul_commutative (x y : float64) : mul x y = mul y x.
Proof.
  unfold mul, SFmul.
  destruct x as [sx|sx| |sx mx ex], y as [sy|sy| |sy my ey];
    rewrite ?(xorb_comm sx sy), ?(Pos.mul_comm mx my), ?(Z.add_comm ex ey);
    reflexivity.
Qed.

Lemma dot_from_commutative (a : list float64) : forall (b : list float64) (s : float64),
  fold_left (fun s p => add s (mul (fst p) (snd p))) (combine a b) s
  = fold_left (fun s p => add s (mul (fst p) (snd p))) (combine b a) s.
Proof.
  induction a as [|x a IH]; intros [|y b] s; try reflexivity.
  cbn [combine fold_left fst snd]. rewrite (mul_commutative x y). apply IH.
Qed.

(** X1. The score does not depend on which of the two vectors is the
    query: [cosineSimilarity a b] and [cosineSimilarity b a] are the same
    [float64], bit for bit, rounding included. *)
Theorem cosineSimilarity_symmetric (a b : list float64) :
  cosineSimilarity a b = cosineSimilarity b a.
Proof.
  rewrite !cosineSimilarity_returns. f_equal. unfold cosine_value.
  rewrite (Nat.eqb_sym (length b) (length a)).
  destruct (length a =? length b)%nat; cbn [negb]; [|reflexivity].
  rewrite (orb_comm (eqb (norm b) zero)).
  destruct (eqb (norm a) zero || eqb (norm b) zero); [reflexivity|].
  unfold dot. rewrite (dot_from_commutative a b), (mul_commutative (norm a)).
  reflexivity.
Qed.

Lemma squares_of_zeros (v : list float64) :
  forallb is_zero v = true ->
  fold_left (fun s x => add s (mul x x)) v zero = zero.
Proof.
  induction v as [|x v IH]; intros Hz; [reflexivity|].
  cbn [forallb] in Hz. apply andb_true_iff in Hz as [Hx Hv].
  cbn [fold_left]. destruct x as [[|]| | |]; try discriminate; exact (IH Hv).
Qed.

(** X2. A vector whose components are all zeros (of either sign) scores
    [0] against every vector, on either side: its norm is [0], and the
    division is not attempted. *)
Theorem cosineSimilarity_zero_vector (a b : list float64) :
  forallb is_zero a = true ->
  cosineSimilarity a b = Returns zero /\ cosineSimilarity b a = Returns zero.
Proof.
  intros Hz.
  assert (norm a = zero) as Hnorm.
  { unfold norm. rewrite (squares_of_zeros a Hz). reflexivity. }
  rewrite !cosineSimilarity_returns. unfold cosine_value. rewrite Hnorm.
  split.
  - destruct (negb _); reflexivity.
  - destruct (negb _); [reflexivity|]. rewrite orb_comm. reflexivity.
Qed.

Lemma cosineSimilarity_zero_vector_witness :
  cosineSimilarity [zero; S754_zero true] [of_Z 3; of_Z 4] = Returns zero
  /\ cosineSimilarity [of_Z 3; of_Z 4] [zero; S754_zero true] = Returns zero.
Proof.
  exact (cosineSimilarity_zero_vector [zero; S754_zero true] [of_Z 3; of_Z 4] eq_refl).
Defined.

(** ** The chunker outside its contract *)

(** X3. On a text with words, more of them than [chunkSize], and with an
    overlap that is not below [chunkSize], [ChunkText] returns no list.
    When the two are equal and not negative the index never moves and the
    loop never ends, whatever the number of tests allowed; otherwise a slice
    expression panics, at the first turn for a negative [chunkSize] and at
    the second for an overlap above [chunkSize]. *)
Theorem ChunkText_without_progress (text : string) (chunkSize overlap : Z) :
  in_range chunkSize -> in_range overlap ->
  Fields text <> [] ->
  chunkSize < Z.of_nat (length (Fields text)) ->
  chunkSize <= overlap ->
  (0 <= chunkSize -> overlap = chunkSize ->
   forall fuel, ChunkText_fuel fuel text chunkSize overlap = Diverges)
  /\ (chunkSize < 0 \/ chunkSize < overlap ->
      ChunkText text chunkSize overlap = Panics).
Proof.
  intros Hsize Hoverlap Hwords Hlong Hle.
  unfold in_range, min_int, max_int in Hsize, Hoverlap.
  assert (0 < Z.of_nat (length (Fields text))) as Hw
    by (destruct (Fields text); [contradiction|cbn [length]; lia]).
  assert (ChunkText_fuel = fun fuel text chunkSize overlap =>
            let words := Fields text in
            if Z.of_nat (length words) <=? chunkSize then Returns [text]
            else ChunkText_loop fuel words chunkSize overlap 0 []) as Efuel
    by reflexivity.
  assert (GoInt.add 0 chunkSize = chunkSize) as Eadd.
  { unfold GoInt.add. rewrite Z.add_0_l. apply wrap64_id.
    unfold in_range, min_int, max_int. lia. }
  split.
  - intros Hpos -> fuel.
    assert (ChunkText text chunkSize chunkSize = Diverges) as Hdiv.
    { unfold ChunkText. rewrite Efuel. cbv zeta.
      rewrite (proj2 (Z.leb_gt _ _) Hlong).
      set (words := Fields text) in *.
      assert (forall fuel chunks,
                ChunkText_loop fuel words chunkSize chunkSize 0 chunks = Diverges)
        as Hloop.
      { intros n. induction n as [|n IH]; intros chunks; [reflexivity|].
        cbn [ChunkText_loop].
        rewrite (proj2 (Z.ltb_lt 0 _)) by lia.
        rewrite !Eadd. unfold sub. rewrite Z.sub_diag.
        change (GoInt.add 0 (wrap64 0)) with 0.
        destruct (Z.gtb_spec chunkSize (Z.of_nat (length words))) as [?|_]; [lia|].
        unfold slice. rewrite (proj2 (Z.leb_le 0 chunkSize)) by lia.
        rewrite (proj2 (Z.leb_le chunkSize _)) by lia. cbn [Z.leb andb].
        rewrite (proj2 (Z.eqb_neq chunkSize _)) by lia.
        apply IH. }
      apply Hloop. }
    exact (proj1 (ChunkText_fuel_decides text chunkSize chunkSize fuel) Hdiv).
  - intros Hbad. unfold ChunkText. rewrite Efuel. cbv zeta.
    rewrite (proj2 (Z.leb_gt _ _) Hlong).
    set (words := Fields text) in *.
    cbn [ChunkText_loop].
    rewrite (proj2 (Z.ltb_lt 0 _)) by lia. rewrite !Eadd.
    destruct (Z.gtb_spec chunkSize (Z.of_nat (length words))) as [?|_]; [lia|].
    destruct (Z_lt_le_dec chunkSize 0) as [Hneg|Hpos].
    + unfold slice. rewrite (proj2 (Z.leb_gt 0 chunkSize)) by lia. reflexivity.
    + unfold slice. rewrite (proj2 (Z.leb_le 0 chunkSize)) by lia.
      rewrite (proj2 (Z.leb_le chunkSize _)) by lia. cbn [Z.leb andb].
      rewrite (proj2 (Z.eqb_neq chunkSize _)) by lia.
      apply ChunkText_loop_negative.
      * destruct (length words); [cbn in Hw; lia|lia].
      * unfold GoInt.add, sub. rewrite Z.add_0_l.
        rewrite (wrap64_id (chunkSize - overlap))
          by (unfold in_range, min_int, max_int; lia).
        rewrite wrap64_id by (unfold in_range, min_int, max_int; lia). lia.
Qed.

Lemma ChunkText_without_progress_witness :
  (forall fuel, ChunkText_fuel fuel "a b c" 2 2 = Diverges)
  /\ ChunkText "a b c" 1 2 = Panics.
Proof.
  split.
  - refine (proj1 (ChunkText_without_progress "a b c" 2 2 _ _ _ _ _) _ _);
      try (unfold in_range, min_int, max_int; lia).
    + intros E. vm_compute in E. discriminate E.
    + vm_compute. reflexivity.
  - refine (proj2 (ChunkText_without_progress "a b c" 1 2 _ _ _ _ _) _);
      try (unfold in_range, min_int, max_int; lia).
    + intros E. vm_compute in E. discriminate E.
    + vm_compute. reflexivity.
Defined.

(** ** Strings *)

Lemma lead_cases (b0 : Z) (sz : nat) (lo hi : Z) :
  lead b0 = Some (sz, lo, hi) ->
  (sz = 2 \/ sz = 3 \/ sz = 4)%nat /\ 0x80 <= lo /\ hi <= 0xBF /\ 0xC2 <= b0.
Proof.
  unfold lead. intros E.
  repeat match type of E with
         | (if ?b then _ else _) = _ => destruct b eqn:?
         end;
    try discriminate; injection E as <- <- <-;
    repeat match goal with
           | H : _ && _ = true |- _ => apply andb_true_iff in H as [? ?]
           | H : (_ <=? _) = true |- _ => apply Z.leb_le in H
           | H : (_ =? _) = true |- _ => apply Z.eqb_eq in H
           end;
    (split; [auto|lia]).
Qed.

Lemma append_empty_l (s : string) : "" +:+ s = s.
Proof. reflexivity. Qed.

(** Decoding looks past the end of a string only to fail. *)
Lemma DecodeRuneInString_append (c : ascii) (x t : string) :
  rune_boundary t ->
  DecodeRuneInString (String c x +:+ t) = DecodeRuneInString (String c x).
Proof.
  intros Ht. rewrite append_cons. unfold DecodeRuneInString.
  destruct (byte c <? 0x80); [reflexivity|].
  destruct (lead (byte c)) as [[[sz lo] hi]|] eqn:El; [|reflexivity].
  apply lead_cases in El as (Hsz & Hlo & Hhi & _).
  assert (forall ct, continuation (byte ct) = false ->
                     (byte ct <? lo) || (hi <? byte ct) = true) as Hout.
  { intros ct Hct. unfold continuation in Hct.
    apply andb_false_iff in Hct as [Hct|Hct];
      [apply Z.leb_gt in Hct|apply Z.leb_gt in Hct];
      apply orb_true_iff; [left|right]; apply Z.ltb_lt; lia. }
  destruct x as [|c1 [|c2 [|c3 x]]]; rewrite ?append_cons, ?append_empty_l;
    destruct t as [|ct t]; cbn [rune_boundary] in Ht;
    rewrite ?append_empty_r; try reflexivity;
    try rewrite (Hout ct Ht); try rewrite Ht;
    destruct Hsz as [->|[->| ->]]; cbn [String.length Nat.ltb Nat.leb negb];
    repeat match goal with
           | |- context [if ?b then _ else _] => destruct b
           end; reflexivity.
Qed.

Lemma DecodeRuneInString_fits (s : string) :
  (snd (DecodeRuneInString s) <= String.length s)%nat.
Proof.
  unfold DecodeRuneInString.
  repeat match goal with
         | |- context [match ?x with _ => _ end] => destruct x eqn:?
         end; cbn [snd String.length]; lia.
Qed.

Lemma substring_append (n : nat) : forall (s t : string),
  (n <= String.length s)%nat -> substring 0 n (s +:+ t) = substring 0 n s.
Proof.
  induction n as [|n IH]; intros [|c s] t Hn; cbn [String.length] in Hn;
    try lia; rewrite ?append_cons; cbn [substring].
  - destruct t; reflexivity.
  - reflexivity.
  - rewrite IH by lia. reflexivity.
Qed.

(** The runes of a string followed by another, when no encoding runs from
    the one into the other. *)
Lemma runes_from_append (t : string) : rune_boundary t ->
  forall (x : string) (skip : nat),
    (skip <= String.length x)%nat ->
    runes_from (x +:+ t) skip = runes_from x skip ++ runes t.
Proof.
  intros Ht. induction x as [|c x IH]; intros skip Hskip;
    cbn [String.length] in Hskip.
  - replace skip with 0%nat by lia. reflexivity.
  - destruct skip as [|skip].
    + pose proof (DecodeRuneInString_append c x t Ht) as E.
      pose proof (DecodeRuneInString_fits (String c x)) as Hfit.
      pose proof (DecodeRuneInString_width c x) as Hwidth.
      rewrite append_cons in *. cbn [runes_from]. rewrite E.
      destruct (DecodeRuneInString (String c x)) as [r width].
      cbn [snd String.length] in Hfit, Hwidth.
      rewrite <- append_cons, substring_append by (cbn [String.length]; lia).
      rewrite IH by lia. reflexivity.
    + rewrite append_cons. cbn [runes_from]. apply IH. lia.
Qed.

Lemma runes_append (x t : string) :
  rune_boundary t -> runes (x +:+ t) = runes x ++ runes t.
Proof. intros Ht. apply (runes_from_append t Ht x 0%nat). lia. Qed.

Lemma runes_from_drop (s : string) : forall skip,
  runes_from s skip = runes (string_drop skip s).
Proof.
  induction s as [|c s IH]; intros [|skip]; try reflexivity.
  cbn [runes_from string_drop]. apply IH.
Qed.

Lemma bytes_of_app (rs1 rs2 : list (Z * string)) :
  bytes_of (rs1 ++ rs2) = bytes_of rs1 +:+ bytes_of rs2.
Proof.
  induction rs1 as [|rb rs1 IH]; [reflexivity|].
  cbn [app]. rewrite !bytes_of_cons, IH.
  generalize (snd rb) as a. intros a. induction a as [|c a IHa]; [reflexivity|].
  rewrite !append_cons, IHa. reflexivity.
Qed.

(** Every rune of a string takes at least one of its bytes. *)
Lemma runes_from_nonempty (s : string) : forall skip,
  Forall (fun rb : Z * string => snd rb <> EmptyString) (runes_from s skip).
Proof.
  induction s as [|c s IH]; intros skip; [destruct skip; constructor|].
  destruct skip as [|skip]; cbn [runes_from]; [|apply IH].
  pose proof (DecodeRuneInString_width c s) as Hw.
  destruct (DecodeRuneInString (String c s)) as [r [|width]];
    cbn [snd] in *; [lia|]. constructor; [discriminate|apply IH].
Qed.

Lemma append_cancel_l (a : string) : forall b c, a +:+ b = a +:+ c -> b = c.
Proof.
  induction a as [|x a IH]; intros b c E; [exact E|].
  rewrite !append_cons in E. injection E as E. exact (IH _ _ E).
Qed.

Lemma append_length (a b : string) :
  String.length (a +:+ b) = (String.length a + String.length b)%nat.
Proof.
  induction a as [|x a IH]; [reflexivity|].
  rewrite append_cons. cbn [String.length]. rewrite IH. reflexivity.
Qed.

(** Two beginnings of one sequence of runes with the same bytes are the
    same. *)
Lemma same_bytes_same_runes (l1 : list (Z * string)) :
  forall l2 r1 r2,
    l1 ++ r1 = l2 ++ r2 ->
    Forall (fun rb : Z * string => snd rb <> EmptyString) (l1 ++ r1) ->
    bytes_of l1 = bytes_of l2 -> l1 = l2.
Proof.
  induction l1 as [|e1 l1 IH]; intros [|e2 l2] r1 r2 E Hne Hb.
  - reflexivity.
  - exfalso. cbn [app] in E, Hne. rewrite E in Hne.
    apply Forall_cons_iff in Hne as [Hne _].
    rewrite bytes_of_cons in Hb. destruct (snd e2); [contradiction|discriminate].
  - exfalso. cbn [app] in Hne. apply Forall_cons_iff in Hne as [Hne _].
    rewrite bytes_of_cons in Hb. destruct (snd e1); [contradiction|discriminate].
  - cbn [app] in E, Hne. injection E as <- E.
    apply Forall_cons_iff in Hne as [_ Hne].
    rewrite !bytes_of_cons in Hb. apply append_cancel_l in Hb.
    rewrite (IH l2 r1 r2 E Hne Hb). reflexivity.
Qed.

Lemma self_decoding_runes (s : string) : self_decoding (runes s).
Proof. unfold self_decoding. rewrite bytes_of_runes. reflexivity. Qed.

Lemma self_decoding_tail (rb : Z * string) (rs : list (Z * string)) :
  self_decoding (rb :: rs) -> self_decoding rs.
Proof.
  unfold self_decoding. generalize (bytes_of (rb :: rs)) as s.
  intros [|c rest] H; [discriminate|].
  unfold runes in H. cbn [runes_from] in H.
  destruct (DecodeRuneInString (String c rest)) as [r width].
  injection H as _ Hrs. rewrite <- Hrs, runes_from_bytes.
  symmetry. apply runes_from_drop.
Qed.

Lemma self_decoding_suffix (rs1 rs2 : list (Z * string)) :
  self_decoding (rs1 ++ rs2) -> self_decoding rs2.
Proof.
  induction rs1 as [|rb rs1 IH]; intros H; [exact H|].
  apply IH. exact (self_decoding_tail _ _ H).
Qed.

Lemma self_decoding_prefix (rs1 rs2 : list (Z * string)) :
  self_decoding (rs1 ++ rs2) -> rune_boundary (bytes_of rs2) ->
  self_decoding rs1.
Proof.
  unfold self_decoding. intros H Ht.
  rewrite bytes_of_app, (runes_append _ _ Ht) in H.
  apply (same_bytes_same_runes _ _ _ _ H).
  - apply Forall_app. split; apply runes_from_nonempty.
  - apply bytes_of_runes.
Qed.

Lemma DecodeRuneInString_continuation (c : ascii) (s : string) :
  continuation (byte c) = true -> fst (DecodeRuneInString (String c s)) = RuneError.
Proof.
  unfold continuation. intros Hc.
  apply andb_true_iff in Hc as [Hlo Hhi]. apply Z.leb_le in Hlo, Hhi.
  unfold DecodeRuneInString.
  rewrite (proj2 (Z.ltb_ge (byte c) 0x80)) by lia.
  destruct (lead (byte c)) as [[[sz lo] hi]|] eqn:El; [|reflexivity].
  apply lead_cases in El. lia.
Qed.

(** A rune that decoding does not refuse starts on a boundary. *)
Lemma self_decoding_boundary (rb : Z * string) (rs : list (Z * string)) :
  self_decoding (rb :: rs) -> fst rb <> RuneError ->
  rune_boundary (bytes_of (rb :: rs)).
Proof.
  unfold self_decoding. generalize (bytes_of (rb :: rs)) as s.
  intros [|c rest] H Hr; [exact I|].
  unfold runes in H. cbn [runes_from] in H.
  pose proof (DecodeRuneInString_continuation c rest) as Hc.
  destruct (DecodeRuneInString (String c rest)) as [r width].
  injection H as <- _. cbn [fst rune_boundary] in *.
  destruct (continuation (byte c)); [|reflexivity].
  exfalso. apply Hr. apply Hc. reflexivity.
Qed.

Lemma IsSpace_not_RuneError (r : Z) : IsSpace r = true -> r <> RuneError.
Proof. intros Hs ->. discriminate Hs. Qed.

(** The words of [strings.Fields], collected from runes that decode to
    themselves. *)
Lemma fields_of_words (rs : list (Z * string)) : forall pre,
  self_decoding (pre ++ rs) ->
  forallb not_space pre = true ->
  Forall is_word (fields_of rs (bytes_of pre)).
Proof.
  assert (forall pre rest, self_decoding (pre ++ rest) ->
            rune_boundary (bytes_of rest) ->
            forallb not_space pre = true ->
            Forall is_word (flush (bytes_of pre))) as Hflush.
  { intros pre rest Hself Hb Hpre.
    destruct (bytes_of pre) as [|c cur] eqn:E; [constructor|].
    constructor; [|constructor]. split; [discriminate|].
    rewrite <- E. rewrite (self_decoding_prefix _ _ Hself Hb). exact Hpre. }
  induction rs as [|[r bs] rs IH]; intros pre Hself Hpre; cbn [fields_of].
  - apply (Hflush pre []); [exact Hself|exact I|exact Hpre].
  - destruct (IsSpace r) eqn:Hr.
    + apply Forall_app. split.
      * apply (Hflush pre ((r, bs) :: rs)); [exact Hself| |exact Hpre].
        apply self_decoding_boundary.
        -- exact (self_decoding_suffix _ _ Hself).
        -- apply IsSpace_not_RuneError. exact Hr.
      * apply (IH []); [|reflexivity].
        apply (self_decoding_suffix (pre ++ [(r, bs)])).
        rewrite <- app_assoc. exact Hself.
    + replace (bytes_of pre +:+ bs) with (bytes_of (pre ++ [(r, bs)])).
      * apply IH.
        -- rewrite <- app_assoc. exact Hself.
        -- rewrite forallb_app, Hpre. unfold not_space at 1. cbn [forallb fst].
           rewrite Hr. reflexivity.
      * rewrite bytes_of_app, bytes_of_cons. cbn [snd].
        unfold bytes_of at 2. cbn [map String.concat].
        rewrite append_empty_r. reflexivity.
Qed.

Lemma Fields_words (s : string) : Forall is_word (Fields s).
Proof.
  apply (fields_of_words (runes s) []); [|reflexivity].
  apply self_decoding_runes.
Qed.

Lemma fields_of_not_space (rs : list (Z * string)) : forall cur,
  forallb not_space rs = true ->
  fields_of rs cur = flush (cur +:+ bytes_of rs).
Proof.
  induction rs as [|[r bs] rs IH]; intros cur Hrs; cbn [fields_of].
  - unfold bytes_of. cbn [map String.concat]. rewrite append_empty_r. reflexivity.
  - cbn [forallb] in Hrs. apply andb_true_iff in Hrs as [Hr Hrs].
    unfold not_space in Hr. cbn [fst] in Hr. apply negb_true_iff in Hr.
    rewrite Hr, (IH _ Hrs), bytes_of_cons. cbn [snd].
    f_equal. generalize (bytes_of rs). intros t.
    induction cur as [|c cur IHc]; [reflexivity|].
    rewrite !append_cons, IHc. reflexivity.
Qed.

Lemma fields_of_app (rs1 : list (Z * string)) :
  forall (rs2 : list (Z * string)) (cur : string),
    forallb not_space rs1 = true ->
    fields_of (rs1 ++ rs2) cur = fields_of rs2 (cur +:+ bytes_of rs1).
Proof.
  induction rs1 as [|[r bs] rs1 IH]; intros rs2 cur Hrs; cbn [app fields_of].
  - unfold bytes_of. cbn [map String.concat]. rewrite append_empty_r. reflexivity.
  - cbn [forallb] in Hrs. apply andb_true_iff in Hrs as [Hr Hrs].
    unfold not_space in Hr. cbn [fst] in Hr. apply negb_true_iff in Hr.
    rewrite Hr, (IH _ _ Hrs), bytes_of_cons. cbn [snd].
    f_equal. generalize (bytes_of rs1). intros t.
    induction cur as [|c cur IHc]; [reflexivity|].
    rewrite !append_cons, IHc. reflexivity.
Qed.

Lemma runes_space (s : string) : runes (" " +:+ s) = (0x20, " "%string) :: runes s.
Proof. destruct s; reflexivity. Qed.

Lemma Join_cons (w : string) (ws : list string) :
  ws <> [] -> Join (w :: ws) " " = w +:+ " " +:+ Join ws " ".
Proof. destruct ws; [contradiction|reflexivity]. Qed.

(** The runes of words joined by single spaces. *)
Lemma runes_Join (w : string) (ws : list string) :
  ws <> [] ->
  runes (Join (w :: ws) " ") = runes w ++ (0x20, " "%string) :: runes (Join ws " ").
Proof.
  intros Hws. rewrite (Join_cons _ _ Hws), runes_append by reflexivity.
  rewrite runes_space. reflexivity.
Qed.

(** Splitting into words what was joined from words gives the words back. *)
Lemma Fields_Join (ws : list string) :
  Forall is_word ws -> Fields (Join ws " ") = ws.
Proof.
  induction 1 as [|w ws [Hne Hw] Hws IH]; [reflexivity|].
  destruct ws as [|w' ws].
  - unfold Fields. cbn [Join String.concat].
    rewrite (fields_of_not_space _ _ Hw), bytes_of_runes.
    destruct w; [contradiction|reflexivity].
  - unfold Fields. rewrite runes_Join by discriminate.
    rewrite (fields_of_app _ _ _ Hw), bytes_of_runes. cbn [fields_of].
    change (IsSpace 32) with true. cbv iota.
    fold (Fields (Join (w' :: ws) " ")). rewrite IH.
    destruct w; [contradiction|reflexivity].
Qed.

Lemma window_words_length (words : list string) (size overlap j : Z) :
  0 <= overlap < size -> size < Z.of_nat (length words) ->
  0 <= j < chunk_count (Z.of_nat (length words)) size overlap ->
  overlap < Z.of_nat (length (window_words words size overlap j)) <= size.
Proof.
  intros Hov Hlong Hj. unfold window_words, window_hi, window_lo, chunk_count in *.
  rewrite length_firstn, length_skipn.
  pose proof (ceil_div_spec (Z.of_nat (length words) - size) (size - overlap)
                ltac:(lia)) as Hlast.
  set (last := ceil_div (Z.of_nat (length words) - size) (size - overlap)) in *.
  set (w := Z.of_nat (length words)) in *.
  assert (0 <= j * (size - overlap) /\ j * (size - overlap) + overlap < w) as [Hlo Hhi]
    by nia.
  clearbody last. lia.
Qed.

(** X4. What [ChunkText] returns within its contract, counted again in
    words by [strings.Fields]: no chunk holds more than [chunkSize] words,
    so that chunking a chunk again returns it whole; and when the text has
    more words than [chunkSize], the words of the chunk of index [j] are
    exactly those of the window of index [j], more than [overlap] of
    them. *)
Theorem ChunkText_chunk_words (text : string) (size overlap : Z) :
  len text <= max_int ->
  0 <= overlap < size ->
  exists chunks,
    ChunkText text size overlap = Returns chunks
    /\ Forall (fun chunk => Z.of_nat (length (Fields chunk)) <= size
                            /\ ChunkText chunk size overlap = Returns [chunk])
         chunks
    /\ (size < Z.of_nat (length (Fields text)) ->
        forall (j : nat) (chunk : string),
          nth_error chunks j = Some chunk ->
          Fields chunk = window_words (Fields text) size overlap (Z.of_nat j)
          /\ overlap < Z.of_nat (length (Fields chunk))).
Proof.
  intros Hlen Hov.
  destruct (Z_le_gt_dec (Z.of_nat (length (Fields text))) size) as [Hshort|Hlong].
  - exists [text]. split; [exact (ChunkText_short text size overlap Hshort)|].
    split; [|lia].
    constructor; [|constructor].
    split; [exact Hshort|exact (ChunkText_short text size overlap Hshort)].
  - assert (size < Z.of_nat (length (Fields text))) as Hlong' by lia.
    exists (sliding_chunks (Fields text) size overlap).
    split; [exact (ChunkText_long text size overlap Hlen Hov Hlong')|].
    assert (forall (j : nat) (chunk : string),
              nth_error (sliding_chunks (Fields text) size overlap) j = Some chunk ->
              Fields chunk = window_words (Fields text) size overlap (Z.of_nat j)
              /\ overlap < Z.of_nat (length (Fields chunk)) <= size) as Hwin.
    { intros j chunk Hj. unfold sliding_chunks in Hj.
      rewrite nth_error_map in Hj.
      destruct (nth_error (seq 0 _) j) as [k|] eqn:Hk; [|discriminate].
      injection Hj as <-.
      assert (j < Z.to_nat (chunk_count (Z.of_nat (length (Fields text))) size overlap))%nat
        as Hjn.
      { pose proof (proj1 (nth_error_Some _ j) ltac:(rewrite Hk; discriminate)) as Hjn.
        rewrite length_seq in Hjn. exact Hjn. }
      rewrite nth_error_seq in Hk. apply Nat.ltb_lt in Hjn. rewrite Hjn in Hk.
      injection Hk as <-. apply Nat.ltb_lt in Hjn. cbn [Nat.add].
      assert (Fields (Join (window_words (Fields text) size overlap (Z.of_nat j)) " ")
              = window_words (Fields text) size overlap (Z.of_nat j)) as ->.
      { apply Fields_Join. unfold window_words.
        apply Forall_take, Forall_drop, Fields_words. }
      split; [reflexivity|].
      apply window_words_length; [exact Hov|exact Hlong'|lia]. }
    split.
    + apply List.Forall_forall. intros chunk Hin.
      apply In_nth_error in Hin as [j Hj].
      destruct (Hwin j chunk Hj) as [_ Hsize].
      split; [lia|]. apply ChunkText_short. lia.
    + intros _ j chunk Hj. destruct (Hwin j chunk Hj) as [Hw Hsize].
      split; [exact Hw|lia].
Qed.

Lemma ChunkText_chunk_words_witness :
  exists chunks,
    ChunkText "a b c d e f g" 3 1 = Returns chunks
    /\ Forall (fun chunk => Z.of_nat (length (Fields chunk)) <= 3
                            /\ ChunkText chunk 3 1 = Returns [chunk])
         chunks
    /\ (3 < Z.of_nat (length (Fields "a b c d e f g")) ->
        forall (j : nat) (chunk : string),
          nth_error chunks j = Some chunk ->
          Fields chunk = window_words (Fields "a b c d e f g") 3 1 (Z.of_nat j)
          /\ 1 < Z.of_nat (length (Fields chunk))).
Proof.
  apply (ChunkText_chunk_words "a b c d e f g" 3 1).
  - vm_compute. discriminate.
  - lia.
Defined.

(** *** Trimming *)

Lemma drop_spaces_split (rs : list (Z * string)) :
  exists sp, rs = sp ++ drop_spaces rs.
Proof.
  induction rs as [|[r bs] rs [sp IH]]; [exists []; reflexivity|].
  cbn [drop_spaces]. destruct (IsSpace r).
  - exists ((r, bs) :: sp). cbn [app]. rewrite <- IH. reflexivity.
  - exists []. reflexivity.
Qed.

Lemma drop_spaces_starts_clean (rs : list (Z * string)) :
  starts_clean (drop_spaces rs).
Proof.
  induction rs as [|[r bs] rs IH]; [exact I|].
  cbn [drop_spaces]. destruct (IsSpace r) eqn:Hr; [exact IH|exact Hr].
Qed.

Lemma drop_spaces_clean (rs : list (Z * string)) :
  starts_clean rs -> drop_spaces rs = rs.
Proof.
  destruct rs as [|[r bs] rs]; [reflexivity|].
  cbn [starts_clean drop_spaces fst]. intros ->. reflexivity.
Qed.

Lemma starts_clean_app (rs1 rs2 : list (Z * string)) :
  rs1 <> [] -> starts_clean rs1 -> starts_clean (rs1 ++ rs2).
Proof. destruct rs1; [contradiction|intros _ H; exact H]. Qed.

Lemma starts_clean_prefix (rs1 rs2 : list (Z * string)) :
  rs1 <> [] -> starts_clean (rs1 ++ rs2) -> starts_clean rs1.
Proof. destruct rs1; [contradiction|intros _ H; exact H]. Qed.

(** The runes of a string split into the white space at its start, what
    [TrimSpace] keeps, and the white space at its end. *)
Lemma trim_split (rs : list (Z * string)) :
  exists before after,
    rs = before ++ trim rs ++ after
    /\ starts_clean (trim rs) /\ starts_clean (rev (trim rs))
    /\ Forall (fun rb : Z * string => IsSpace (fst rb) = true) after.
Proof.
  unfold trim.
  destruct (drop_spaces_split rs) as [sp1 E1].
  pose proof (drop_spaces_starts_clean rs) as H1.
  set (d1 := drop_spaces rs) in *.
  destruct (drop_spaces_split (rev d1)) as [sp2 E2].
  pose proof (drop_spaces_starts_clean (rev d1)) as H2.
  assert (Forall (fun rb : Z * string => IsSpace (fst rb) = true) sp2) as Hsp2.
  { clear -E2. revert sp2 E2. generalize (rev d1) as l.
    induction l as [|[r bs] l IH]; intros sp2 E.
    - destruct sp2; [constructor|discriminate].
    - cbn [drop_spaces] in E. destruct (IsSpace r) eqn:Hr.
      + destruct sp2 as [|rb sp2].
        * exfalso. cbn [app] in E.
          pose proof (f_equal (@length _) E) as Hl. cbn [length] in Hl.
          destruct (drop_spaces_split l) as [sp El].
          pose proof (f_equal (@length _) El) as Hl'. rewrite length_app in Hl'. lia.
        * cbn [app] in E. injection E as <- E. constructor; [exact Hr|].
          exact (IH _ E).
      + destruct sp2 as [|rb sp2]; [constructor|].
        exfalso. pose proof (f_equal (@length _) E) as Hl.
        cbn [app length] in Hl. rewrite length_app in Hl. cbn [length] in Hl. lia. }
  set (d2 := drop_spaces (rev d1)) in *.
  assert (d1 = rev d2 ++ rev sp2) as E3.
  { rewrite <- rev_app_distr, <- E2, rev_involutive. reflexivity. }
  exists sp1, (rev sp2). split; [rewrite E1 at 1; rewrite E3; reflexivity|].
  split; [|split].
  - destruct d2 as [|rb d2]; [exact I|].
    apply (starts_clean_prefix _ (rev sp2)).
    + cbn [rev]. destruct (rev d2); discriminate.
    + rewrite <- E3. exact H1.
  - rewrite rev_involutive. exact H2.
  - apply Forall_rev. exact Hsp2.
Qed.

Lemma trim_clean (rs : list (Z * string)) :
  starts_clean rs -> starts_clean (rev rs) -> trim rs = rs.
Proof.
  intros H1 H2. unfold trim.
  rewrite (drop_spaces_clean rs H1), (drop_spaces_clean _ H2).
  apply rev_involutive.
Qed.

Lemma trim_idempotent (rs : list (Z * string)) : trim (trim rs) = trim rs.
Proof.
  destruct (trim_split rs) as (before & after & _ & H1 & H2 & _).
  exact (trim_clean _ H1 H2).
Qed.

Lemma trim_self_decoding (rs : list (Z * string)) :
  self_decoding rs -> self_decoding (trim rs).
Proof.
  intros Hself.
  destruct (trim_split rs) as (before & after & E & _ & _ & Hafter).
  rewrite E in Hself. apply self_decoding_suffix in Hself.
  apply (self_decoding_prefix _ _ Hself).
  destruct after as [|rb after]; [exact I|].
  apply self_decoding_boundary.
  - exact (self_decoding_suffix _ _ Hself).
  - apply IsSpace_not_RuneError. apply Forall_cons_iff in Hafter as [Hrb _]. exact Hrb.
Qed.

Lemma runes_TrimSpace (s : string) : runes (TrimSpace s) = trim (runes s).
Proof. exact (trim_self_decoding _ (self_decoding_runes s)). Qed.

(** Trimming what is trimmed changes nothing. *)
Lemma TrimSpace_idempotent (s : string) : TrimSpace (TrimSpace s) = TrimSpace s.
Proof.
  unfold TrimSpace at 1. fold (trim (runes (TrimSpace s))).
  rewrite runes_TrimSpace, trim_idempotent. reflexivity.
Qed.

Lemma bytes_of_length_app (rs1 rs2 : list (Z * string)) :
  String.length (bytes_of (rs1 ++ rs2))
  = (String.length (bytes_of rs1) + String.length (bytes_of rs2))%nat.
Proof. rewrite bytes_of_app. apply append_length. Qed.

Lemma TrimSpace_length (s : string) :
  (String.length (TrimSpace s) <= String.length s)%nat.
Proof.
  destruct (trim_split (runes s)) as (before & after & E & _).
  rewrite <- (bytes_of_runes s) at 2. rewrite E, !bytes_of_length_app.
  unfold TrimSpace. fold (trim (runes s)). lia.
Qed.

(** *** Cleanup *)

Lemma replace_runs_length (class : Z -> bool) (rs : list (Z * string)) :
  Forall (fun rb : Z * string => snd rb <> EmptyString) rs ->
  forall in_run,
    (String.length (replace_runs class rs in_run) <= String.length (bytes_of rs))%nat.
Proof.
  induction 1 as [|[r bs] rs Hne _ IH]; intros in_run; [reflexivity|].
  cbn [replace_runs]. rewrite bytes_of_cons. cbn [snd] in *.
  destruct (class r).
  - specialize (IH true). rewrite !append_length.
    destruct bs as [|c bs]; [contradiction|].
    destruct in_run; cbn [String.length]; lia.
  - specialize (IH false). rewrite !append_length. lia.
Qed.

Lemma ReplaceAllString_space_length (class : Z -> bool) (text : string) :
  (String.length (ReplaceAllString_space class text) <= String.length text)%nat.
Proof.
  unfold ReplaceAllString_space.
  pose proof (replace_runs_length class (runes text) (runes_from_nonempty text 0) false)
    as H.
  rewrite bytes_of_runes in H. exact H.
Qed.

Lemma cleanText_length `{UnicodeTables} (text : string) :
  len (cleanText text) <= len text.
Proof.
  unfold cleanText, len.
  pose proof (TrimSpace_length
                (ReplaceAllString_space not_printable
                   (ReplaceAllString_space perl_space text))).
  pose proof (ReplaceAllString_space_length not_printable
                (ReplaceAllString_space perl_space text)).
  pose proof (ReplaceAllString_space_length perl_space text). lia.
Qed.

Lemma list_ascii_of_string_append (a b : string) :
  list_ascii_of_string (a +:+ b) = list_ascii_of_string a ++ list_ascii_of_string b.
Proof.
  induction a as [|c a IH]; [reflexivity|].
  rewrite append_cons. cbn [list_ascii_of_string app]. rewrite IH. reflexivity.
Qed.

Lemma substring_0_0 (s : string) : substring 0 0 s = EmptyString.
Proof. destruct s; reflexivity. Qed.

(** A byte below [0x80] is decoded alone, as the rune of its value. *)
Lemma DecodeRuneInString_ascii (s : string) (c : ascii) :
  In c (list_ascii_of_string (substring 0 (snd (DecodeRuneInString s)) s)) ->
  byte c < 0x80 -> fst (DecodeRuneInString s) = byte c.
Proof.
  unfold DecodeRuneInString.
  destruct s as [|c0 s1]; [intros []|].
  destruct (Z.ltb_spec (byte c0) 0x80) as [Hlow|Hhigh].
  { cbn [snd fst substring]. rewrite substring_0_0.
    intros [<-|[]] _. reflexivity. }
  destruct (lead (byte c0)) as [[[sz lo] hi]|] eqn:El.
  2:{ cbn [snd fst substring]. rewrite substring_0_0. intros [<-|[]] ?. lia. }
  apply lead_cases in El as (_ & Hlo & _ & _).
  unfold continuation.
  repeat match goal with
         | |- context [match ?x with _ => _ end] => destruct x eqn:?
         end;
    cbn [snd fst substring list_ascii_of_string]; rewrite ?substring_0_0;
    cbn [list_ascii_of_string In];
    repeat match goal with
           | H : _ || _ = false |- _ => apply orb_false_iff in H as [? ?]
           | H : negb _ = false |- _ => apply negb_false_iff in H
           | H : _ && _ = true |- _ => apply andb_true_iff in H as [? ?]
           | H : (_ <? _) = false |- _ => apply Z.ltb_ge in H
           | H : (_ <=? _) = true |- _ => apply Z.leb_le in H
           end;
    intros Hin Hc;
    repeat match type of Hin with
           | _ \/ _ => destruct Hin as [<-|Hin]
           | False => destruct Hin
           end; lia.
Qed.

Lemma runes_from_ascii (s : string) : forall skip,
  Forall (fun rb : Z * string =>
            forall c, In c (list_ascii_of_string (snd rb)) -> byte c < 0x80 ->
                      fst rb = byte c)
         (runes_from s skip).
Proof.
  induction s as [|c0 s IH]; intros skip; [destruct skip; constructor|].
  destruct skip as [|skip]; cbn [runes_from]; [|apply IH].
  pose proof (DecodeRuneInString_ascii (String c0 s)) as Hd.
  destruct (DecodeRuneInString (String c0 s)) as [r width]. cbn [fst snd] in Hd.
  constructor; [exact Hd|apply IH].
Qed.

Lemma one_line_append (a b : string) :
  one_line (a +:+ b) = one_line a && one_line b.
Proof. unfold one_line. rewrite list_ascii_of_string_append. apply forallb_app. Qed.

Lemma one_line_bytes_of (rs : list (Z * string)) :
  one_line (bytes_of rs) = forallb (fun rb : Z * string => one_line (snd rb)) rs.
Proof.
  induction rs as [|rb rs IH]; [reflexivity|].
  rewrite bytes_of_cons, one_line_append, IH. reflexivity.
Qed.

Lemma replace_runs_one_line (class : Z -> bool) (rs : list (Z * string)) :
  Forall (fun rb : Z * string => class (fst rb) = false -> one_line (snd rb) = true) rs ->
  forall in_run, one_line (replace_runs class rs in_run) = true.
Proof.
  induction 1 as [|[r bs] rs Hrb _ IH]; intros in_run; [reflexivity|].
  cbn [replace_runs]. cbn [fst snd] in Hrb.
  destruct (class r).
  - rewrite one_line_append, IH. destruct in_run; reflexivity.
  - rewrite one_line_append, IH, Hrb; reflexivity.
Qed.

Lemma TrimSpace_one_line (s : string) :
  one_line s = true -> one_line (TrimSpace s) = true.
Proof.
  intros Hs. destruct (trim_split (runes s)) as (before & after & E & _).
  rewrite <- (bytes_of_runes s), E, !bytes_of_app, !one_line_append in Hs.
  apply andb_true_iff in Hs as [_ Hs]. apply andb_true_iff in Hs as [Hs _].
  exact Hs.
Qed.

(** The first pattern of [cleanText] leaves no TAB, LF, FF or CR. *)
Lemma perl_space_one_line (text : string) :
  one_line (ReplaceAllString_space perl_space text) = true.
Proof.
  apply replace_runs_one_line.
  apply (Forall_impl _ _ _ (runes_from_ascii text 0)).
  intros [r bs] Hascii Hclass. cbn [fst snd] in *.
  unfold one_line. apply forallb_forall. intros c Hc.
  destruct (Z.ltb_spec (byte c) 0x80) as [Hlow|Hhigh].
  - unfold line_byte. rewrite <- (Hascii c Hc Hlow).
    unfold perl_space in Hclass.
    rewrite !orb_false_iff in Hclass. destruct Hclass as [[[[-> ->] ->] ->] _].
    reflexivity.
  - unfold line_byte.
    rewrite !(proj2 (Z.eqb_neq (byte c) _)) by lia. reflexivity.
Qed.

Lemma cleanText_trimmed `{UnicodeTables} (text : string) :
  TrimSpace (cleanText text) = cleanText text.
Proof. apply TrimSpace_idempotent. Qed.

Lemma cleanText_one_line `{UnicodeTables} (text : string) :
  one_line (cleanText text) = true.
Proof.
  unfold cleanText. apply TrimSpace_one_line.
  unfold ReplaceAllString_space at 1. apply replace_runs_one_line.
  pose proof (perl_space_one_line text) as Hline.
  rewrite <- (bytes_of_runes (ReplaceAllString_space perl_space text)) in Hline
    at 1.
  rewrite one_line_bytes_of in Hline.
  apply List.Forall_forall. intros rb Hin _.
  exact (proj1 (forallb_forall _ _) Hline rb Hin).
Qed.

(** X5. What [cleanText] returns is a trimmed text on one line, no longer
    than its input: trimming it again changes nothing, it holds no TAB, LF,
    FF or CR byte, and its length in bytes is at most that of the input.
    This holds whatever the Unicode tables say. *)
Theorem cleanText_normalised `{UnicodeTables} (text : string) :
  TrimSpace (cleanText text) = cleanText text
  /\ one_line (cleanText text) = true
  /\ len (cleanText text) <= len text.
Proof.
  split; [apply cleanText_trimmed|].
  split; [apply cleanText_one_line|apply cleanText_length].
Qed.

Lemma runes_not_nil (s : string) : s <> EmptyString -> runes s <> [].
Proof.
  intros Hs E. apply Hs. rewrite <- (bytes_of_runes s), E. reflexivity.
Qed.

Lemma not_space_clean (rs : list (Z * string)) :
  forallb not_space rs = true -> starts_clean rs /\ starts_clean (rev rs).
Proof.
  intros Hrs.
  assert (forall l, (forall rb, In rb l -> not_space rb = true) -> starts_clean l)
    as Hclean.
  { intros [|rb l] Hl; [exact I|]. cbn [starts_clean].
    apply negb_true_iff. apply (Hl rb). left. reflexivity. }
  pose proof (proj1 (forallb_forall _ _) Hrs) as Hall.
  split; apply Hclean; [exact Hall|].
  intros rb Hin. apply Hall. apply in_rev. exact Hin.
Qed.

Lemma Join_not_empty (w : string) (ws : list string) :
  w <> EmptyString -> Join (w :: ws) " " <> EmptyString.
Proof.
  intros Hw. destruct ws as [|w' ws]; [exact Hw|].
  rewrite Join_cons by discriminate.
  destruct w; [contradiction|discriminate].
Qed.

(** Words joined by single spaces neither begin nor end with white
    space. *)
Lemma runes_Join_clean (ws : list string) :
  Forall is_word ws ->
  starts_clean (runes (Join ws " ")) /\ starts_clean (rev (runes (Join ws " "))).
Proof.
  induction 1 as [|w ws [Hne Hw] Hws [IH1 IH2]]; [split; exact I|].
  destruct ws as [|w' ws]; [exact (not_space_clean _ Hw)|].
  rewrite runes_Join by discriminate.
  destruct (not_space_clean _ Hw) as [Hw1 _].
  assert (runes (Join (w' :: ws) " ") <> []) as Hrest.
  { apply runes_not_nil, Join_not_empty.
    apply Forall_cons_iff in Hws as [[Hw' _] _]. exact Hw'. }
  split.
  - apply starts_clean_app; [exact (runes_not_nil _ Hne)|exact Hw1].
  - rewrite rev_app_distr. cbn [rev]. rewrite <- app_assoc.
    apply starts_clean_app; [|exact IH2].
    intros E. apply Hrest. rewrite <- (rev_involutive (runes _)), E. reflexivity.
Qed.

Lemma TrimSpace_Join (ws : list string) :
  Forall is_word ws -> TrimSpace (Join ws " ") = Join ws " ".
Proof.
  intros Hws. destruct (runes_Join_clean ws Hws) as [H1 H2].
  unfold TrimSpace. fold (trim (runes (Join ws " "))).
  rewrite (trim_clean _ H1 H2). apply bytes_of_runes.
Qed.

(** The chunks of a trimmed text are trimmed. *)
Lemma ChunkText_trimmed (text : string) (size overlap : Z) (chunks : list string) :
  len text <= max_int -> 0 <= overlap < size ->
  TrimSpace text = text ->
  ChunkText text size overlap = Returns chunks ->
  Forall (fun chunk => TrimSpace chunk = chunk) chunks.
Proof.
  intros Hlen Hov Htrim E.
  destruct (Z_le_gt_dec (Z.of_nat (length (Fields text))) size) as [Hshort|Hlong].
  - rewrite (ChunkText_short text size overlap Hshort) in E. injection E as <-.
    constructor; [exact Htrim|constructor].
  - rewrite (ChunkText_long text size overlap Hlen Hov) in E by lia.
    injection E as <-. unfold sliding_chunks. apply Forall_map.
    apply List.Forall_forall. intros j _. apply TrimSpace_Join.
    unfold window_words. apply Forall_take, Forall_drop, Fields_words.
Qed.

Lemma ChunkText_count (text : string) (size overlap : Z) (chunks : list string) :
  len text <= max_int -> 0 <= overlap < size ->
  ChunkText text size overlap = Returns chunks ->
  Z.of_nat (length chunks) <= max_int.
Proof.
  intros Hlen Hov E.
  destruct (Z_le_gt_dec (Z.of_nat (length (Fields text))) size) as [Hshort|Hlong].
  - rewrite (ChunkText_short text size overlap Hshort) in E. injection E as <-.
    cbn [length]. unfold max_int. lia.
  - assert (size < Z.of_nat (length (Fields text))) as Hlong' by lia.
    rewrite (ChunkText_long text size overlap Hlen Hov Hlong') in E.
    injection E as <-. unfold sliding_chunks. rewrite length_map, length_seq.
    pose proof (last_lt_w (Fields text) size overlap Hov Hlong') as Hlast.
    pose proof (last_nonneg (Fields text) size overlap Hov Hlong') as Hpos.
    cbv zeta in Hlast, Hpos. unfold chunk_count.
    pose proof (Fields_length text). unfold len in Hlen. lia.
Qed.

Lemma enumerate_from_nth {A : Type} (xs : list A) :
  forall (k i : Z) (x : A),
    0 <= k -> k + Z.of_nat (length xs) <= max_int + 1 ->
    In (i, x) (enumerate_from k xs) ->
    exists n : nat, i = k + Z.of_nat n /\ nth_error xs n = Some x.
Proof.
  induction xs as [|x0 xs IH]; intros k i x Hk Hfit Hin; [destruct Hin|].
  cbn [enumerate_from length] in *. destruct Hin as [E|Hin].
  - injection E as <- <-. exists 0%nat. split; [lia|reflexivity].
  - destruct xs as [|x1 xs]; [destruct Hin|]. unfold GoInt.add in Hin at 1.
    rewrite wrap64_id in Hin
      by (clear -Hk Hfit; cbn [length] in Hfit;
          unfold in_range, min_int, max_int in *; lia).
    destruct (IH (k + 1) i x ltac:(lia) ltac:(lia) Hin) as (n & -> & Hn).
    exists (S n). split; [lia|exact Hn].
Qed.

(** ** Extraction *)

Lemma extract_pages_kept `{UnicodeTables} (reader : list pdf_page) :
  forall pages, extract_pages reader pages = pages ++ kept_pages reader.
Proof.
  unfold kept_pages.
  induction reader as [|[|e|content] reader IH]; intros pages;
    cbn [extract_pages readable_texts flat_map app List.filter].
  - rewrite app_nil_r. reflexivity.
  - apply IH.
  - apply IH.
  - fold (readable_texts reader). destruct (len (cleanText content) >? 50).
    + rewrite IH, <- app_assoc. reflexivity.
    + apply IH.
Qed.

Lemma readable_texts_length `{UnicodeTables} (reader : list pdf_page) :
  (length (readable_texts reader) <= length reader)%nat.
Proof.
  unfold readable_texts.
  induction reader as [|[|e|content] reader IH];
    cbn [flat_map app length] in *; lia.
Qed.

Lemma kept_pages_length `{UnicodeTables} (reader : list pdf_page) :
  (length (kept_pages reader) <= length reader)%nat.
Proof.
  unfold kept_pages. pose proof (readable_texts_length reader).
  pose proof (filter_length_le (fun page => len page >? 50) (readable_texts reader)).
  lia.
Qed.

Lemma kept_pages_cleaned `{UnicodeTables} (reader : list pdf_page) (page : string) :
  In page (kept_pages reader) ->
  50 < len page
  /\ exists content, In (PageText content) reader /\ page = cleanText content.
Proof.
  unfold kept_pages. intros Hin. apply filter_In in Hin as [Hin Hlen].
  split; [destruct (Z.gtb_spec (len page) 50); [lia|discriminate]|].
  unfold readable_texts in Hin. apply in_flat_map in Hin as (p & Hp & Hin).
  destruct p as [|e|content]; [destruct Hin|destruct Hin|].
  destruct Hin as [<-|[]]. exists content. split; [exact Hp|reflexivity].
Qed.

Lemma kept_pages_normalised `{UnicodeTables} (reader : list pdf_page) :
  Forall (fun page => 50 < len page /\ TrimSpace page = page /\ one_line page = true)
         (kept_pages reader).
Proof.
  apply List.Forall_forall. intros page Hin.
  apply kept_pages_cleaned in Hin as (Hlen & content & _ & ->).
  split; [exact Hlen|]. split; [apply cleanText_trimmed|apply cleanText_one_line].
Qed.

(** X6. On a file that opens, [ExtractTextFromPDF] does not fail and
    leaves the world as it is.  It returns, in the order of the reader, the
    cleaned texts of more than 50 bytes of the pages that are not null and
    whose text can be read: no more texts than the reader has pages, each of
    them trimmed and on one line. *)
Theorem ExtractTextFromPDF_kept_pages `{UnicodeTables} (r : RAGChatbot)
    (filename : string) (reader : list pdf_page) (w : World) :
  pdf_files w !! filename = Some reader ->
  ExtractTextFromPDF r filename w = Returns (Ok (kept_pages reader), w)
  /\ (length (kept_pages reader) <= length reader)%nat
  /\ Forall (fun page => 50 < len page /\ TrimSpace page = page
                         /\ one_line page = true)
       (kept_pages reader).
Proof.
  intros Hopen. split; [|split].
  - rewrite (ExtractTextFromPDF_opened r filename reader w Hopen).
    rewrite extract_pages_kept. reflexivity.
  - apply kept_pages_length.
  - apply kept_pages_normalised.
Qed.

Lemma ExtractTextFromPDF_kept_pages_witness :
  ExtractTextFromPDF NewRAGChatbot "libro.pdf" library_world
  = Returns (Ok [long_page], library_world)
  /\ (length (kept_pages [PageText long_page; PageNull; PageText "ciao";
                          PageTextError "illeggibile"]) <= 4)%nat
  /\ Forall (fun page => 50 < len page /\ TrimSpace page = page
                         /\ one_line page = true)
       (kept_pages [PageText long_page; PageNull; PageText "ciao";
                    PageTextError "illeggibile"]).
Proof.
  exact (ExtractTextFromPDF_kept_pages NewRAGChatbot "libro.pdf"
           [PageText long_page; PageNull; PageText "ciao"; PageTextError "illeggibile"]
           library_world eq_refl).
Defined.

(** ** Ingestion: what is stored *)

Lemma GetEmbedding_embedded (r : RAGChatbot) (text : string) (w : World) :
  exists res,
    GetEmbedding r text w
    = Returns (res, with_calls w (calls w ++ [embed_call r text]))
    /\ forall vector, res = Ok vector ->
         exists resp rest,
           embed (service w) (calls w) (ollamaBaseURL r +:+ "/api/embed")
             {| EmbeddingRequest.Model := embedModel r;
                EmbeddingRequest.Input := text |}
           = Decoded resp
           /\ Embeddings resp = vector :: rest.
Proof.
  unfold GetEmbedding, mbind, Go_bind, post_embed, embed_call.
  destruct (embed _ _ _ _) as [e|e|[[|first rest]]] eqn:E;
    eexists; (split; [reflexivity|]); intros vector Hres; try discriminate.
  injection Hres as <-. eexists _, _. split; [reflexivity|reflexivity].
Qed.

Lemma embed_call_config (r0 r : RAGChatbot) (text : string) :
  same_config r0 r -> embed_call r text = embed_call r0 text.
Proof. intros (Hurl & Hembed & _). unfold embed_call. rewrite Hurl, Hembed. reflexivity. Qed.

Lemma ingest_chunk_ingested (good : Document -> Prop) (r0 : RAGChatbot) (w0 : World)
    (docID : string) (page : Z) (chunk : string) (r : RAGChatbot) (w : World) :
  (forall vector,
     let doc := {| ID := docID; Content := chunk; Page := page; Vector := vector |} in
     20 <= len (TrimSpace chunk) -> embedded_by r0 w0 doc -> good doc) ->
  ingested good r0 w0 r w ->
  exists r' w', ingest_chunk docID page chunk r w = Returns (r', w')
                /\ ingested good r0 w0 r' w'.
Proof.
  intros Hgood (Hcfg & Hdocs & texts & -> & Hcount). unfold ingest_chunk.
  destruct (Z.ltb_spec (len (TrimSpace chunk)) 20) as [Hshort|Hlong].
  { eexists _, _. split; [reflexivity|].
    split; [exact Hcfg|]. split; [exact Hdocs|]. exists texts. split; [reflexivity|exact Hcount]. }
  destruct (GetEmbedding_embedded r chunk
              (with_calls w0 (calls w0 ++ map (embed_call r0) texts)))
    as (res & E & Hres).
  rewrite (bind_returns _ _ _ _ _ E).
  assert (with_calls (with_calls w0 (calls w0 ++ map (embed_call r0) texts))
            (calls (with_calls w0 (calls w0 ++ map (embed_call r0) texts))
             ++ [embed_call r chunk])
          = with_calls w0 (calls w0 ++ map (embed_call r0) (texts ++ [chunk])))
    as Ew.
  { rewrite (embed_call_config r0 r chunk Hcfg), map_app, app_assoc. reflexivity. }
  rewrite Ew. clear Ew E.
  destruct res as [vector|err].
  - eexists _, _. split; [reflexivity|].
    split; [exact Hcfg|]. split.
    + cbn [with_Documents with_store vectorStore Documents].
      apply Forall_app. split; [exact Hdocs|]. constructor; [|constructor].
      apply Hgood; [exact Hlong|].
      destruct (Hres vector eq_refl) as (resp & rest & Eresp & Erest).
      destruct Hcfg as (Hurl & Hembed & _). rewrite Hurl, Hembed in Eresp.
      eexists _, resp, rest. split; [exact Eresp|exact Erest].
    + exists (texts ++ [chunk]). split; [reflexivity|].
      cbn [with_Documents with_store vectorStore Documents].
      rewrite !length_app. cbn [length]. lia.
  - eexists _, _. split; [reflexivity|].
    split; [exact Hcfg|]. split; [exact Hdocs|].
    exists (texts ++ [chunk]). split; [reflexivity|]. rewrite length_app. lia.
Qed.

Lemma nth_error_Forall {A : Type} (P : A -> Prop) (l : list A) (n : nat) (x : A) :
  Forall P l -> nth_error l n = Some x -> P x.
Proof.
  intros Hall Hn. apply (proj1 (List.Forall_forall P l) Hall).
  exact (nth_error_In _ _ Hn).
Qed.

Lemma ingest_page_ingested (pages : list string) (r0 : RAGChatbot) (w0 : World)
    (p : nat) (pageText : string) (r : RAGChatbot) (w : World) :
  nth_error pages p = Some pageText ->
  Z.of_nat (length pages) <= max_int ->
  len pageText <= max_int ->
  TrimSpace pageText = pageText ->
  ingested (fun d => pdf_document pages d /\ embedded_by r0 w0 d) r0 w0 r w ->
  exists r' w',
    ingest_page r (Z.of_nat p, pageText) w = Returns (r', w')
    /\ ingested (fun d => pdf_document pages d /\ embedded_by r0 w0 d) r0 w0 r' w'.
Proof.
  intros Hp Hpages Hlen Htrim Hinv. unfold ingest_page.
  destruct (ChunkText_300_50_returns pageText Hlen) as [chunks E].
  unfold mbind at 1, Go_bind at 1, lift. rewrite E.
  pose proof (ChunkText_count pageText 300 50 chunks Hlen ltac:(lia) E) as Hcount.
  pose proof (ChunkText_trimmed pageText 300 50 chunks Hlen ltac:(lia) Htrim E)
    as Htrimmed.
  assert (GoInt.add (Z.of_nat p) 1 = Z.of_nat p + 1) as Epage.
  { apply wrap64_id.
    pose proof (proj1 (nth_error_Some pages p) ltac:(rewrite Hp; discriminate)).
    unfold in_range, min_int, max_int in *. lia. }
  apply (for_range_invariant
           (ingested (fun d => pdf_document pages d /\ embedded_by r0 w0 d) r0 w0));
    [|exact Hinv].
  intros r1 w1 [chunkIdx chunk] Hin Hinv1.
  apply enumerate_from_nth in Hin as (c & -> & Hc); [|lia|lia].
  apply ingest_chunk_ingested; [|exact Hinv1].
  intros vector doc Hlong Hemb. split; [|exact Hemb].
  exists p, c, pageText, chunks. subst doc. cbn [ID Content Page Vector].
  rewrite Epage, Z.add_0_l.
  repeat split; try assumption; try reflexivity.
  rewrite <- (nth_error_Forall _ _ _ _ Htrimmed Hc). exact Hlong.
Qed.

Lemma SaveVectorStore_frame (r : RAGChatbot) (w : World) :
  exists err w',
    SaveVectorStore r w = Returns (err, w')
    /\ (err <> None -> w' = w)
    /\ calls w' = calls w /\ service w' = service w
    /\ pdf_files w' = pdf_files w /\ text_files w' = text_files w
    /\ read_only w' = read_only w
    /\ forall path, path <> dbPath r -> json_files w' !! path = json_files w !! path.
Proof.
  unfold SaveVectorStore.
  destruct (Codec.MarshalIndent (vectorStore r)) as [data|e].
  - unfold os_WriteFile. destruct (bool_decide (dbPath r ∈ read_only w)).
    + eexists _, _. split; [reflexivity|]. repeat split; reflexivity.
    + eexists _, _. split; [reflexivity|].
      split; [intros Herr; contradiction|].
      repeat split; try reflexivity.
      intros path Hpath. cbn [json_files with_json_files].
      apply lookup_insert_ne. congruence.
  - eexists _, _. split; [reflexivity|]. repeat split; reflexivity.
Qed.

(** X7. On a file that opens, [ProcessPDF] returns, and the store it
    leaves holds nothing but what it made from this file: every document is
    a chunk, of at least 20 bytes, of one of the texts that
    [ExtractTextFromPDF] kept; its page is the position of that text among
    the kept ones, counted from 1; its identifier spells that page, the
    index of the chunk and the fingerprint of the content; and its vector is
    the first embedding the service sent for the content.  The model name is
    the embedding model, the configuration is as before, and the service was
    only asked for embeddings, at least once per document stored.  The
    bounds are those of Go's [int] and strings. *)
Theorem ProcessPDF_documents `{UnicodeTables} (r : RAGChatbot) (filename : string)
    (reader : list pdf_page) (w : World) :
  pdf_files w !! filename = Some reader ->
  Z.of_nat (length reader) <= max_int ->
  (forall content, In (PageText content) reader -> len content <= max_int) ->
  exists r' err w' texts,
    ProcessPDF r filename w = Returns ((r', err), w')
    /\ same_config r r'
    /\ ModelName (vectorStore r') = embedModel r
    /\ Forall (fun d => pdf_document (kept_pages reader) d /\ embedded_by r w d)
         (Documents (vectorStore r'))
    /\ calls w' = calls w ++ map (embed_call r) texts
    /\ (length (Documents (vectorStore r')) <= length texts)%nat.
Proof.
  intros Hopen Hpages Hlen. unfold ProcessPDF.
  rewrite (bind_returns _ _ _ _ _ (ExtractTextFromPDF_opened r filename reader w Hopen)).
  rewrite extract_pages_kept. cbn [app].
  destruct (for_range_invariant
              (ingested (fun d => pdf_document (kept_pages reader) d
                                  /\ embedded_by r w d) r w)
              (enumerate_from 0 (kept_pages reader)) ingest_page)
    with (s := with_Documents r []) (w := w)
    as (r1 & w1 & E & Hcfg & Hdocs & texts & -> & Hcount).
  - intros r2 w2 [pageNum pageText] Hin Hinv.
    pose proof (kept_pages_length reader) as Hkept.
    apply enumerate_from_nth in Hin as (p & -> & Hp); [|lia|lia].
    rewrite Z.add_0_l.
    pose proof (nth_error_Forall _ _ _ _ (kept_pages_normalised reader) Hp)
      as (_ & Htrim & _).
    destruct (kept_pages_cleaned reader pageText (nth_error_In _ _ Hp))
      as (_ & content & Hcontent & ->).
    apply (ingest_page_ingested (kept_pages reader) r w p); try assumption.
    + lia.
    + pose proof (cleanText_length content). specialize (Hlen content Hcontent). lia.
  - split; [repeat split|]. split; [constructor|].
    exists []. split; [|cbn; lia]. cbn [map]. rewrite app_nil_r.
    destruct w; reflexivity.
  - rewrite (bind_returns _ _ _ _ _ E).
    destruct (SaveVectorStore_frame (with_ModelName r1 (embedModel r1))
                (with_calls w (calls w ++ map (embed_call r) texts)))
      as (err & w' & Esave & _ & Hcalls & _).
    rewrite (bind_returns _ _ _ _ _ Esave).
    exists (with_ModelName r1 (embedModel r1)), err, w', texts.
    split; [reflexivity|].
    destruct Hcfg as (Hurl & Hembed & Hchat & Hdb).
    split; [repeat split; assumption|]. split; [exact Hembed|].
    split; [exact Hdocs|]. split; [exact Hcalls|exact Hcount].
Qed.

Lemma ProcessPDF_documents_witness :
  exists r' err w' texts,
    ProcessPDF NewRAGChatbot "libro.pdf" library_world = Returns ((r', err), w')
    /\ same_config NewRAGChatbot r'
    /\ ModelName (vectorStore r') = embedModel NewRAGChatbot
    /\ Forall (fun d => pdf_document
                          (kept_pages [PageText long_page; PageNull; PageText "ciao";
                                       PageTextError "illeggibile"]) d
                        /\ embedded_by NewRAGChatbot library_world d)
         (Documents (vectorStore r'))
    /\ calls w' = calls library_world ++ map (embed_call NewRAGChatbot) texts
    /\ (length (Documents (vectorStore r')) <= length texts)%nat.
Proof.
  apply (ProcessPDF_documents NewRAGChatbot "libro.pdf"
           [PageText long_page; PageNull; PageText "ciao"; PageTextError "illeggibile"]
           library_world).
  - reflexivity.
  - vm_compute. discriminate.
  - intros content [E|[E|[E|[E|[]]]]]; try discriminate;
      injection E as <-; vm_compute; discriminate.
Defined.

(** X8. On a file that can be read, [ProcessTXT] refuses a text whose
    cleaned form is shorter than 50 bytes, leaving the chatbot and the world
    as they were; otherwise it returns, and every document it stores is a
    chunk, of at least 20 bytes, of the cleaned text, on page 1, with an
    identifier that spells the index of the chunk and the fingerprint of the
    content, and with the first embedding the service sent for the content
    as its vector.  The second trimming in the length test changes
    nothing: the test is on the length of the cleaned text. *)
Theorem ProcessTXT_documents `{UnicodeTables} (r : RAGChatbot) (filename : string)
    (text : string) (w : World) :
  text_files w !! filename = Some text ->
  len text <= max_int ->
  (len (cleanText text) < 50 ->
   ProcessTXT r filename w
   = Returns ((r, Some "file TXT troppo corto o vuoto"%string), w))
  /\ (50 <= len (cleanText text) ->
      exists r' err w' texts,
        ProcessTXT r filename w = Returns ((r', err), w')
        /\ same_config r r'
        /\ ModelName (vectorStore r') = embedModel r
        /\ Forall (fun d => txt_document (cleanText text) d /\ embedded_by r w d)
             (Documents (vectorStore r'))
        /\ calls w' = calls w ++ map (embed_call r) texts
        /\ (length (Documents (vectorStore r')) <= length texts)%nat).
Proof.
  intros Hread Hlen.
  assert (ProcessTXT r filename w
          = (if len (cleanText text) <? 50
             then mret (r, Some "file TXT troppo corto o vuoto"%string)
             else
               let r := with_Documents r [] in
               chunks ← lift (ChunkText (cleanText text) 300 50);
               r ← for_range (enumerate_from 0 chunks)
                     (fun r '(chunkIdx, chunk) =>
                        let docID := "txt_chunk_" +:+ pretty chunkIdx +:+ "_"
                                     +:+ fingerprint chunk in
                        ingest_chunk docID 1 chunk r)
                     r;
               let r := with_ModelName r (embedModel r) in
               err ← SaveVectorStore r;
               mret (r, err)) w) as ->.
  { unfold ProcessTXT. unfold mbind at 1, Go_bind at 1, os_ReadFile_text.
    rewrite Hread, cleanText_trimmed. reflexivity. }
  split.
  - intros Hshort. rewrite (proj2 (Z.ltb_lt _ _) Hshort). reflexivity.
  - intros Hlong. rewrite (proj2 (Z.ltb_ge _ _) Hlong). cbv zeta.
    assert (len (cleanText text) <= max_int) as Hclean
      by (pose proof (cleanText_length text); lia).
    destruct (ChunkText_300_50_returns _ Hclean) as [chunks Echunks].
    unfold mbind at 1, Go_bind at 1, lift. rewrite Echunks.
    pose proof (ChunkText_count _ 300 50 chunks Hclean ltac:(lia) Echunks) as Hcount.
    pose proof (ChunkText_trimmed _ 300 50 chunks Hclean ltac:(lia)
                  (cleanText_trimmed text) Echunks) as Htrimmed.
    destruct (for_range_invariant
                (ingested (fun d => txt_document (cleanText text) d
                                    /\ embedded_by r w d) r w)
                (enumerate_from 0 chunks)
                (fun r '(chunkIdx, chunk) =>
                   ingest_chunk ("txt_chunk_" +:+ pretty chunkIdx +:+ "_"
                                 +:+ fingerprint chunk) 1 chunk r))
      with (s := with_Documents r []) (w := w)
      as (r1 & w1 & E & Hcfg & Hdocs & texts & -> & Hstored).
    + intros r2 w2 [chunkIdx chunk] Hin Hinv.
      apply enumerate_from_nth in Hin as (c & -> & Hc); [|lia|lia].
      apply ingest_chunk_ingested; [|exact Hinv].
      intros vector doc Hbytes Hemb. split; [|exact Hemb].
      exists c, chunks. subst doc. cbn [ID Content Page Vector].
      rewrite Z.add_0_l. repeat split; try assumption; try reflexivity.
      rewrite <- (nth_error_Forall _ _ _ _ Htrimmed Hc). exact Hbytes.
    + split; [repeat split|]. split; [constructor|].
      exists []. split; [|cbn; lia]. cbn [map]. rewrite app_nil_r.
      destruct w; reflexivity.
    + rewrite (bind_returns _ _ _ _ _ E).
      destruct (SaveVectorStore_frame (with_ModelName r1 (embedModel r1))
                  (with_calls w (calls w ++ map (embed_call r) texts)))
        as (err & w' & Esave & _ & Hcalls & _).
      rewrite (bind_returns _ _ _ _ _ Esave).
      exists (with_ModelName r1 (embedModel r1)), err, w', texts.
      split; [reflexivity|].
      destruct Hcfg as (Hurl & Hembed & Hchat & Hdb).
      split; [repeat split; assumption|]. split; [exact Hembed|].
      split; [exact Hdocs|]. split; [exact Hcalls|exact Hstored].
Qed.

Lemma ProcessTXT_documents_witness :
  ProcessTXT NewRAGChatbot "nota.txt"
    (with_text (world_of (constant_service [of_Z 3; of_Z 4])) "nota.txt" "ciao")
  = Returns ((NewRAGChatbot, Some "file TXT troppo corto o vuoto"%string),
             with_text (world_of (constant_service [of_Z 3; of_Z 4])) "nota.txt" "ciao")
  /\ exists r' err w' texts,
       ProcessTXT NewRAGChatbot "libro.txt"
         (with_text (world_of (constant_service [of_Z 3; of_Z 4])) "libro.txt" long_page)
       = Returns ((r', err), w')
       /\ same_config NewRAGChatbot r'
       /\ ModelName (vectorStore r') = embedModel NewRAGChatbot
       /\ Forall (fun d => txt_document (cleanText long_page) d
                           /\ embedded_by NewRAGChatbot
                                (with_text (world_of (constant_service [of_Z 3; of_Z 4]))
                                   "libro.txt" long_page) d)
            (Documents (vectorStore r'))
       /\ calls w'
          = calls (with_text (world_of (constant_service [of_Z 3; of_Z 4]))
                     "libro.txt" long_page)
            ++ map (embed_call NewRAGChatbot) texts
       /\ (length (Documents (vectorStore r')) <= length texts)%nat.
Proof.
  split.
  - refine (proj1 (ProcessTXT_documents NewRAGChatbot "nota.txt" "ciao"
                     (with_text (world_of (constant_service [of_Z 3; of_Z 4]))
                        "nota.txt" "ciao") _ _) _).
    + reflexivity.
    + vm_compute. discriminate.
    + vm_compute. reflexivity.
  - refine (proj2 (ProcessTXT_documents NewRAGChatbot "libro.txt" long_page
                     (with_text (world_of (constant_service [of_Z 3; of_Z 4]))
                        "libro.txt" long_page) _ _) _).
    + reflexivity.
    + vm_compute. discriminate.
    + vm_compute. discriminate.
Defined.

(** ** Identifiers *)

Lemma little_endian_length (n : nat) : forall x, length (MD5.little_endian n x) = n.
Proof. induction n as [|n IH]; intros x; cbn [MD5.little_endian length]; [|rewrite IH]; reflexivity. Qed.

Lemma string_of_list_ascii_length (l : list ascii) :
  String.length (string_of_list_ascii l) = length l.
Proof. induction l as [|c l IH]; cbn [string_of_list_ascii String.length length]; [|rewrite IH]; reflexivity. Qed.

(** A digest has sixteen bytes. *)
Lemma Sum_length (data : string) : String.length (MD5.Sum data) = 16%nat.
Proof.
  unfold MD5.Sum. destruct (fold_left MD5.compress _ _) as [[[a b] c] d].
  unfold MD5.string_of_bytes.
  rewrite string_of_list_ascii_length, length_map, !length_app, !little_endian_length.
  reflexivity.
Qed.

Lemma substring_length (n : nat) : forall s,
  String.length (substring 0 n s) = Nat.min n (String.length s).
Proof.
  induction n as [|n IH]; intros [|c s]; cbn [substring String.length Nat.min];
    try reflexivity. rewrite IH. reflexivity.
Qed.

Lemma hex_length (bs : string) : String.length (hex bs) = (2 * String.length bs)%nat.
Proof.
  induction bs as [|c bs IH]; [reflexivity|].
  cbn [hex String.length]. rewrite IH. lia.
Qed.

Lemma byte_range (c : ascii) : 0 <= byte c < 256.
Proof.
  unfold byte. pose proof (N_ascii_bounded c) as Hb. lia.
Qed.

Lemma byte_ascii_of_nat (n : nat) : (n < 256)%nat -> byte (ascii_of_nat n) = Z.of_nat n.
Proof.
  intros Hn. unfold byte, ascii_of_nat.
  rewrite N_ascii_embedding by lia. lia.
Qed.

Lemma hex_digit_lower_hex (n : Z) : 0 <= n < 16 -> lower_hex (hex_digit n) = true.
Proof.
  intros Hn. unfold hex_digit, lower_hex.
  destruct (Z.ltb_spec n 10) as [Hlt|Hge];
    rewrite byte_ascii_of_nat by lia; rewrite Z2Nat.id by lia;
    apply orb_true_iff; [left|right]; apply andb_true_iff;
    split; apply Z.leb_le; lia.
Qed.

Lemma hex_lower_hex (bs : string) :
  forallb lower_hex (list_ascii_of_string (hex bs)) = true.
Proof.
  induction bs as [|c bs IH]; [reflexivity|].
  cbn [hex list_ascii_of_string forallb]. pose proof (byte_range c) as Hc.
  rewrite !hex_digit_lower_hex, IH; [reflexivity| |].
  - pose proof (Z.mod_pos_bound (byte c) 16). lia.
  - split; [apply Z.div_pos; lia|apply Z.div_lt_upper_bound; lia].
Qed.

(** X9. The fingerprint that ends the identifier of a document is
    always eight digits of the lower-case hexadecimal notation: the first
    four of the sixteen bytes of the MD5 digest of the content, two digits
    for each. *)
Theorem fingerprint_shape (chunk : string) :
  String.length (fingerprint chunk) = 8%nat
  /\ forallb lower_hex (list_ascii_of_string (fingerprint chunk)) = true.
Proof.
  unfold fingerprint. split; [|apply hex_lower_hex].
  rewrite hex_length, substring_length, Sum_length. reflexivity.
Qed.

(** ** Ingestion replaces the index *)

Lemma ingest_chunk_renamed (docID : string) (page : Z) (chunk : string)
    (r : RAGChatbot) (name : string) (w : World) :
  ingest_chunk docID page chunk (with_ModelName r name) w
  = renamed name (ingest_chunk docID page chunk r w).
Proof.
  unfold ingest_chunk. destruct (len (TrimSpace chunk) <? 20); [reflexivity|].
  change (GetEmbedding (with_ModelName r name) chunk) with (GetEmbedding r chunk).
  unfold mbind, Go_bind.
  destruct (GetEmbedding r chunk w) as [[[vector|err] w']| |]; reflexivity.
Qed.

Lemma for_range_renamed {A : Type} (xs : list A) (body : RAGChatbot -> A -> Go RAGChatbot)
    (name : string) :
  (forall r x w, body (with_ModelName r name) x w = renamed name (body r x w)) ->
  forall r w,
    for_range xs body (with_ModelName r name) w = renamed name (for_range xs body r w).
Proof.
  intros Hbody. induction xs as [|x xs IH]; intros r w; [reflexivity|].
  cbn [for_range]. unfold mbind, Go_bind. rewrite Hbody.
  destruct (body r x w) as [[r1 w1]| |]; [|reflexivity|reflexivity].
  cbn [renamed]. apply IH.
Qed.

Lemma bind_lift {A B : Type} (o : outcome A) (f : A -> Go B) (w : World) :
  (x ← lift o; f x) w
  = match o with
    | Returns a => f a w
    | Panics => Panics
    | Diverges => Diverges
    end.
Proof. destruct o; reflexivity. Qed.

Lemma ingest_page_renamed (page : Z * string) (r : RAGChatbot) (name : string)
    (w : World) :
  ingest_page (with_ModelName r name) page w = renamed name (ingest_page r page w).
Proof.
  destruct page as [pageNum pageText]. unfold ingest_page.
  rewrite !bind_lift.
  destruct (ChunkText pageText 300 50) as [chunks| |]; [|reflexivity|reflexivity].
  apply for_range_renamed. intros r1 [chunkIdx chunk] w1.
  apply ingest_chunk_renamed.
Qed.

(** X10. An ingestion that gets as far as its text replaces the index
    wholesale: what the store held before, documents and model name, has no
    part in what [ProcessPDF] returns and leaves on a file that opens, nor
    in what [ProcessTXT] does on a file whose cleaned text has at least 50
    bytes.  This holds whatever the service answers, also when the call
    does not return. *)
Theorem ingestion_replaces `{UnicodeTables} (r : RAGChatbot) (vs : VectorStore)
    (filename : string) (w : World) :
  (pdf_files w !! filename <> None ->
   ProcessPDF (with_store r vs) filename w = ProcessPDF r filename w)
  /\ (forall text, text_files w !! filename = Some text ->
                   50 <= len (cleanText text) ->
                   ProcessTXT (with_store r vs) filename w = ProcessTXT r filename w).
Proof.
  split.
  - intros Hopen. destruct (pdf_files w !! filename) as [reader|] eqn:E;
      [clear Hopen|contradiction].
    unfold ProcessPDF.
    rewrite !(bind_returns _ _ _ _ _ (ExtractTextFromPDF_opened _ filename reader w E)).
    change (with_Documents (with_store r vs) [])
      with (with_ModelName (with_Documents r []) (ModelName vs)).
    unfold mbind, Go_bind.
    rewrite (for_range_renamed _ _ _ (fun r page w => ingest_page_renamed page r _ w)).
    destruct (for_range _ ingest_page (with_Documents r []) w) as [[r1 w1]| |];
      reflexivity.
  - intros text Hread Hlong. unfold ProcessTXT.
    rewrite !(bind_returns (os_ReadFile_text filename) _ w w (Ok text))
      by (unfold os_ReadFile_text; rewrite Hread; reflexivity).
    rewrite cleanText_trimmed, (proj2 (Z.ltb_ge _ _) Hlong).
    change (with_Documents (with_store r vs) [])
      with (with_ModelName (with_Documents r []) (ModelName vs)).
    cbv zeta. rewrite !bind_lift.
    destruct (ChunkText (cleanText text) 300 50) as [chunks| |];
      [|reflexivity|reflexivity].
    unfold mbind, Go_bind.
    rewrite for_range_renamed
      by (intros r1 [chunkIdx chunk] w1; apply ingest_chunk_renamed).
    destruct (for_range _ _ (with_Documents r []) w) as [[r1 w1]| |]; reflexivity.
Qed.

Lemma ingestion_replaces_witness :
  ProcessPDF (with_store NewRAGChatbot
                {| Documents := three_documents; ModelName := "vecchio" |})
    "libro.pdf" library_world
  = ProcessPDF NewRAGChatbot "libro.pdf" library_world
  /\ ProcessTXT (with_store NewRAGChatbot
                   {| Documents := three_documents; ModelName := "vecchio" |})
       "libro.txt"
       (with_text (world_of (constant_service [of_Z 3; of_Z 4])) "libro.txt" long_page)
     = ProcessTXT NewRAGChatbot "libro.txt"
         (with_text (world_of (constant_service [of_Z 3; of_Z 4])) "libro.txt" long_page).
Proof.
  split.
  - apply (proj1 (ingestion_replaces NewRAGChatbot
                    {| Documents := three_documents; ModelName := "vecchio" |}
                    "libro.pdf" library_world)).
    intros E. vm_compute in E. discriminate E.
  - apply (proj2 (ingestion_replaces NewRAGChatbot
                    {| Documents := three_documents; ModelName := "vecchio" |}
                    "libro.txt"
                    (with_text (world_of (constant_service [of_Z 3; of_Z 4]))
                       "libro.txt" long_page))
             long_page).
    + reflexivity.
    + vm_compute. discriminate.
Defined.

(** ** Ingestion: the order of the documents *)

Lemma ingest_chunk_in_order (p : Z) (r0 : RAGChatbot) (w0 : World) (docID : string)
    (chunk : string) (r : RAGChatbot) (w : World) :
  1 <= p ->
  in_reading_order p r0 w0 r w ->
  exists r' w', ingest_chunk docID p chunk r w = Returns (r', w')
                /\ in_reading_order p r0 w0 r' w'.
Proof.
  intros Hp (Hcfg & Hpages & Hsorted & cs & ->). unfold ingest_chunk.
  destruct (len (TrimSpace chunk) <? 20).
  { eexists _, _. split; [reflexivity|]. split; [exact Hcfg|].
    split; [exact Hpages|]. split; [exact Hsorted|]. eexists. reflexivity. }
  destruct (GetEmbedding_total r chunk (with_calls w0 cs)) as [[vector|err] E];
    rewrite (bind_returns _ _ _ _ _ E).
  - eexists _, _. split; [reflexivity|]. split; [exact Hcfg|].
    cbn [with_Documents with_store vectorStore Documents]. split; [|split].
    + apply Forall_app. split; [exact Hpages|].
      constructor; [cbn [Page]; lia|constructor].
    + apply StronglySorted_snoc; [exact Hsorted|].
      apply (Forall_impl _ _ _ Hpages). intros d Hd. cbn [Page]. lia.
    + eexists. reflexivity.
  - eexists _, _. split; [reflexivity|]. split; [exact Hcfg|].
    split; [exact Hpages|]. split; [exact Hsorted|]. eexists. reflexivity.
Qed.

Lemma ingest_page_in_order (k : nat) (pageText : string) (r0 : RAGChatbot)
    (w0 : World) (r : RAGChatbot) (w : World) :
  Z.of_nat k + 1 <= max_int ->
  len pageText <= max_int ->
  in_reading_order (Z.of_nat k) r0 w0 r w ->
  exists r' w',
    ingest_page r (Z.of_nat k, pageText) w = Returns (r', w')
    /\ in_reading_order (Z.of_nat k + 1) r0 w0 r' w'.
Proof.
  intros Hk Hlen (Hcfg & Hpages & Hsorted & Hw). unfold ingest_page.
  destruct (ChunkText_300_50_returns pageText Hlen) as [chunks E].
  rewrite bind_lift, E.
  assert (GoInt.add (Z.of_nat k) 1 = Z.of_nat k + 1) as ->.
  { apply wrap64_id. unfold in_range, min_int, max_int in *. lia. }
  apply (for_range_invariant (in_reading_order (Z.of_nat k + 1) r0 w0)).
  - intros r1 w1 [chunkIdx chunk] _ Hinv.
    apply ingest_chunk_in_order; [lia|exact Hinv].
  - split; [exact Hcfg|]. split; [|split; [exact Hsorted|exact Hw]].
    apply (Forall_impl _ _ _ Hpages). intros d Hd. lia.
Qed.

Lemma ingest_pages_in_order (pages : list string) (r0 : RAGChatbot) (w0 : World) :
  forall (k : nat) (r : RAGChatbot) (w : World),
    Z.of_nat k + Z.of_nat (length pages) <= max_int ->
    Forall (fun pageText => len pageText <= max_int) pages ->
    in_reading_order (Z.of_nat k) r0 w0 r w ->
    exists r' w',
      for_range (enumerate_from (Z.of_nat k) pages) ingest_page r w = Returns (r', w')
      /\ in_reading_order (Z.of_nat k + Z.of_nat (length pages)) r0 w0 r' w'.
Proof.
  induction pages as [|pageText pages IH]; intros k r w Hfit Hlen Hinv.
  - exists r, w. split; [reflexivity|]. cbn [length]. rewrite Z.add_0_r. exact Hinv.
  - cbn [length] in Hfit. apply Forall_cons_iff in Hlen as [Hpage Hlen].
    cbn [enumerate_from for_range].
    destruct (ingest_page_in_order k pageText r0 w0 r w ltac:(lia) Hpage Hinv)
      as (r1 & w1 & E & Hinv1).
    rewrite (bind_returns _ _ _ _ _ E).
    assert (GoInt.add (Z.of_nat k) 1 = Z.of_nat (S k)) as ->.
    { unfold GoInt.add. rewrite wrap64_id; [lia|].
      unfold in_range, min_int, max_int in *. lia. }
    replace (Z.of_nat k + Z.of_nat (length (pageText :: pages)))
      with (Z.of_nat (S k) + Z.of_nat (length pages)) by (cbn [length]; lia).
    apply IH; [lia|exact Hlen|].
    replace (Z.of_nat (S k)) with (Z.of_nat k + 1) by lia. exact Hinv1.
Qed.

(** X11. [ProcessPDF] stores the documents in reading order: on a file
    that opens, the page numbers of the documents it leaves in the store
    never decrease from one document to the next, and they lie between 1
    and the number of texts that [ExtractTextFromPDF] kept; the
    configuration is as before. *)
Theorem ProcessPDF_reading_order `{UnicodeTables} (r : RAGChatbot) (filename : string)
    (reader : list pdf_page) (w : World) :
  pdf_files w !! filename = Some reader ->
  Z.of_nat (length reader) <= max_int ->
  (forall content, In (PageText content) reader -> len content <= max_int) ->
  exists r' err w',
    ProcessPDF r filename w = Returns ((r', err), w')
    /\ same_config r r'
    /\ StronglySorted (fun d1 d2 => Page d1 <= Page d2) (Documents (vectorStore r'))
    /\ Forall (fun d => 1 <= Page d <= Z.of_nat (length (kept_pages reader)))
         (Documents (vectorStore r')).
Proof.
  intros Hopen Hpages Hlen. unfold ProcessPDF.
  rewrite (bind_returns _ _ _ _ _ (ExtractTextFromPDF_opened r filename reader w Hopen)).
  rewrite extract_pages_kept. cbn [app].
  pose proof (kept_pages_length reader) as Hkept.
  destruct (ingest_pages_in_order (kept_pages reader) r w 0 (with_Documents r []) w)
    as (r1 & w1 & E & Hcfg & Hrange & Hsorted & _).
  - cbn [Z.of_nat]. lia.
  - apply List.Forall_forall. intros page Hin.
    apply kept_pages_cleaned in Hin as (_ & content & Hcontent & ->).
    pose proof (cleanText_length content). specialize (Hlen content Hcontent). lia.
  - split; [repeat split|]. split; [constructor|]. split; [constructor|].
    exists (calls w). destruct w; reflexivity.
  - cbn [Z.of_nat] in E. rewrite (bind_returns _ _ _ _ _ E).
    destruct (SaveVectorStore_frame (with_ModelName r1 (embedModel r1)) w1)
      as (err & w' & Esave & _).
    rewrite (bind_returns _ _ _ _ _ Esave).
    exists (with_ModelName r1 (embedModel r1)), err, w'.
    split; [reflexivity|].
    destruct Hcfg as (Hurl & Hembed & Hchat & Hdb).
    split; [repeat split; assumption|]. split; [exact Hsorted|exact Hrange].
Qed.

Lemma ProcessPDF_reading_order_witness :
  exists r' err w',
    ProcessPDF NewRAGChatbot "libro.pdf" library_world = Returns ((r', err), w')
    /\ same_config NewRAGChatbot r'
    /\ StronglySorted (fun d1 d2 => Page d1 <= Page d2) (Documents (vectorStore r'))
    /\ Forall (fun d => 1 <= Page d
                        <= Z.of_nat (length (kept_pages
                                               [PageText long_page; PageNull;
                                                PageText "ciao";
                                                PageTextError "illeggibile"])))
         (Documents (vectorStore r')).
Proof.
  apply (ProcessPDF_reading_order NewRAGChatbot "libro.pdf"
           [PageText long_page; PageNull; PageText "ciao"; PageTextError "illeggibile"]
           library_world).
  - reflexivity.
  - vm_compute. discriminate.
  - intros content [E|[E|[E|[E|[]]]]]; try discriminate;
      injection E as <-; vm_compute; discriminate.
Defined.
(** ** Ingestion, then a restart *)

(** X12. What an ingestion saves is what a later load finds.  With a
    service that sends finite numbers, on a PDF that opens and a store path
    that can be written, [ProcessPDF] returns without error, and
    [LoadVectorStore] on the world it leaves, by any chatbot with that store
    path and whatever its store holds, returns without error the documents
    that the ingestion left in memory and the name of the embedding model,
    their strings coerced to valid UTF-8. *)
Theorem ProcessPDF_then_load `{UnicodeTables} (r : RAGChatbot) (filename : string)
    (reader : list pdf_page) (w : World) :
  finite_service (service w) ->
  pdf_files w !! filename = Some reader ->
  (forall content, In (PageText content) reader -> len content <= max_int) ->
  dbPath r ∉ read_only w ->
  exists r' w',
    ProcessPDF r filename w = Returns ((r', None), w')
    /\ forall r0,
         dbPath r0 = dbPath r ->
         LoadVectorStore r0 w'
         = Returns ((with_store r0
                       {| Documents := map coerced (Documents (vectorStore r'));
                          ModelName := coerce_utf8 (embedModel r) |},
                     None), w').
Proof.
  intros Hfin Hopen Hlen Hrw.
  destruct (ProcessPDF_opened r filename reader w Hfin Hopen)
    as (r1 & cs & (_ & _ & _ & Hdb) & Hvec & Hname & ->).
  { intros content Hc. pose proof (cleanText_length content).
    specialize (Hlen content Hc). lia. }
  unfold mbind, Go_bind. rewrite (SaveVectorStore_finite _ _ Hvec), Hdb.
  cbn [read_only with_calls]. rewrite bool_decide_eq_false_2 by exact Hrw.
  eexists _, _. split; [reflexivity|]. intros r0 Hpath.
  rewrite (LoadVectorStore_present r0 _ (VectorStore_text (vectorStore r1))).
  - rewrite Unmarshal_VectorStore_text, Hname. reflexivity.
  - rewrite Hpath. cbn [json_files with_json_files with_calls].
    apply lookup_insert_eq.
Qed.

Lemma ProcessPDF_then_load_witness :
  exists r' w',
    ProcessPDF NewRAGChatbot "libro.pdf" library_world = Returns ((r', None), w')
    /\ forall r0,
         dbPath r0 = dbPath NewRAGChatbot ->
         LoadVectorStore r0 w'
         = Returns ((with_store r0
                       {| Documents := map coerced (Documents (vectorStore r'));
                          ModelName := coerce_utf8 (embedModel NewRAGChatbot) |},
                     None), w').
Proof.
  apply (ProcessPDF_then_load NewRAGChatbot "libro.pdf"
           [PageText long_page; PageNull; PageText "ciao"; PageTextError "illeggibile"]
           library_world).
  - apply constant_service_finite. repeat constructor.
  - reflexivity.
  - intros content [E|[E|[E|[E|[]]]]]; try discriminate;
      injection E as <-; vm_compute; discriminate.
  - cbn. apply not_elem_of_empty.
Defined.

(** ** The store on disk *)

Lemma encode_all_Ok {A : Type} (encode : A -> result value) (xs : list A) :
  forall vs, encode_all encode xs = Ok vs ->
             Forall (fun x => exists v, encode x = Ok v) xs.
Proof.
  induction xs as [|x xs IH]; intros vs E; [constructor|].
  cbn [encode_all] in E. destruct (encode x) as [v|e] eqn:Ex; [|discriminate].
  destruct (encode_all encode xs) as [vs'|e] eqn:Exs; [|discriminate].
  constructor; [eauto|exact (IH _ eq_refl)].
Qed.

(** [json.MarshalIndent] writes the stores whose numbers are finite, and
    no other. *)
Lemma MarshalIndent_Ok (vs : VectorStore) (data : Json.text) :
  MarshalIndent vs = Ok data -> finite_vectors (Documents vs).
Proof.
  unfold MarshalIndent. intros E.
  destruct (encode_all encode_Document (Documents vs)) as [documents|e] eqn:Edocs;
    [|discriminate].
  apply encode_all_Ok in Edocs. unfold finite_vectors.
  apply (Forall_impl _ _ _ Edocs). intros d [v Ed].
  unfold encode_Document in Ed.
  destruct (encode_all encode_float (Vector d)) as [vector|e] eqn:Ev; [|discriminate].
  apply encode_all_Ok in Ev. apply (Forall_impl _ _ _ Ev).
  intros x [vx Ex]. destruct x as [s|[|]| |s m e]; try discriminate; reflexivity.
Qed.

(** X13. [SaveVectorStore] encodes the whole store before it touches the
    file.  It returns without error exactly when every number of the store
    is finite and the store path can be written, and the file then holds
    the whole store.  A store with a number that is not finite is refused
    before the file is opened: the call returns an error and the world is
    as it was, the file of an earlier save included.  No other file is
    touched in any case. *)
Theorem SaveVectorStore_encodes_first (r : RAGChatbot) (w : World) :
  exists err w',
    SaveVectorStore r w = Returns (err, w')
    /\ (err = None <->
        finite_vectors (Documents (vectorStore r)) /\ dbPath r ∉ read_only w)
    /\ (~ finite_vectors (Documents (vectorStore r)) -> err <> None /\ w' = w)
    /\ (err = None ->
        w' = with_json_files w
               (<[dbPath r := VectorStore_text (vectorStore r)]> (json_files w)))
    /\ (forall path, path <> dbPath r ->
                     json_files w' !! path = json_files w !! path).
Proof.
  unfold SaveVectorStore.
  destruct (MarshalIndent (vectorStore r)) as [data|e] eqn:E.
  - pose proof (MarshalIndent_Ok _ _ E) as Hfin.
    rewrite (MarshalIndent_finite _ Hfin) in E. injection E as <-.
    unfold os_WriteFile.
    destruct (bool_decide_reflect (dbPath r ∈ read_only w)) as [Hro|Hrw];
      eexists _, _; (split; [reflexivity|]).
    + split; [split; [discriminate|intros [_ ?]; contradiction]|].
      split; [intros Hnot; contradiction|]. split; [discriminate|reflexivity].
    + split; [split; [intros _; split; assumption|reflexivity]|].
      split; [intros Hnot; contradiction|]. split; [reflexivity|].
      intros path Hpath. cbn [json_files with_json_files].
      apply lookup_insert_ne. congruence.
  - eexists _, _. split; [reflexivity|].
    split; [split; [discriminate|]|].
    + intros [Hfin _]. rewrite (MarshalIndent_finite _ Hfin) in E. discriminate E.
    + split; [intros _; split; [discriminate|reflexivity]|].
      split; [discriminate|reflexivity].
Qed.

Lemma decode_VectorStore_members_ModelName (members : list (string * value)) :
  (forall m, In m members -> key_is "model_name" (fst m) = false) ->
  forall acc,
    ModelName (fst (fold_left decode_VectorStore_member members acc))
    = ModelName (fst acc).
Proof.
  induction members as [|[key v] members IH]; intros Hkeys [vs e]; [reflexivity|].
  cbn [fold_left]. rewrite IH by (intros m Hm; apply Hkeys; right; exact Hm).
  pose proof (Hkeys (key, v) (or_introl eq_refl)) as Hkey. cbn [fst] in Hkey.
  unfold decode_VectorStore_member. rewrite Hkey.
  destruct (key_is "documents" key); [|reflexivity].
  destruct (decode_slice _ _ _ _ _). reflexivity.
Qed.

Lemma decode_VectorStore_members_Documents (members : list (string * value)) :
  (forall m, In m members -> key_is "documents" (fst m) = false) ->
  forall acc,
    Documents (fst (fold_left decode_VectorStore_member members acc))
    = Documents (fst acc).
Proof.
  induction members as [|[key v] members IH]; intros Hkeys [vs e]; [reflexivity|].
  cbn [fold_left]. rewrite IH by (intros m Hm; apply Hkeys; right; exact Hm).
  pose proof (Hkeys (key, v) (or_introl eq_refl)) as Hkey. cbn [fst] in Hkey.
  unfold decode_VectorStore_member. rewrite Hkey.
  destruct (key_is "model_name" key); [|reflexivity].
  destruct (decode_string _ _). reflexivity.
Qed.

(** X14. [LoadVectorStore] reads and never writes: the world and the
    configuration of the chatbot are as before, whatever the file holds.  A
    missing file gives the error "database non esistente" and a file that
    is no JSON an error too, both with the store untouched.  A JSON object
    is merged into the store: a field for which the object has no key,
    compared without regard to case, keeps the value it had. *)
Theorem LoadVectorStore_merges (r : RAGChatbot) (w : World) :
  exists r' err,
    LoadVectorStore r w = Returns ((r', err), w)
    /\ same_config r r'
    /\ (json_files w !! dbPath r = None ->
        r' = r /\ err = Some "database non esistente"%string)
    /\ (json_files w !! dbPath r = Some Malformed -> r' = r /\ err <> None)
    /\ (forall members,
          json_files w !! dbPath r = Some (Text (Object members)) ->
          ((forall m, In m members -> key_is "model_name" (fst m) = false) ->
           ModelName (vectorStore r') = ModelName (vectorStore r))
          /\ ((forall m, In m members -> key_is "documents" (fst m) = false) ->
              Documents (vectorStore r') = Documents (vectorStore r))).
Proof.
  destruct (json_files w !! dbPath r) as [data|] eqn:Hfile.
  - rewrite (LoadVectorStore_present _ _ _ Hfile). eexists _, _.
    split; [reflexivity|]. split; [repeat split|].
    split; [discriminate|]. split.
    + intros E. injection E as ->. cbn [Unmarshal fst snd].
      split; [|discriminate].
      destruct r as [[docs name] url embedModel chatModel path]. reflexivity.
    + intros members E. injection E as ->.
      cbn [Unmarshal decode_VectorStore with_store vectorStore]. split; intros Hkeys.
      * exact (decode_VectorStore_members_ModelName members Hkeys (vectorStore r, None)).
      * exact (decode_VectorStore_members_Documents members Hkeys (vectorStore r, None)).
  - rewrite (LoadVectorStore_missing _ _ Hfile). eexists _, _.
    split; [reflexivity|]. split; [repeat split|].
    split; [intros _; split; reflexivity|]. split; discriminate.
Qed.

(** ** A store that has been read once *)

(** A rune that decoding accepts is decoded from its own bytes, whatever
    follows them. *)
Lemma DecodeRuneInString_complete (s : string) (r : Z) (w : nat) :
  DecodeRuneInString s = (r, w) ->
  ~ (r = RuneError /\ w = 1%nat) ->
  s <> EmptyString ->
  forall t, DecodeRuneInString (substring 0 w s +:+ t) = (r, w).
Proof.
  intros E Hne Hs t. destruct s as [|c0 s1]; [contradiction|].
  unfold DecodeRuneInString in E.
  destruct (byte c0 <? 0x80) eqn:H0.
  { injection E as <- <-. cbn [substring]. rewrite substring_0_0, append_cons.
    unfold DecodeRuneInString. rewrite H0. reflexivity. }
  destruct (lead (byte c0)) as [[[sz lo] hi]|] eqn:El;
    [|injection E as <- <-; exfalso; apply Hne; split; reflexivity].
  pose proof (lead_cases _ _ _ _ El) as (Hsz & _).
  destruct Hsz as [->|[->| ->]];
    repeat match type of E with
           | context [if ?b then _ else _] => destruct b eqn:?
           | context [match ?x with EmptyString => _ | String _ _ => _ end] =>
               destruct x eqn:?
           end;
    try (injection E as <- <-; exfalso; apply Hne; split; reflexivity);
    try discriminate;
    injection E as <- <-; cbn [substring]; rewrite substring_0_0, !append_cons;
    unfold DecodeRuneInString; rewrite H0, El; cbn [String.length Nat.ltb Nat.leb];
    repeat match goal with
           | H : ?b = _ |- context [?b] => rewrite H
           end; reflexivity.
Qed.

Lemma substring_exact (a : string) : forall b, substring 0 (String.length a) (a +:+ b) = a.
Proof.
  induction a as [|c a IH]; intros b; [apply substring_0_0|].
  rewrite append_cons. cbn [String.length substring]. rewrite IH. reflexivity.
Qed.

Lemma string_drop_append (a : string) : forall b, string_drop (String.length a) (a +:+ b) = b.
Proof.
  induction a as [|c a IH]; intros b; [reflexivity|].
  rewrite append_cons. cbn [String.length string_drop]. apply IH.
Qed.

(** Runes that are complete are what their bytes decode to. *)
Lemma runes_complete (rs : list (Z * string)) :
  Forall complete rs -> runes (bytes_of rs) = rs.
Proof.
  induction 1 as [|[r bs] rs [Hne Hdecode] _ IH]; [reflexivity|].
  rewrite bytes_of_cons. cbn [fst snd] in *.
  destruct bs as [|c bs]; [contradiction|].
  specialize (Hdecode (bytes_of rs)). rewrite append_cons in *.
  unfold runes. cbn [runes_from]. rewrite Hdecode.
  rewrite <- append_cons, (substring_exact (String c bs)).
  cbn [String.length]. rewrite Nat.sub_succ, Nat.sub_0_r.
  rewrite runes_from_drop, string_drop_append. fold (runes (bytes_of rs)).
  rewrite IH. reflexivity.
Qed.

Lemma replacement_complete : complete (RuneError, replacement).
Proof. split; [discriminate|]. intros t. reflexivity. Qed.

Lemma runes_from_coerced (s : string) : forall skip,
  Forall complete (map coerce_rune (runes_from s skip)).
Proof.
  induction s as [|c s IH]; intros skip; [destruct skip; constructor|].
  destruct skip as [|skip]; cbn [runes_from]; [|apply IH].
  pose proof (DecodeRuneInString_complete (String c s)) as Hcomplete.
  pose proof (DecodeRuneInString_fits (String c s)) as Hfits.
  pose proof (DecodeRuneInString_width c s) as Hwidth.
  destruct (DecodeRuneInString (String c s)) as [r width]. cbn [snd] in *.
  cbn [map]. constructor; [|apply IH].
  assert (String.length (substring 0 width (String c s)) = width) as Hlen
    by (rewrite substring_length; lia).
  unfold coerce_rune. cbn [fst snd]. rewrite Hlen.
  destruct (Z.eqb_spec r RuneError) as [->|Hr];
    [destruct (Nat.eqb_spec width 1) as [->|Hw]|]; cbn [andb].
  - exact replacement_complete.
  - split; [cbn [snd]; destruct width; [lia|discriminate]|].
    intros t. cbn [fst snd]. rewrite Hlen.
    apply (Hcomplete _ _ eq_refl); [intros [_ ?]; contradiction|discriminate].
  - split; [cbn [snd]; destruct width; [lia|discriminate]|].
    intros t. cbn [fst snd]. rewrite Hlen.
    apply (Hcomplete _ _ eq_refl); [intros [? _]; contradiction|discriminate].
Qed.

Lemma runes_coerce_utf8 (s : string) :
  runes (coerce_utf8 s) = map coerce_rune (runes s).
Proof. exact (runes_complete _ (runes_from_coerced s 0)). Qed.

(** What the encoder writes is valid UTF-8. *)
Lemma coerce_utf8_is_valid (s : string) : utf8_valid (coerce_utf8 s) = true.
Proof.
  unfold utf8_valid. rewrite runes_coerce_utf8.
  apply forallb_forall. intros rb Hin.
  apply in_map_iff in Hin as ([r bs] & <- & _). unfold coerce_rune. cbn [fst snd].
  destruct ((r =? RuneError) && (String.length bs =? 1)%nat) eqn:E; cbn [fst snd].
  - rewrite andb_false_r. reflexivity.
  - rewrite E. reflexivity.
Qed.

Lemma coerced_finite (docs : list Document) :
  finite_vectors docs -> finite_vectors (map coerced docs).
Proof.
  unfold finite_vectors. intros Hfin. apply Forall_map.
  apply (Forall_impl _ _ _ Hfin). intros d Hd. exact Hd.
Qed.

Lemma coerced_valid_strings (docs : list Document) (name : string) :
  valid_strings {| Documents := map coerced docs; ModelName := coerce_utf8 name |}.
Proof.
  split; [apply coerce_utf8_is_valid|]. cbn [Documents].
  apply Forall_map. apply List.Forall_forall. intros d _.
  split; apply coerce_utf8_is_valid.
Qed.

(** X15. A store changes at most once on its way to the disk and back.
    When a store with finite numbers is saved on a path that can be written
    and loaded again, the store that comes back has valid UTF-8 strings, and
    saving that one and loading it again gives the same store back. *)
Theorem loaded_store_is_stable (r : RAGChatbot) (w : World) :
  finite_vectors (Documents (vectorStore r)) ->
  dbPath r ∉ read_only w ->
  exists w1 r1,
    SaveVectorStore r w = Returns (None, w1)
    /\ LoadVectorStore r w1 = Returns ((r1, None), w1)
    /\ valid_strings (vectorStore r1)
    /\ exists w2,
         SaveVectorStore r1 w1 = Returns (None, w2)
         /\ LoadVectorStore r1 w2 = Returns ((r1, None), w2).
Proof.
  intros Hfin Hrw.
  rewrite (SaveVectorStore_finite r w Hfin), bool_decide_eq_false_2 by exact Hrw.
  set (w1 := with_json_files w _).
  assert (json_files w1 !! dbPath r = Some (VectorStore_text (vectorStore r))) as Hfile
    by apply lookup_insert_eq.
  set (vs1 := {| Documents := map coerced (Documents (vectorStore r));
                 ModelName := coerce_utf8 (ModelName (vectorStore r)) |}).
  assert (valid_strings vs1) as Hvalid by apply coerced_valid_strings.
  assert (VectorStore_text vs1 = VectorStore_text (vectorStore r)) as Etext.
  { destruct Hvalid as [Hname Hdocs]. unfold VectorStore_text.
    unfold vs1 in Hname, Hdocs |- *. cbn [Documents ModelName] in *.
    rewrite (coerce_utf8_valid _ Hname).
    assert (map Document_value (map coerced (Documents (vectorStore r)))
            = map Document_value (Documents (vectorStore r))) as ->; [|reflexivity].
    rewrite map_map. apply map_ext. intros d. unfold Document_value, coerced.
    cbn [ID Content Page Vector].
    rewrite !(coerce_utf8_valid _ (coerce_utf8_is_valid _)). reflexivity. }
  exists w1, (with_store r vs1).
  split; [reflexivity|].
  assert (forall r0, dbPath r0 = dbPath r ->
                     LoadVectorStore r0 w1 = Returns ((with_store r0 vs1, None), w1))
    as Hload.
  { intros r0 Hpath.
    rewrite (LoadVectorStore_present r0 w1 (VectorStore_text (vectorStore r)))
      by (rewrite Hpath; exact Hfile).
    rewrite Unmarshal_VectorStore_text. reflexivity. }
  split; [exact (Hload r eq_refl)|]. split; [exact Hvalid|].
  exists w1. split.
  - rewrite (SaveVectorStore_finite (with_store r vs1) w1)
      by (apply coerced_finite; exact Hfin).
    cbn [dbPath with_store vectorStore].
    rewrite bool_decide_eq_false_2 by exact Hrw.
    rewrite Etext. do 2 f_equal. unfold w1, with_json_files.
    cbn [json_files text_files pdf_files read_only service calls].
    rewrite insert_insert_eq. reflexivity.
  - exact (Hload (with_store r vs1) eq_refl).
Qed.

Lemma loaded_store_is_stable_witness :
  exists w1 r1,
    SaveVectorStore (bot_of [document_of invalid_byte [of_Z 1]])
      (world_of (constant_service [of_Z 1]))
    = Returns (None, w1)
    /\ LoadVectorStore (bot_of [document_of invalid_byte [of_Z 1]]) w1
       = Returns ((r1, None), w1)
    /\ valid_strings (vectorStore r1)
    /\ exists w2,
         SaveVectorStore r1 w1 = Returns (None, w2)
         /\ LoadVectorStore r1 w2 = Returns ((r1, None), w2).
Proof.
  apply (loaded_store_is_stable (bot_of [document_of invalid_byte [of_Z 1]])
           (world_of (constant_service [of_Z 1]))).
  - repeat constructor.
  - cbn. apply not_elem_of_empty.
Defined.

(** ** Retrieval and answering *)

Lemma GetEmbedding_calls (r : RAGChatbot) (text : string) (w : World) :
  exists res,
    GetEmbedding r text w = Returns (res, with_calls w (calls w ++ [embed_call r text])).
Proof. destruct (GetEmbedding_embedded r text w) as (res & E & _). eauto. Qed.

(** X16. [SearchSimilar] reads the store and asks the service once, for
    the embedding of the query; nothing else changes.  When that fails it
    returns the error.  Otherwise it returns documents of the store, none
    more often than the store holds it, whatever their scores are, NaN
    included: as many as the store holds when [topK] is larger, [topK] of
    them when it is not, and none for a negative [topK]. *)
Theorem SearchSimilar_selects `{SliceSorter} (r : RAGChatbot) (query : string)
    (topK : Z) (w : World) :
  exists found,
    SearchSimilar r query topK w
    = Returns (found, with_calls w (calls w ++ [embed_call r query]))
    /\ match found with
       | Err err =>
           GetEmbedding r query w
           = Returns (Err err, with_calls w (calls w ++ [embed_call r query]))
       | Ok results =>
           (exists rest, Permutation (Documents (vectorStore r)) (results ++ rest))
           /\ length results
              = Z.to_nat (Z.min topK (Z.of_nat (length (Documents (vectorStore r)))))
       end.
Proof.
  destruct (GetEmbedding_calls r query w) as [[queryVector|err] E].
  - rewrite (SearchSimilar_returns r query topK queryVector _ _ E).
    eexists. split; [reflexivity|]. cbv beta iota. split.
    + eexists (map ScoredDocument.Document (skipn _ _)).
      rewrite <- map_app, firstn_skipn. apply ranked_documents.
    + rewrite length_map, length_firstn, (ranked_length r queryVector). lia.
  - rewrite (SearchSimilar_embedding_error r query topK err _ _ E).
    eexists. split; [reflexivity|exact E].
Qed.

Lemma with_calls_nil (w : World) : with_calls w (calls w ++ []) = w.
Proof. rewrite app_nil_r. destruct w; reflexivity. Qed.

Lemma with_calls_twice (w : World) (cs1 cs2 : list http_call) :
  with_calls (with_calls w (calls w ++ cs1)) (calls (with_calls w (calls w ++ cs1)) ++ cs2)
  = with_calls w (calls w ++ cs1 ++ cs2).
Proof. cbn [calls with_calls]. rewrite <- app_assoc. reflexivity. Qed.

(** X17. [Chat] changes nothing but the list of calls made to the
    service: the chatbot is only read and no file is touched.  It asks the
    service at most twice, first for the embedding of the question and then
    for one generation, and not at all on an empty index; when the
    embedding fails there is no generation request.  Whenever it returns an
    error, the answer is empty and there are no sources; the sources it
    returns are at most four documents of the store. *)
Theorem Chat_frame `{SliceSorter} (r : RAGChatbot) (question : string) (w : World) :
  exists answer sources err cs,
    Chat r question w
    = Returns ((answer, sources, err), with_calls w (calls w ++ cs))
    /\ (cs = []
        \/ (cs = [embed_call r question]
            /\ exists e, err = Some e
                         /\ GetEmbedding r question w
                            = Returns (Err e, with_calls w (calls w ++ cs)))
        \/ (exists similarDocs,
              cs = [embed_call r question; generate_request r question similarDocs]
              /\ (err = None -> sources = similarDocs)))
    /\ (Documents (vectorStore r) = [] -> cs = [])
    /\ (err <> None -> answer = EmptyString /\ sources = [])
    /\ (length sources <= 4)%nat
    /\ (forall d, In d sources -> In d (Documents (vectorStore r))).
Proof.
  destruct (Documents (vectorStore r)) as [|d0 docs] eqn:Hdocs.
  { unfold Chat. rewrite Hdocs. cbn [length Z.of_nat Z.eqb].
    exists "Per favore, carica prima un documento PDF."%string, [], None, [].
    rewrite with_calls_nil. split; [reflexivity|].
    split; [left; reflexivity|]. split; [reflexivity|].
    split; [intros Herr; contradiction|]. split; [cbn; lia|intros d []]. }
  unfold Chat. rewrite Hdocs.
  change (Z.of_nat (length (d0 :: docs)) =? 0) with false. cbv iota.
  rewrite <- Hdocs.
  destruct (SearchSimilar_total r question 4 w) as (found & w1 & E & Hlen).
  destruct (GetEmbedding_calls r question w) as [[queryVector|e] Eq].
  - pose proof (SearchSimilar_returns r question 4 queryVector _ _ Eq) as Es.
    rewrite Es in E. injection E as <- <-.
    rewrite (bind_returns _ _ _ _ _ Es).
    set (similarDocs := map ScoredDocument.Document _) in *.
    assert (forall d, In d similarDocs -> In d (Documents (vectorStore r))) as Hin.
    { intros d Hd. unfold similarDocs in Hd.
      apply in_map_iff in Hd as (x & <- & Hx). apply in_firstn in Hx.
      apply ranked_scored in Hx as (d' & Hd' & ->). exact Hd'. }
    destruct (GenerateResponse_total r question similarDocs
                (with_calls w (calls w ++ [embed_call r question])))
      as [generated G].
    rewrite (bind_returns _ _ _ _ _ G), with_calls_twice.
    destruct generated as [answer|e].
    + exists answer, similarDocs, None,
        [embed_call r question; generate_request r question similarDocs].
      split; [reflexivity|].
      split; [right; right; exists similarDocs; split; reflexivity|].
      split; [rewrite Hdocs; discriminate|].
      split; [intros Herr; contradiction|]. split; [lia|exact Hin].
    + exists EmptyString, [], (Some e),
        [embed_call r question; generate_request r question similarDocs].
      split; [reflexivity|].
      split; [right; right; exists similarDocs; split; [reflexivity|discriminate]|].
      split; [rewrite Hdocs; discriminate|].
      split; [intros _; split; reflexivity|]. split; [cbn; lia|intros d []].
  - rewrite (bind_returns _ _ _ _ _
               (SearchSimilar_embedding_error r question 4 e _ _ Eq)).
    exists EmptyString, [], (Some e), [embed_call r question].
    split; [reflexivity|].
    split; [right; left; split; [reflexivity|exists e; split; [reflexivity|exact Eq]]|].
    split; [rewrite Hdocs; discriminate|].
    split; [intros _; split; reflexivity|]. split; [cbn; lia|intros d []].
Qed.

Lemma append_assoc (a b c : string) : (a +:+ b) +:+ c = a +:+ b +:+ c.
Proof.
  induction a as [|x a IH]; [reflexivity|].
  rewrite !append_cons, IH. reflexivity.
Qed.

Lemma quotes_here (part after : string) : quotes (part +:+ after) part.
Proof. exists EmptyString, after. reflexivity. Qed.

Lemma quotes_later (x whole part : string) :
  quotes whole part -> quotes (x +:+ whole) part.
Proof.
  intros (before & after & ->). exists (x +:+ before), after.
  rewrite append_assoc. reflexivity.
Qed.

Lemma quotes_earlier (whole y part : string) :
  quotes whole part -> quotes (whole +:+ y) part.
Proof.
  intros (before & after & ->). exists before, (after +:+ y).
  rewrite !append_assoc. reflexivity.
Qed.

Lemma context_sections_quotes (context : list Document) :
  forall (i : nat) (k : Z) (doc : Document),
    0 <= k -> k + Z.of_nat (length context) <= max_int ->
    nth_error context i = Some doc ->
    quotes (context_sections k context) (section_of (k + Z.of_nat i + 1) doc).
Proof.
  induction context as [|d context IH]; intros i k doc Hk Hfit Hi;
    [destruct i; discriminate|].
  cbn [length] in Hfit.
  assert (GoInt.add k 1 = k + 1) as Ek.
  { apply wrap64_id. unfold in_range, min_int, max_int in *. lia. }
  cbn [context_sections]. rewrite Ek.
  destruct i as [|i]; cbn [nth_error] in Hi.
  - injection Hi as <-. rewrite Z.add_0_r.
    replace (_ +:+ _) with (section_of (k + 1) d +:+ context_sections (k + 1) context)
      by (unfold section_of; rewrite !append_assoc; reflexivity).
    apply quotes_here.
  - replace (k + Z.of_nat (S i) + 1) with (k + 1 + Z.of_nat i + 1) by lia.
    do 9 apply quotes_later. apply IH; [lia|lia|exact Hi].
Qed.

(** X18. The prompt that [GenerateResponse] sends quotes the question
    and every document of the context, each under a heading that gives its
    rank in the context, counted from 1, and its page. *)
Theorem prompt_of_quotes (question : string) (context : list Document) :
  Z.of_nat (length context) <= max_int ->
  quotes (prompt_of question context) ("Domanda: " +:+ question)
  /\ forall (i : nat) (doc : Document),
       nth_error context i = Some doc ->
       quotes (prompt_of question context) (section_of (Z.of_nat i + 1) doc).
Proof.
  intros Hfit. unfold prompt_of. split.
  - do 6 apply quotes_later. rewrite <- append_assoc. apply quotes_here.
  - intros i doc Hi. do 3 apply quotes_later. apply quotes_earlier.
    unfold contextText. do 3 apply quotes_later.
    exact (context_sections_quotes context i 0 doc ltac:(lia) ltac:(lia) Hi).
Qed.

Lemma prompt_of_quotes_witness :
  quotes (prompt_of "Dove dorme il gatto?" three_documents)
    ("Domanda: " +:+ "Dove dorme il gatto?")
  /\ forall (i : nat) (doc : Document),
       nth_error three_documents i = Some doc ->
       quotes (prompt_of "Dove dorme il gatto?" three_documents)
         (section_of (Z.of_nat i + 1) doc).
Proof.
  apply (prompt_of_quotes "Dove dorme il gatto?" three_documents).
  vm_compute. discriminate.
Defined.

(** ** The start of the program *)

Lemma LoadVectorStore_keeps_config (r : RAGChatbot) (w : World) :
  exists r' err,
    LoadVectorStore r w = Returns ((r', err), w)
    /\ same_config r r'
    /\ (json_files w !! dbPath r = None -> r' = r).
Proof.
  destruct (json_files w !! dbPath r) as [data|] eqn:Hfile.
  - rewrite (LoadVectorStore_present _ _ _ Hfile). eexists _, _.
    split; [reflexivity|]. split; [repeat split|discriminate].
  - rewrite (LoadVectorStore_missing _ _ Hfile). eexists _, _.
    split; [reflexivity|]. split; [repeat split|reflexivity].
Qed.

(** X19. The start of [main] asks the service once, for its tags, and
    writes nothing.  The process ends there exactly when that request fails
    or is answered with a status other than 200; otherwise the menu starts,
    with the configuration of [NewRAGChatbot], whatever the load of the
    store did, and with an empty store when there is no file to load. *)
Theorem main_startup_fatal (w : World) :
  exists started,
    main_startup w
    = Returns (started,
               with_calls w (calls w ++ [Get "http://localhost:11434/api/tags"]))
    /\ (started = None <->
        tags (service w) (calls w) "http://localhost:11434/api/tags" <> Ok 200)
    /\ forall chatbot,
         started = Some chatbot ->
         same_config NewRAGChatbot chatbot
         /\ (json_files w !! "vectorstore.json" = None -> chatbot = NewRAGChatbot).
Proof.
  unfold main_startup, CheckOllamaAvailable, get_tags, mbind, Go_bind.
  change (ollamaBaseURL NewRAGChatbot +:+ "/api/tags")
    with "http://localhost:11434/api/tags"%string.
  destruct (tags _ _ _) as [StatusCode|err].
  - destruct (Z.eqb_spec StatusCode 200) as [->|Hstatus]; cbn [negb].
    + cbv beta iota. unfold mret at 1, Go_ret at 1.
      set (w1 := with_calls w _).
      destruct (LoadVectorStore_keeps_config NewRAGChatbot w1)
        as (r' & err & E & Hcfg & Hmissing).
      rewrite E. eexists. split; [reflexivity|].
      split; [split; [discriminate|intros Hne; contradiction]|].
      intros chatbot Hc. injection Hc as <-. cbn [fst].
      split; [exact Hcfg|]. intros Hfile. exact (Hmissing Hfile).
    + eexists. split; [reflexivity|].
      split; [split; [intros _; congruence|reflexivity]|discriminate].
  - eexists. split; [reflexivity|].
    split; [split; [intros _; discriminate|reflexivity]|discriminate].
Qed.

(** ** The menu *)

Import Menu.

Lemma ReadString_nl_rest (stdin : string) :
  (String.length (snd (ReadString_nl stdin)) <= String.length stdin)%nat
  /\ (stdin <> EmptyString ->
      (String.length (snd (ReadString_nl stdin)) < String.length stdin)%nat).
Proof.
  induction stdin as [|c rest [IH _]]; [split; [reflexivity|contradiction]|].
  cbn [ReadString_nl]. destruct (byte c =? 10).
  - cbn [snd String.length]. split; [lia|intros _; lia].
  - destruct (ReadString_nl rest) as [line rest']. cbn [snd String.length] in *.
    split; [lia|intros _; lia].
Qed.

Lemma menu_turn_end_of_input `{UnicodeTables} `{SliceSorter} (chatbot : RAGChatbot)
    (w : World) :
  menu_turn chatbot EmptyString w = Returns (Continue chatbot EmptyString, w).
Proof. reflexivity. Qed.

Lemma menu_end_of_input `{UnicodeTables} `{SliceSorter} (fuel : nat)
    (chatbot : RAGChatbot) (w : World) :
  menu fuel chatbot EmptyString w = Diverges.
Proof.
  induction fuel as [|fuel IH]; [reflexivity|].
  cbn [menu]. rewrite (bind_returns _ _ _ _ _ (menu_turn_end_of_input chatbot w)).
  exact IH.
Qed.

(** A turn takes from the input. *)
Lemma menu_turn_shortens `{UnicodeTables} `{SliceSorter} (chatbot : RAGChatbot)
    (stdin : string) (w : World) (chatbot' : RAGChatbot) (stdin' : string)
    (w' : World) :
  menu_turn chatbot stdin w = Returns (Continue chatbot' stdin', w') ->
  stdin <> EmptyString ->
  (String.length stdin' < String.length stdin)%nat.
Proof.
  intros E Hinput. unfold menu_turn in E.
  pose proof (ReadString_nl_rest stdin) as [_ H1]. specialize (H1 Hinput).
  destruct (ReadString_nl stdin) as [choice stdin1]. cbn [snd] in H1.
  pose proof (ReadString_nl_rest stdin1) as [H2 _].
  destruct (ReadString_nl stdin1) as [line stdin2]. cbn [snd] in H2.
  destruct (String.eqb (TrimSpace choice) "1").
  { unfold mbind, Go_bind, os_Stat_IsNotExist_typed in E.
    destruct (bool_decide _).
    - injection E as _ <- _. lia.
    - destruct (ProcessPDF chatbot (TrimSpace line) w) as [[processed w1]| |];
        try discriminate. injection E as _ <- _. lia. }
  destruct (String.eqb (TrimSpace choice) "2").
  { destruct (Z.of_nat (length (Documents (vectorStore chatbot))) =? 0).
    - injection E as _ <- _. lia.
    - destruct (String.eqb (TrimSpace line) "").
      + injection E as _ <- _. lia.
      + unfold mbind, Go_bind in E.
        destruct (Chat chatbot (TrimSpace line) w) as [[answered w1]| |];
          try discriminate. injection E as _ <- _. lia. }
  destruct (String.eqb (TrimSpace choice) "3"); [injection E as _ <- _; lia|].
  destruct (String.eqb (TrimSpace choice) "4"); [discriminate|].
  injection E as _ <- _. lia.
Qed.

(** The turns that [main] allows decide the loop: a loop that has not
    ended by then never ends. *)
Lemma menu_decided `{UnicodeTables} `{SliceSorter} (n : nat) :
  forall (chatbot : RAGChatbot) (stdin : string) (w : World),
    (String.length stdin < n)%nat ->
    menu n chatbot stdin w = Diverges ->
    forall fuel, menu fuel chatbot stdin w = Diverges.
Proof.
  induction n as [|n IH]; intros chatbot stdin w Hn Hdiv fuel; [lia|].
  destruct fuel as [|fuel]; [reflexivity|].
  cbn [menu] in *. unfold mbind, Go_bind in *.
  destruct (menu_turn chatbot stdin w) as [[[chatbot' stdin'|] w']| |] eqn:E;
    try discriminate; [|reflexivity].
  destruct stdin as [|c stdin].
  - rewrite menu_turn_end_of_input in E. injection E as <- <- <-.
    apply menu_end_of_input.
  - pose proof (menu_turn_shortens _ _ _ _ _ _ E ltac:(discriminate)) as Hshort.
    apply IH; [lia|exact Hdiv].
Qed.

Lemma menu_turn_returns `{UnicodeTables} `{SliceSorter} (chatbot : RAGChatbot)
    (stdin : string) (w w' : World) :
  menu_turn chatbot stdin w = Returns (Return, w') ->
  TrimSpace (fst (ReadString_nl stdin)) = "4"%string /\ w' = w.
Proof.
  unfold menu_turn. destruct (ReadString_nl stdin) as [choice stdin1]. cbn [fst].
  destruct (ReadString_nl stdin1) as [line stdin2].
  destruct (String.eqb (TrimSpace choice) "1").
  { unfold mbind, Go_bind, os_Stat_IsNotExist_typed.
    destruct (bool_decide _); [discriminate|].
    destruct (ProcessPDF chatbot (TrimSpace line) w) as [[processed w1]| |];
      discriminate. }
  destruct (String.eqb (TrimSpace choice) "2").
  { destruct (Z.of_nat (length (Documents (vectorStore chatbot))) =? 0);
      [discriminate|].
    destruct (String.eqb (TrimSpace line) ""); [discriminate|].
    unfold mbind, Go_bind.
    destruct (Chat chatbot (TrimSpace line) w) as [[answered w1]| |]; discriminate. }
  destruct (String.eqb (TrimSpace choice) "3"); [discriminate|].
  destruct (String.eqb_spec (TrimSpace choice) "4") as [E4|_]; [|discriminate].
  intros E. injection E as <-. split; [exact E4|reflexivity].
Qed.

(** X20. The loop of [main] ends only by option 4.  A turn ends the loop
    exactly when its choice, trimmed, is "4", and it then leaves everything
    as it was.  On an input that has come to its end the loop never ends:
    each further turn reads an empty choice, which no case of the switch
    takes, and goes on.  And one turn more than the input has bytes decide
    the loop: when it has not ended by then, it never ends. *)
Theorem menu_ends_by_option_4 `{UnicodeTables} `{SliceSorter} (chatbot : RAGChatbot)
    (stdin : string) (w : World) :
  (TrimSpace (fst (ReadString_nl stdin)) = "4"%string ->
   menu_turn chatbot stdin w = Returns (Return, w)
   /\ forall fuel, menu (S fuel) chatbot stdin w = Returns (tt, w))
  /\ (forall w', menu_turn chatbot stdin w = Returns (Return, w') ->
                 TrimSpace (fst (ReadString_nl stdin)) = "4"%string /\ w' = w)
  /\ (stdin = EmptyString -> forall fuel, menu fuel chatbot stdin w = Diverges)
  /\ (menu (S (String.length stdin)) chatbot stdin w = Diverges ->
      forall fuel, menu fuel chatbot stdin w = Diverges).
Proof.
  split; [|split; [|split]].
  - intros Hchoice.
    assert (menu_turn chatbot stdin w = Returns (Return, w)) as E.
    { unfold menu_turn.
      destruct (ReadString_nl stdin) as [choice stdin1]. cbn [fst] in Hchoice.
      rewrite Hchoice. reflexivity. }
    split; [exact E|]. intros fuel. cbn [menu].
    rewrite (bind_returns _ _ _ _ _ E). reflexivity.
  - intros w'. apply menu_turn_returns.
  - intros -> fuel. apply menu_end_of_input.
  - apply menu_decided. lia.
Qed.

Lemma menu_ends_by_option_4_witness :
  (forall fuel,
     menu (S fuel) NewRAGChatbot "  4 " (world_of (constant_service [of_Z 1]))
     = Returns (tt, world_of (constant_service [of_Z 1])))
  /\ (forall fuel,
        menu fuel NewRAGChatbot "" (world_of (constant_service [of_Z 1])) = Diverges)
  /\ forall fuel,
       menu fuel NewRAGChatbot "5" (world_of (constant_service [of_Z 1])) = Diverges.
Proof.
  split; [|split].
  - refine (proj2 (proj1 (menu_ends_by_option_4 NewRAGChatbot "  4 "
                            (world_of (constant_service [of_Z 1]))) _)).
    vm_compute. reflexivity.
  - refine (proj1 (proj2 (proj2 (menu_ends_by_option_4 NewRAGChatbot ""
                                   (world_of (constant_service [of_Z 1]))))) _).
    reflexivity.
  - refine (proj2 (proj2 (proj2 (menu_ends_by_option_4 NewRAGChatbot "5"
                                   (world_of (constant_service [of_Z 1]))))) _).
    vm_compute. reflexivity.
Defined.

Lemma Chat_calls `{SliceSorter} (r : RAGChatbot) (question : string) (w : World) :
  exists answered cs,
    Chat r question w = Returns (answered, with_calls w (calls w ++ cs)).
Proof.
  unfold Chat.
  destruct (Z.of_nat (length (Documents (vectorStore r))) =? 0).
  { eexists _, []. rewrite with_calls_nil. reflexivity. }
  destruct (GetEmbedding_calls r question w) as [[queryVector|e] Eq].
  - pose proof (SearchSimilar_returns r question 4 queryVector _ _ Eq) as Es.
    rewrite (bind_returns _ _ _ _ _ Es).
    set (similarDocs := map ScoredDocument.Document _) in *.
    destruct (GenerateResponse_total r question similarDocs
                (with_calls w (calls w ++ [embed_call r question])))
      as [generated G].
    rewrite (bind_returns _ _ _ _ _ G), with_calls_twice.
    destruct generated; eexists _, _; reflexivity.
  - rewrite (bind_returns _ _ _ _ _
               (SearchSimilar_embedding_error r question 4 e _ _ Eq)).
    eexists _, _. reflexivity.
Qed.

(** X21. What a turn of the menu can change.  Unless the choice is 1
    and the path typed after it is that of a file that exists, the turn
    returns, with the chatbot it had and with every file as it was; at most
    calls to the service were added.  None is added unless the choice is 2,
    the store holds documents and the question typed is not empty. *)
Theorem menu_turn_keeps `{UnicodeTables} `{SliceSorter} (chatbot : RAGChatbot)
    (stdin : string) (w : World) :
  let choice := TrimSpace (fst (ReadString_nl stdin)) in
  let typed := TrimSpace (fst (ReadString_nl (snd (ReadString_nl stdin)))) in
  choice <> "1"%string
  \/ (json_files w !! typed = None /\ text_files w !! typed = None
      /\ pdf_files w !! typed = None) ->
  exists next cs,
    menu_turn chatbot stdin w = Returns (next, with_calls w (calls w ++ cs))
    /\ (next = Return \/ exists stdin', next = Continue chatbot stdin')
    /\ (choice <> "2"%string \/ Documents (vectorStore chatbot) = []
        \/ typed = EmptyString ->
        cs = []).
Proof.
  intros choice typed Hkeeps. subst choice typed. unfold menu_turn.
  destruct (ReadString_nl stdin) as [choice stdin1]. cbn [fst snd] in *.
  destruct (ReadString_nl stdin1) as [line stdin2]. cbn [fst] in *.
  destruct (String.eqb_spec (TrimSpace choice) "1") as [E1|_].
  { destruct Hkeeps as [Hchoice|Hmissing]; [contradiction|].
    unfold mbind, Go_bind, os_Stat_IsNotExist_typed.
    rewrite bool_decide_eq_true_2 by exact Hmissing.
    exists (Continue chatbot stdin2), []. rewrite with_calls_nil.
    split; [reflexivity|]. split; [right; eauto|reflexivity]. }
  destruct (String.eqb_spec (TrimSpace choice) "2") as [E2|N2].
  { destruct (Documents (vectorStore chatbot)) as [|d docs] eqn:Hdocs.
    - exists (Continue chatbot stdin1), []. rewrite with_calls_nil.
      split; [reflexivity|]. split; [right; eauto|reflexivity].
    - change (Z.of_nat (length (d :: docs)) =? 0) with false. cbv iota.
      destruct (String.eqb_spec (TrimSpace line) "") as [Eq|Nq].
      + exists (Continue chatbot stdin2), []. rewrite with_calls_nil.
        split; [reflexivity|]. split; [right; eauto|reflexivity].
      + destruct (Chat_calls chatbot (TrimSpace line) w) as (answered & cs & E).
        rewrite (bind_returns _ _ _ _ _ E).
        exists (Continue chatbot stdin2), cs.
        split; [reflexivity|]. split; [right; eauto|].
        intros [?|[?|?]]; [contradiction|discriminate|contradiction]. }
  destruct (String.eqb (TrimSpace choice) "3").
  { exists (Continue chatbot stdin1), []. rewrite with_calls_nil.
    split; [reflexivity|]. split; [right; eauto|reflexivity]. }
  destruct (String.eqb (TrimSpace choice) "4").
  { exists Return, []. rewrite with_calls_nil.
    split; [reflexivity|]. split; [left; reflexivity|reflexivity]. }
  exists (Continue chatbot stdin1), []. rewrite with_calls_nil.
  split; [reflexivity|]. split; [right; eauto|reflexivity].
Qed.

Lemma menu_turn_keeps_witness :
  exists next cs,
    menu_turn (bot_of three_documents)
      (String "2" (nl +:+ "Dove dorme il gatto?" +:+ nl +:+ "4"))
      (world_of (constant_service [of_Z 1; of_Z 0]))
    = Returns (next,
               with_calls (world_of (constant_service [of_Z 1; of_Z 0]))
                 (calls (world_of (constant_service [of_Z 1; of_Z 0])) ++ cs))
    /\ (next = Return
        \/ exists stdin', next = Continue (bot_of three_documents) stdin')
    /\ (TrimSpace (fst (ReadString_nl
                          (String "2" (nl +:+ "Dove dorme il gatto?" +:+ nl +:+ "4"))))
        <> "2"%string
        \/ Documents (vectorStore (bot_of three_documents)) = []
        \/ TrimSpace
             (fst (ReadString_nl
                     (snd (ReadString_nl
                             (String "2" (nl +:+ "Dove dorme il gatto?" +:+ nl +:+ "4"))))))
           = EmptyString ->
        cs = []).
Proof.
  apply (menu_turn_keeps (bot_of three_documents)
           (String "2" (nl +:+ "Dove dorme il gatto?" +:+ nl +:+ "4"))
           (world_of (constant_service [of_Z 1; of_Z 0]))).
  left. vm_compute. discriminate.
Defined.

(** ** The statistics of option 3 *)

Lemma wrap64_add_l (a b : Z) : wrap64 (wrap64 a + b) = wrap64 (a + b).
Proof.
  unfold wrap64. f_equal.
  replace ((a + 2 ^ 63) mod 2 ^ 64 - 2 ^ 63 + b + 2 ^ 63)
    with ((a + 2 ^ 63) mod 2 ^ 64 + b) by lia.
  rewrite Zplus_mod_idemp_l. f_equal. lia.
Qed.

Lemma count_step_chars (docs : list Document) :
  forall (pageCount : gmap Z Z) (t : Z),
    snd (fold_left count_step docs (pageCount, wrap64 t))
    = wrap64 (t + total_bytes docs).
Proof.
  induction docs as [|doc docs IH]; intros pageCount t; cbn [fold_left].
  - unfold total_bytes. cbn [map fold_right snd]. rewrite Z.add_0_r. reflexivity.
  - unfold count_step at 2. unfold GoInt.add at 2. rewrite wrap64_add_l, IH.
    unfold total_bytes. cbn [map fold_right]. f_equal. lia.
Qed.

Lemma count_step_pages (docs : list Document) :
  forall (pageCount : gmap Z Z) (t : Z),
    dom (fst (fold_left count_step docs (pageCount, t)))
    = dom pageCount ∪ pages_of docs.
Proof.
  unfold pages_of.
  induction docs as [|doc docs IH]; intros pageCount t; cbn [fold_left map].
  - cbn [fst]. rewrite list_to_set_nil, (right_id_L ∅ (∪)). reflexivity.
  - unfold count_step at 2. rewrite IH, dom_insert_L, list_to_set_cons.
    rewrite (comm_L (∪) {[Page doc]} (dom pageCount)), (assoc_L (∪)). reflexivity.
Qed.

Lemma pages_of_size (docs : list Document) :
  (size (pages_of docs) <= length docs)%nat
  /\ (docs <> [] -> (1 <= size (pages_of docs))%nat).
Proof.
  unfold pages_of. split.
  - induction docs as [|doc docs IH]; cbn [map length].
    + rewrite list_to_set_nil, size_empty. lia.
    + rewrite list_to_set_cons, size_union_alt, size_singleton.
      pose proof (subseteq_size (list_to_set (map Page docs) ∖ {[Page doc]})
                    (list_to_set (map Page docs) : gset Z)
                    (subseteq_difference_l _ _ _ (reflexivity _))).
      lia.
  - intros Hdocs. destruct docs as [|doc docs]; [contradiction|].
    cbn [map]. rewrite list_to_set_cons, size_union_alt, size_singleton. lia.
Qed.

Lemma total_bytes_nonneg (docs : list Document) : 0 <= total_bytes docs.
Proof.
  unfold total_bytes. induction docs as [|doc docs IH]; cbn [map fold_right];
    [lia|unfold len in *; lia].
Qed.

(** X22. The statistics that option 3 computes on a store with
    documents.  The number of pages shown is the number of distinct page
    numbers among the documents: at least 1, at most the number of
    documents, and 1 when all the documents are on one page, as they are
    after [ProcessTXT].  The number of characters shown is the sum of the
    lengths in bytes of the contents, as a 64-bit integer, and the mean is
    the quotient of the two numbers as [float64]. *)
Theorem database_statistics_counts (docs : list Document) :
  docs <> [] ->
  exists st,
    database_statistics docs = Some st
    /\ pages st = Z.of_nat (size (pages_of docs))
    /\ 1 <= pages st <= Z.of_nat (length docs)
    /\ (forall p, (forall doc, In doc docs -> Page doc = p) -> pages st = 1)
    /\ chars st = wrap64 (total_bytes docs)
    /\ (total_bytes docs <= max_int -> chars st = total_bytes docs)
    /\ mean st = div (of_Z (chars st)) (of_Z (Z.of_nat (length docs))).
Proof.
  intros Hdocs. unfold database_statistics.
  assert ((Z.of_nat (length docs) >? 0) = true) as ->.
  { destruct docs; [contradiction|reflexivity]. }
  pose proof (count_step_pages docs ∅ 0) as Hpages.
  pose proof (count_step_chars docs ∅ 0) as Hchars.
  change (wrap64 0) with 0 in Hchars.
  destruct (fold_left count_step docs (∅, 0)) as [pageCount totalChars].
  cbn [fst snd] in *. rewrite dom_empty_L, union_empty_l_L in Hpages.
  eexists. split; [reflexivity|]. cbn [pages chars mean].
  rewrite <- (size_dom pageCount), Hpages.
  destruct (pages_of_size docs) as [Hle Hge]. specialize (Hge Hdocs).
  split; [reflexivity|]. split; [lia|]. split; [|split; [exact Hchars|split]].
  - intros p Hp.
    assert (pages_of docs = {[p]}) as ->.
    { unfold pages_of. apply set_eq. intros q.
      rewrite elem_of_list_to_set, elem_of_singleton, list_elem_of_fmap.
      split.
      - intros (doc & -> & Hin). apply Hp. apply list_elem_of_In. exact Hin.
      - intros ->. destruct docs as [|doc docs]; [contradiction|].
        exists doc. split; [symmetry; apply Hp; left; reflexivity|left]. }
    rewrite size_singleton. reflexivity.
  - intros Hfit. rewrite Hchars. apply wrap64_id.
    split; [|exact Hfit].
    pose proof (total_bytes_nonneg docs). unfold min_int. lia.
  - reflexivity.
Qed.

Lemma database_statistics_counts_witness :
  exists st,
    database_statistics three_documents = Some st
    /\ pages st = Z.of_nat (size (pages_of three_documents))
    /\ 1 <= pages st <= Z.of_nat (length three_documents)
    /\ (forall p, (forall doc, In doc three_documents -> Page doc = p) -> pages st = 1)
    /\ chars st = wrap64 (total_bytes three_documents)
    /\ (total_bytes three_documents <= max_int -> chars st = total_bytes three_documents)
    /\ mean st = div (of_Z (chars st)) (of_Z (Z.of_nat (length three_documents))).
Proof.
  apply (database_statistics_counts three_documents). discriminate.
Defined.

(** ** [main], from its start to its end *)

Lemma main_startup_started (w : World) :
  exists started,
    main_startup w
    = Returns (started,
               with_calls w (calls w ++ [Get "http://localhost:11434/api/tags"]))
    /\ (started = None <->
        tags (service w) (calls w) "http://localhost:11434/api/tags" <> Ok 200).
Proof.
  unfold main_startup, CheckOllamaAvailable, get_tags, mbind, Go_bind.
  change (ollamaBaseURL NewRAGChatbot +:+ "/api/tags")
    with "http://localhost:11434/api/tags"%string.
  destruct (tags _ _ _) as [StatusCode|err].
  - destruct (Z.eqb_spec StatusCode 200) as [->|Hstatus]; cbn [negb].
    + cbv beta iota. unfold mret at 1, Go_ret at 1.
      set (w1 := with_calls w _).
      destruct (LoadVectorStore_returns NewRAGChatbot w1) as [loaded E].
      rewrite E. eexists. split; [reflexivity|].
      split; [discriminate|intros Hne; contradiction].
    + eexists. split; [reflexivity|].
      split; [intros _; congruence|reflexivity].
  - eexists. split; [reflexivity|].
    split; [intros _; discriminate|reflexivity].
Qed.

(** X23. The status [main] ends with.  When the service does not answer
    the request for its tags with status 200, [main] ends with status 1
    after that one request, whatever the input holds.  When it does,
    [main] can only end with status 0, and it does so when the first choice
    is 4; on an empty input it never ends. *)
Theorem main_exit_status `{UnicodeTables} `{SliceSorter} (stdin : string) (w : World) :
  let available :=
    tags (service w) (calls w) "http://localhost:11434/api/tags" = Ok 200 in
  (~ available ->
   main stdin w
   = Returns (1, with_calls w (calls w ++ [Get "http://localhost:11434/api/tags"])))
  /\ (available ->
      (forall status w', main stdin w = Returns (status, w') -> status = 0)
      /\ (TrimSpace (fst (ReadString_nl stdin)) = "4"%string ->
          main stdin w
          = Returns (0, with_calls w
                          (calls w ++ [Get "http://localhost:11434/api/tags"])))
      /\ (stdin = EmptyString -> forall fuel, main_fuel fuel stdin w = Diverges)).
Proof.
  intros available. subst available.
  destruct (main_startup_started w) as (started & E & Hstarted).
  unfold main, main_fuel. split.
  - intros Hdown. rewrite (bind_returns _ _ _ _ _ E).
    rewrite (proj2 Hstarted Hdown). reflexivity.
  - intros Hup.
    destruct started as [chatbot|]; [|exfalso; exact (proj1 Hstarted eq_refl Hup)].
    split; [|split].
    + intros status w' Hret. rewrite (bind_returns _ _ _ _ _ E) in Hret.
      unfold mbind, Go_bind in Hret.
      destruct (menu _ chatbot stdin _) as [[[] w1]| |]; try discriminate.
      injection Hret as <- _. reflexivity.
    + intros Hchoice. rewrite (bind_returns _ _ _ _ _ E).
      unfold mbind, Go_bind. cbn [menu]. unfold mbind, Go_bind, menu_turn.
      destruct (ReadString_nl stdin) as [choice stdin1]. cbn [fst] in Hchoice.
      rewrite Hchoice. reflexivity.
    + intros -> fuel. rewrite (bind_returns _ _ _ _ _ E).
      unfold mbind, Go_bind. rewrite menu_end_of_input. reflexivity.
Qed.

Lemma main_exit_status_witness :
  main "4" (world_of (constant_service [of_Z 1]))
  = Returns (0, with_calls (world_of (constant_service [of_Z 1]))
                  (calls (world_of (constant_service [of_Z 1]))
                   ++ [Get "http://localhost:11434/api/tags"]))
  /\ (forall fuel, main_fuel fuel "" (world_of (constant_service [of_Z 1])) = Diverges)
  /\ main "4" (world_of unreachable_service)
     = Returns (1, with_calls (world_of unreachable_service)
                     (calls (world_of unreachable_service)
                      ++ [Get "http://localhost:11434/api/tags"])).
Proof.
  split; [|split].
  - apply (proj2 (main_exit_status "4" (world_of (constant_service [of_Z 1])))).
    + reflexivity.
    + vm_compute. reflexivity.
  - apply (proj2 (main_exit_status "" (world_of (constant_service [of_Z 1])))).
    + reflexivity.
    + reflexivity.
  - apply (proj1 (main_exit_status "4" (world_of unreachable_service))).
    discriminate.
Defined.

